(** * AutoTest PC controller: a shallow embedding of the orchestration core

    The development follows the Python sources under
    [pc-controller/src/autotest]: the planner, the single-device runner and
    the test decorator, the wire message codec, the device client and the
    device manager, the parallel executor and the OCR plugin.

    Python objects are modelled as follows.
    - [int] is [Z]; [float] is an IEEE binary64 [spec_float] wherever the
      code computes with it (durations, request timeouts) and inside JSON
      documents, and [Q] elsewhere (OCR confidences and box coordinates,
      a test's timeout, the polling clock of [ocr_click]); [str] is
      [string]; [None] in an optional field is [None] of [option], or the
      value [VNone] where the field is dynamically typed.
    - an insertion-ordered [dict] whose iteration order is observed is an
      association list with unique keys ([dict_set] overwrites in place);
      a [dict] only looked up by key is a [gmap].
    - a raised exception is the [Raise] branch of [res].
    - a mutable list shared by reference lives in a store indexed by
      location. *)

From Stdlib Require Import ZArith QArith String List Bool Permutation Sorted Lia.
From Stdlib Require Import SpecFloat.
From stdpp Require Import gmap strings list.

Import ListNotations.
Set Warnings "-register-all".
Local Open Scope string_scope.
Local Open Scope Z_scope.
Local Open Scope list_scope.

(** ** Python runtime: exceptions, results, values *)

Module Py.

(** JSON-representable Python values: what [json.loads] produces and what
    the dynamically typed fields of a message hold. *)
Inductive value : Type :=
  | VNone
  | VBool (b : bool)
  | VInt (z : Z)
  | VFloat (f : spec_float)
  | VStr (s : string)
  | VList (l : list value)
  | VDict (d : list (string * value)).

(** The exception classes the modelled code raises or catches.  Only
    [BaseOnly] is outside the [Exception] hierarchy (KeyboardInterrupt,
    SystemExit, asyncio.CancelledError).  [AutoTestError(message, code)]
    keeps both arguments as they are given, whatever their type; [shown] is
    [str(message)], which is what [str] of the exception returns. *)
Inductive exn : Type :=
  | AssertionError (msg : string)
  | AsyncioTimeoutError
  | ZeroDivisionError
  | AttributeError (msg : string)
  | AutoTestError (message code : value) (shown : string)
  | ConnectionError (msg : string)
  | TimeoutError (msg : string)
  | DeviceOfflineError (msg : string)
  | OtherException (cls : string) (msg : string)
  | BaseOnly (cls : string) (msg : string).

(** [isinstance(e, Exception)] *)
Definition is_Exception (e : exn) : bool :=
  match e with
  | BaseOnly _ _ => false
  | _ => true
  end.

(** [type(e).__name__] *)
Definition type_name (e : exn) : string :=
  match e with
  | AssertionError _ => "AssertionError"
  | AsyncioTimeoutError => "TimeoutError"
  | ZeroDivisionError => "ZeroDivisionError"
  | AttributeError _ => "AttributeError"
  | AutoTestError _ _ _ => "AutoTestError"
  | ConnectionError _ => "ConnectionError"
  | TimeoutError _ => "TimeoutError"
  | DeviceOfflineError _ => "DeviceOfflineError"
  | OtherException cls _ => cls
  | BaseOnly cls _ => cls
  end.

(** [str(e)] *)
Definition str (e : exn) : string :=
  match e with
  | AssertionError msg => msg
  | AsyncioTimeoutError => ""
  | ZeroDivisionError => "integer modulo by zero"
  | AttributeError msg => msg
  | AutoTestError _ _ shown => shown
  | ConnectionError msg => msg
  | TimeoutError msg => msg
  | DeviceOfflineError msg => msg
  | OtherException _ msg => msg
  | BaseOnly _ msg => msg
  end.

(** The outcome of a call: a value, or a raised exception. *)
Inductive res (A : Type) : Type :=
  | Return (a : A)
  | Raise (e : exn).
Arguments Return {A} a.
Arguments Raise {A} e.

Definition bind {A B} (m : res A) (k : A -> res B) : res B :=
  match m with
  | Return a => k a
  | Raise e => Raise e
  end.

(** [type(v).__name__] *)
Definition class_name (v : value) : string :=
  match v with
  | VNone => "NoneType"
  | VBool _ => "bool"
  | VInt _ => "int"
  | VFloat _ => "float"
  | VStr _ => "str"
  | VList _ => "list"
  | VDict _ => "dict"
  end.

(** The error of [v.attr] on a value whose class has no such attribute. *)
Definition no_attribute (v : value) (attr : string) : exn :=
  AttributeError
    ("'" +:+ class_name v +:+ "' object has no attribute '" +:+ attr +:+ "'").

(** [str(v)]: a string is itself; [repr] renders any other value. *)
Definition str_value (repr : value -> string) (v : value) : string :=
  match v with
  | VStr s => s
  | _ => repr v
  end.

(** Arithmetic on [float], the IEEE binary64 format, rounding to nearest
    with ties to even. *)
Definition float_sub : spec_float -> spec_float -> spec_float := SFsub 53 1024.
Definition float_mul : spec_float -> spec_float -> spec_float := SFmul 53 1024.
Definition float_div : spec_float -> spec_float -> spec_float := SFdiv 53 1024.

(** [float(z)], as when an [int] operand meets a [float] one. *)
Definition float_of_int (z : Z) : spec_float := binary_normalize 53 1024 z 0 false.

(** Truthiness of a float: every float but the two zeros. *)
Definition float_truthy (f : spec_float) : bool :=
  match f with
  | S754_zero _ => false
  | _ => true
  end.

(** [int(f)]: truncation toward zero; it raises on a NaN and on an
    infinity. *)
Definition int_of_float (f : spec_float) : res Z :=
  match f with
  | S754_zero _ => Return 0
  | S754_finite s m e =>
      let z := if 0 <=? e then Zpos m * 2 ^ e else Zpos m / 2 ^ (- e) in
      Return (if s then - z else z)
  | S754_infinity _ =>
      Raise (OtherException "OverflowError" "cannot convert float infinity to integer")
  | S754_nan =>
      Raise (OtherException "ValueError" "cannot convert float NaN to integer")
  end.

(** Insertion-ordered dictionaries as association lists. *)
Section Dict.
Context {V : Type}.

Fixpoint dict_get (k : string) (d : list (string * V)) : option V :=
  match d with
  | [] => None
  | (k', v) :: d' => if String.eqb k k' then Some v else dict_get k d'
  end.

(** [d[k] = v]: overwrite in place, or append a new key at the end. *)
Fixpoint dict_set (k : string) (v : V) (d : list (string * V)) : list (string * V) :=
  match d with
  | [] => [(k, v)]
  | (k', v') :: d' =>
      if String.eqb k k' then (k', v) :: d' else (k', v') :: dict_set k v d'
  end.

Definition dict_keys (d : list (string * V)) : list string := List.map fst d.
Definition dict_values (d : list (string * V)) : list V := List.map snd d.
End Dict.

(** [sorted(l, key=key, reverse=True)] and [l.sort(key=key, reverse=True)]:
    a stable sort into descending key order.  [ltk a b] is [a < b] on keys.
    An element is placed before the first element whose key is not greater
    than its own, so equal keys keep the order they had in the input. *)
Section SortedReverse.
Context {A K : Type} (ltk : K -> K -> bool) (key : A -> K).

Fixpoint insert_desc (x : A) (l : list A) : list A :=
  match l with
  | [] => [x]
  | y :: l' =>
      if ltk (key x) (key y) then y :: insert_desc x l' else x :: y :: l'
  end.

Fixpoint sorted_reverse (l : list A) : list A :=
  match l with
  | [] => []
  | x :: l' => insert_desc x (sorted_reverse l')
  end.
End SortedReverse.

(** A suffix-free substring test: [target in text]. *)
Fixpoint str_contains (target text : string) : bool :=
  String.prefix target text ||
  match text with
  | EmptyString => false
  | String _ rest => str_contains target rest
  end.

(** *** Facts about dictionaries and sorting *)

Lemma dict_get_set_same {V : Type} (k : string) (v : V) (d : list (string * V)) :
  dict_get k (dict_set k v d) = Some v.
Proof.
  induction d as [| [k' v'] d IH]; cbn.
  - now rewrite String.eqb_refl.
  - destruct (String.eqb k k') eqn:E; cbn; rewrite E; [reflexivity | exact IH].
Qed.

Section SortedReverseFacts.
Context {A K : Type} (ltk : K -> K -> bool) (key : A -> K).

(** [a] may stand before [b] in descending order: [key a < key b] is false. *)
Definition desc (a b : A) : Prop := ltk (key a) (key b) = false.

Hypothesis ltk_asym : forall x y, ltk x y = true -> ltk y x = false.

Lemma insert_desc_perm (x : A) (l : list A) :
  Permutation (insert_desc ltk key x l) (x :: l).
Proof.
  induction l as [| y l IH]; cbn.
  - reflexivity.
  - destruct (ltk (key x) (key y)).
    + rewrite IH. apply perm_swap.
    + reflexivity.
Qed.

Lemma sorted_reverse_perm (l : list A) :
  Permutation (sorted_reverse ltk key l) l.
Proof.
  induction l as [| x l IH]; cbn.
  - reflexivity.
  - rewrite insert_desc_perm. now apply perm_skip.
Qed.

Lemma insert_desc_hd (a x : A) (l : list A) :
  desc a x -> HdRel desc a l -> HdRel desc a (insert_desc ltk key x l).
Proof.
  intros Hax Hal. destruct l as [| y l]; cbn.
  - now constructor.
  - destruct (ltk (key x) (key y)); constructor; trivial.
    now inversion Hal.
Qed.

Lemma insert_desc_sorted (x : A) (l : list A) :
  Sorted desc l -> Sorted desc (insert_desc ltk key x l).
Proof.
  induction l as [| y l IH]; intros Hs; cbn.
  - repeat constructor.
  - inversion Hs as [| ? ? Hs' Hhd]; subst.
    destruct (ltk (key x) (key y)) eqn:E.
    + constructor; [now apply IH |].
      apply insert_desc_hd; [| assumption].
      unfold desc. now apply ltk_asym.
    + constructor; [assumption |]. now constructor.
Qed.

Lemma sorted_reverse_sorted (l : list A) :
  Sorted desc (sorted_reverse ltk key l).
Proof.
  induction l as [| x l IH]; cbn.
  - constructor.
  - now apply insert_desc_sorted.
Qed.
End SortedReverseFacts.

Lemma Sorted_weaken {A : Type} (R R' : A -> A -> Prop) (l : list A) :
  (forall a b, R a b -> R' a b) -> Sorted R l -> Sorted R' l.
Proof.
  intros HR Hs. induction Hs as [| a l _ IH Hhd]; constructor; trivial.
  destruct Hhd; constructor. now apply HR.
Qed.

Lemma Zltb_asym (x y : Z) : (x <? y) = true -> (y <? x) = false.
Proof. intros H. apply Z.ltb_lt in H. apply Z.ltb_ge. lia. Qed.

(** *** Rounding a product of finite floats never gives a NaN *)







(** *** What the substring test computes *)

Lemma append_cons (c : Ascii.ascii) (s t : string) :
  String c s +:+ t = String c (s +:+ t).
Proof. reflexivity. Qed.

Lemma append_nil (t : string) : "" +:+ t = t.
Proof. reflexivity. Qed.

Lemma prefix_spec (target text : string) :
  String.prefix target text = true <-> exists rest, text = target +:+ rest.
Proof.
  revert text. induction target as [| c target IH]; intros text.
  - split; [intros _; now exists text | intros _; now destruct text].
  - destruct text as [| c' text]; cbn [String.prefix].
    + split; [discriminate | intros [rest H]; discriminate H].
    + destruct (Ascii.ascii_dec c c') as [-> | Hne].
      * rewrite IH. split; intros [rest H]; exists rest.
        -- rewrite append_cons. now rewrite H.
        -- rewrite append_cons in H. now injection H.
      * split; [discriminate |]. intros [rest H]. rewrite append_cons in H.
        injection H as H _. congruence.
Qed.

(** [str_contains target text] holds exactly when [text] is some prefix,
    then [target], then some suffix. *)
Lemma str_contains_spec (target text : string) :
  str_contains target text = true
  <-> exists before after, text = before +:+ target +:+ after.
Proof.
  induction text as [| c text IH].
  - cbn [str_contains]. rewrite orb_false_r, prefix_spec. split.
    + intros [rest H]. now exists "", rest.
    + intros (before & after & H). destruct before as [| b before].
      * now exists after.
      * rewrite append_cons in H. discriminate H.
  - cbn [str_contains]. rewrite orb_true_iff, prefix_spec, IH. split.
    + intros [[rest H] | (before & after & H)].
      * now exists "", rest.
      * exists (String c before), after. rewrite append_cons. now rewrite H.
    + intros (before & after & H). destruct before as [| b before].
      * left. now exists after.
      * right. exists before, after. rewrite append_cons in H. now injection H.
Qed.

End Py.

(** ** core/types.py and automation/decorators.py: results and test cases *)

Module Types.
Import Py.

Inductive TestStatus : Type :=
  | PENDING | RUNNING | PASSED | FAILED | SKIPPED | ERROR.

Definition TestStatus_eqb (a b : TestStatus) : bool :=
  match a, b with
  | PENDING, PENDING | RUNNING, RUNNING | PASSED, PASSED
  | FAILED, FAILED | SKIPPED, SKIPPED | ERROR, ERROR => true
  | _, _ => false
  end.

(** [TestStatus.value] *)
Definition status_value (s : TestStatus) : string :=
  match s with
  | PENDING => "pending" | RUNNING => "running" | PASSED => "passed"
  | FAILED => "failed" | SKIPPED => "skipped" | ERROR => "error"
  end.

Record TestResult : Type := mkTestResult {
  name : string;
  status : TestStatus;
  duration_ms : spec_float;
  device_serial : string;
  error_message : option string;
  screenshots : list string;
  logs : list string;
  metadata : list (string * value)
}.

(** [TestResult(name=n, status=s, device_serial=d, error_message=e)], the
    other fields at their dataclass defaults. *)
Definition TestResult_new (n : string) (s : TestStatus) (d : string)
    (e : option string) : TestResult :=
  mkTestResult n s (S754_zero false) d e [] [] [].

(** What awaiting a handler coroutine under [asyncio.wait_for] can do:
    return a value in time, raise in time, or still be running when the
    deadline passes. *)
Inductive retval : Type :=
  | RNone
  | RTestResult (r : TestResult).

Inductive Behaviour : Type :=
  | Returns (v : retval)
  | Raises (e : exn)
  | Overruns.

(** The status of the [TestResult] a call returned, if it returned one. *)
Definition status_of_behaviour (b : Behaviour) : option TestStatus :=
  match b with
  | Returns (RTestResult r) => Some (status r)
  | _ => None
  end.

(** An [async def] test function acting on a world [W] (the device, the
    clock, whatever the function touches). *)
Record handler (W : Type) : Type := mkHandler {
  fn_name : string;
  fn_doc : option string;
  fn_call : W -> Behaviour * W
}.
Arguments mkHandler {W} _ _ _.
Arguments fn_name {W} _.
Arguments fn_doc {W} _.
Arguments fn_call {W} _ _.

Record TestCaseInfo (W : Type) : Type := mkTestCaseInfo {
  tc_name : string;
  func : handler W;
  tags : list string;
  devices : option (list string);
  timeout : Q;
  retry : Z;
  priority : Z;
  description : string
}.
Arguments mkTestCaseInfo {W} _ _ _ _ _ _ _ _.
Arguments tc_name {W} _.
Arguments func {W} _.
Arguments tags {W} _.
Arguments devices {W} _.
Arguments timeout {W} _.
Arguments retry {W} _.
Arguments priority {W} _.
Arguments description {W} _.

End Types.

(** ** scheduler/planner.py *)

Module Planner.
Import Py Types.

Section WithWorld.
Context {W : Type}.

Record ExecutionPlan : Type := mkPlan {
  assignments : list (string * list (TestCaseInfo W));
  unassigned : list (TestCaseInfo W)
}.

Definition total_tests (p : ExecutionPlan) : nat :=
  (list_sum (List.map (fun t => length t) (dict_values (assignments p)))
   + length (unassigned p))%nat.

Definition device_count (p : ExecutionPlan) : nat := length (assignments p).

(** [{d: [] for d in devices}] *)
Definition empty_assignments (devices : list string)
    : list (string * list (TestCaseInfo W)) :=
  fold_left (fun acc d => dict_set d [] acc) devices [].

(** [{d: list(tests) for d in devices}] *)
Definition all_assignments (tests : list (TestCaseInfo W)) (devices : list string)
    : list (string * list (TestCaseInfo W)) :=
  fold_left (fun acc d => dict_set d tests acc) devices [].

(** [assignments[device].append(test)]; the key is always present. *)
Definition dict_append (device : string) (test : TestCaseInfo W)
    (a : list (string * list (TestCaseInfo W))) : list (string * list (TestCaseInfo W)) :=
  match dict_get device a with
  | Some l => dict_set device (l ++ [test]) a
  | None => a
  end.

(** The loop [for i, test in enumerate(sorted_tests)] of [_round_robin],
    from index [i] on.  [i % len(devices)] raises on an empty device list. *)
Fixpoint round_robin_loop (devices : list string) (i : nat)
    (sorted_tests : list (TestCaseInfo W))
    (a : list (string * list (TestCaseInfo W)))
    : res (list (string * list (TestCaseInfo W))) :=
  match sorted_tests with
  | [] => Return a
  | test :: rest =>
      match devices with
      | [] => Raise ZeroDivisionError
      | _ :: _ =>
          match nth_error devices (i mod length devices)%nat with
          | Some device => round_robin_loop devices (S i) rest (dict_append device test a)
          | None => Raise (OtherException "IndexError" "list index out of range")
          end
      end
  end.

Definition _round_robin (tests : list (TestCaseInfo W)) (devices : list string)
    : res ExecutionPlan :=
  let a := empty_assignments devices in
  let sorted_tests := sorted_reverse Z.ltb priority tests in
  bind (round_robin_loop devices 0 sorted_tests a)
       (fun a' => Return (mkPlan a' [])).

(** [min(l, key=lambda d: len(assignments[d]))]: the first minimum. *)
Definition load (a : list (string * list (TestCaseInfo W))) (d : string) : nat :=
  match dict_get d a with Some l => length l | None => 0%nat end.

Fixpoint min_by_load (a : list (string * list (TestCaseInfo W)))
    (best : string) (l : list string) : string :=
  match l with
  | [] => best
  | d :: l' => if (load a d <? load a best)%nat then min_by_load a d l'
               else min_by_load a best l'
  end.

Definition str_in (s : string) (l : list string) : bool :=
  existsb (String.eqb s) l.

Fixpoint capability_loop (devices : list string) (tests : list (TestCaseInfo W))
    (a : list (string * list (TestCaseInfo W))) (un : list (TestCaseInfo W))
    : res (list (string * list (TestCaseInfo W)) * list (TestCaseInfo W)) :=
  match tests with
  | [] => Return (a, un)
  | test :: rest =>
      match Types.devices test with
      | Some (r :: rs) =>
          match List.filter (fun d => str_in d (r :: rs)) devices with
          | m :: ms => capability_loop devices rest
                         (dict_append (min_by_load a m ms) test a) un
          | [] => capability_loop devices rest a (un ++ [test])
          end
      | _ =>
          match devices with
          | d :: ds => capability_loop devices rest
                         (dict_append (min_by_load a d ds) test a) un
          | [] => Raise (OtherException "ValueError" "min() arg is an empty sequence")
          end
      end
  end.

Definition _capability_match (tests : list (TestCaseInfo W)) (devices : list string)
    : res ExecutionPlan :=
  bind (capability_loop devices tests (empty_assignments devices) [])
       (fun '(a, un) => Return (mkPlan a un)).

Definition _single_device (tests : list (TestCaseInfo W)) (devices : list string)
    : res ExecutionPlan :=
  match devices with
  | d :: _ => Return (mkPlan [(d, tests)] [])
  | [] => Raise (OtherException "IndexError" "list index out of range")
  end.

Definition _duplicate_all (tests : list (TestCaseInfo W)) (devices : list string)
    : ExecutionPlan :=
  mkPlan (all_assignments tests devices) [].

(** [TestPlanner.plan] *)
Definition plan (tests : list (TestCaseInfo W)) (device_serials : list string)
    (strategy : string) : res ExecutionPlan :=
  match device_serials with
  | [] => Return (mkPlan [] tests)
  | _ :: _ =>
      if String.eqb strategy "round_robin" then _round_robin tests device_serials
      else if String.eqb strategy "capability_match"
           then _capability_match tests device_serials
      else if String.eqb strategy "single_device" then _single_device tests device_serials
      else if String.eqb strategy "duplicate"
           then Return (_duplicate_all tests device_serials)
      else _round_robin tests device_serials
  end.
End WithWorld.

Arguments ExecutionPlan W : clear implicits.

(** The three tests of the round-robin scenario, over a trivial world. *)
Definition noop : handler unit :=
  mkHandler "noop" None (fun w => (Returns RNone, w)).
Definition scenario_test (n : string) (p : Z) : TestCaseInfo unit :=
  mkTestCaseInfo n noop [] None 300%Q 0 p "".
Definition t1 := scenario_test "t1" 0.
Definition t2 := scenario_test "t2" 10.
Definition t3 := scenario_test "t3" 5.

Example sorted_scenario :
  sorted_reverse Z.ltb priority [t1; t2; t3] = [t2; t3; t1].
Proof. reflexivity. Qed.

Example sorted_stable :
  List.map tc_name
    (sorted_reverse Z.ltb priority
       [scenario_test "a" 1; scenario_test "b" 2; scenario_test "c" 1;
        scenario_test "d" 2])
  = ["b"; "d"; "a"; "c"].
Proof. reflexivity. Qed.

(** C1, as the scenario states it, fails: the plan for devices A, B and
    tests t1 (priority 0), t2 (priority 10), t3 (priority 5) is not
    A:[t2,t3], B:[t1]. *)
Lemma round_robin_scenario_as_stated_fails :
  plan [t1; t2; t3] ["A"; "B"] "round_robin"
  <> Return (mkPlan [("A", [t2; t3]); ("B", [t1])] []).
Proof.
  intros H. vm_compute in H.
  injection H as H. discriminate H.
Qed.

(** C1 (amended): with devices A, B and tests t1 (priority 0), t2
    (priority 10), t3 (priority 5), the round-robin plan deals the tests in
    descending priority order t2, t3, t1 alternately to A and B, giving
    A:[t2,t1], B:[t3], with no unassigned test. *)
Theorem round_robin_scenario :
  forall (W : Type) (a b c : TestCaseInfo W),
    priority a = 0 -> priority b = 10 -> priority c = 5 ->
    plan [a; b; c] ["A"; "B"] "round_robin"
    = Return (mkPlan [("A", [b; a]); ("B", [c])] []).
Proof.
  intros W a b c Ha Hb Hc.
  unfold plan. cbn [String.eqb Ascii.eqb Bool.eqb].
  unfold _round_robin. cbn [sorted_reverse insert_desc].
  rewrite Hb, Hc. change (10 <? 5) with false.
  cbn [insert_desc]. rewrite Ha, Hb, Hc.
  reflexivity.
Qed.

Lemma round_robin_scenario_witness :
  plan [t1; t2; t3] ["A"; "B"] "round_robin"
  = Return (mkPlan [("A", [t2; t1]); ("B", [t3])] []).
Proof.
  apply (round_robin_scenario unit t1 t2 t3); reflexivity.
Defined.

End Planner.

(** ** automation/decorators.py: the [@test_case] decorator and the registry *)

Module Decorators.
Import Py Types.

Section WithWorld.
Context {W : Type}.
(** [time.monotonic()], read off the world. *)
Variable monotonic : W -> spec_float.

Record test_case_args : Type := mkArgs {
  arg_name : option string;
  arg_tags : option (list string);
  arg_devices : option (list string);
  arg_timeout : Q;
  arg_retry : Z;
  arg_priority : Z;
  arg_description : string
}.

(** [a or b] on an optional string: [None] and [""] are falsy. *)
Definition str_or (a : option string) (b : string) : string :=
  match a with
  | Some (String c s) => String c s
  | _ => b
  end.

Definition test_name (args : test_case_args) (f : handler W) : string :=
  str_or (arg_name args) (fn_name f).

(** The [TestCaseInfo] built by [decorator]: its [func] is the decorated
    function itself. *)
Definition registered_info (args : test_case_args) (f : handler W) : TestCaseInfo W :=
  mkTestCaseInfo
    (test_name args f)
    f
    (match arg_tags args with Some (t :: ts) => t :: ts | _ => [] end)
    (arg_devices args)
    (arg_timeout args)
    (arg_retry args)
    (arg_priority args)
    (str_or (Some (arg_description args)) (str_or (fn_doc f) "")).

(** The [wrapper] coroutine returned by [decorator]. *)
Definition wrapper (args : test_case_args) (f : handler W) : handler W :=
  mkHandler (fn_name f) (fn_doc f)
    (fun w =>
       let start := monotonic w in
       let '(b, w') := fn_call f w in
       let duration :=
         float_mul (float_sub (monotonic w') start) (float_of_int 1000) in
       let result s e :=
         Returns (RTestResult (mkTestResult (test_name args f) s duration "" e [] [] [])) in
       match b with
       | Returns _ => (result PASSED None, w')
       | Raises (AssertionError msg) => (result FAILED (Some msg), w')
       | Raises e =>
           if is_Exception e
           then (result ERROR (Some (type_name e +:+ ": " +:+ str e)), w')
           else (Raises e, w')
       | Overruns => (Overruns, w')
       end).

(** [test_case(...)(func)]: registers the info under the test name (the
    last registration of a name wins) and returns the wrapper. *)
Definition test_case (args : test_case_args) (f : handler W)
    (_test_registry : list (string * TestCaseInfo W))
    : list (string * TestCaseInfo W) * handler W :=
  (dict_set (test_name args f) (registered_info args f) _test_registry,
   wrapper args f).

(** [get_registered_tests()] is a copy of the registry. *)
Definition get_registered_tests (_test_registry : list (string * TestCaseInfo W))
    : list (string * TestCaseInfo W) := _test_registry.
End WithWorld.

End Decorators.

(** ** core/events.py: the bus, seen as the log of emitted events

    Subscribed handlers are observers outside the modelled code and their
    exceptions are swallowed by [_safe_call]; [emit] is modelled by what it
    is given.  The wall-clock [timestamp] of an event is not modelled. *)

Module Events.

Inductive datum : Type :=
  | DInt (z : Z)
  | DNum (f : spec_float)
  | DStr (s : string).

Record Event : Type := mkEvent {
  ev_type : string;
  ev_source : string;
  ev_data : list (string * datum)
}.

Definition emit (bus : list Event) (e : Event) : list Event := bus ++ [e].

End Events.

(** ** automation/runner.py *)

Module Runner.
Import Py Types Events.

(** Python truthiness of an optional list argument ([if tags:]). *)
Definition truthy {A : Type} (o : option (list A)) : bool :=
  match o with
  | Some (_ :: _) => true
  | _ => false
  end.

Definition str_in (s : string) (l : list string) : bool :=
  existsb (String.eqb s) l.

Definition count_status (s : TestStatus) (rs : list TestResult) : Z :=
  Z.of_nat (length (List.filter (fun r => TestStatus_eqb (status r) s) rs)).

Section WithWorld.
Context {W : Type}.
(** How an f-string renders the float [test.timeout]. *)
Variable repr_float : Q -> string.

(** *** filter_tests, over a store of list objects

    A list object is a location of the store; [tests] and [filtered] are
    references.  A comprehension allocates a new list; [sort] updates the
    list it is called on. *)
Abbreviation store := (list (list (TestCaseInfo W))).

Definition alloc (l : list (TestCaseInfo W)) (st : store) : nat * store :=
  (length st, st ++ [l]).

Definition by_tags (tags : list string) (l : list (TestCaseInfo W))
    : list (TestCaseInfo W) :=
  List.filter (fun t => existsb (fun tag => str_in tag (Types.tags t)) tags) l.

Definition by_names (names : list string) (l : list (TestCaseInfo W))
    : list (TestCaseInfo W) :=
  List.filter (fun t => str_in (tc_name t) names) l.

(** [filtered = [t for t in filtered if keep t]] when the argument is
    truthy; otherwise [filtered] keeps referring to the same object. *)
Definition comprehension (arg : option (list string))
    (keep : list string -> list (TestCaseInfo W) -> list (TestCaseInfo W))
    (filtered : nat) (st : store) : option (nat * store) :=
  match arg with
  | Some (x :: xs) =>
      match st !! filtered with
      | Some l => Some (alloc (keep (x :: xs) l) st)
      | None => None
      end
  | _ => Some (filtered, st)
  end.

(** [filtered.sort(key=lambda t: t.priority, reverse=True)] *)
Definition sort_in_place (filtered : nat) (st : store) : option store :=
  match st !! filtered with
  | Some l => Some (<[filtered := sorted_reverse Z.ltb priority l]> st)
  | None => None
  end.

(** [TestRunner.filter_tests]: the returned reference and the store after
    the call.  [None] only for a dangling reference, which Python does not
    have. *)
Definition filter_tests (tests : nat) (tags names : option (list string))
    (st : store) : option (nat * store) :=
  let filtered := tests in
  match comprehension tags by_tags filtered st with
  | Some (filtered, st) =>
      match comprehension names by_names filtered st with
      | Some (filtered, st) =>
          match sort_in_place filtered st with
          | Some st => Some (filtered, st)
          | None => None
          end
      | None => None
      end
  | None => None
  end.

(** The tests a call keeps: the tag filter, then the name filter, each
    applied only when its argument is truthy. *)
Definition selection (tags names : option (list string))
    (l : list (TestCaseInfo W)) : list (TestCaseInfo W) :=
  let l := match tags with Some (x :: xs) => by_tags (x :: xs) l | _ => l end in
  match names with Some (x :: xs) => by_names (x :: xs) l | _ => l end.

(** *** _run_single *)

(** One pass through the [try] statement of [_run_single], given what
    awaiting [test.func(device)] under [wait_for] did: the new
    [last_result], or an exception the statement does not catch. *)
Definition attempt_result (test : TestCaseInfo W) (serial : string)
    (b : Behaviour) : res TestResult :=
  let timed_out :=
    TestResult_new (tc_name test) ERROR serial
      (Some ("Test timed out after " +:+ repr_float (timeout test) +:+ "s")) in
  match b with
  | Returns (RTestResult r) =>
      Return (mkTestResult (name r) (status r) (duration_ms r) serial
                (error_message r) (screenshots r) (logs r) (metadata r))
  | Returns RNone => Return (TestResult_new (tc_name test) PASSED serial None)
  | Overruns => Return timed_out
  | Raises AsyncioTimeoutError => Return timed_out
  | Raises e =>
      if is_Exception e
      then Return (TestResult_new (tc_name test) ERROR serial
                     (Some (type_name e +:+ ": " +:+ str e)))
      else Raise e
  end.

(** The outcome of [_run_single]: what it returns or raises, the world
    the handler leaves behind, and how many times [test.func] was called. *)
Record run_single_outcome : Type := mkOutcome {
  returned : res TestResult;
  world : W;
  invocations : nat
}.

(** The [for attempt in range(test.retry + 1)] loop with [n] iterations
    left. *)
Fixpoint attempts (test : TestCaseInfo W) (serial : string) (n : nat)
    (last_result : option TestResult) (w : W) (calls : nat)
    : res (option TestResult) * W * nat :=
  match n with
  | O => (Return last_result, w, calls)
  | S n' =>
      let '(b, w') := fn_call (func test) w in
      match attempt_result test serial b with
      | Raise e => (Raise e, w', S calls)
      | Return r =>
          if TestStatus_eqb (status r) PASSED
          then (Return (Some r), w', S calls)
          else attempts test serial n' (Some r) w' (S calls)
      end
  end.

Definition _run_single (test : TestCaseInfo W) (serial : string) (w : W)
    : run_single_outcome :=
  let '(r, w', calls) :=
    attempts test serial (Z.to_nat (retry test + 1)) None w 0 in
  mkOutcome
    (bind r (fun last_result =>
       Return (match last_result with
               | Some r => r
               | None => TestResult_new (tc_name test) ERROR serial
                           (Some "Unknown error")
               end)))
    w' calls.

(** *** run *)

Fixpoint run_loop (serial : string) (total : nat) (i : nat)
    (tests : list (TestCaseInfo W)) (results : list TestResult)
    (w : W) (bus : list Event) : res (list TestResult) * W * list Event :=
  match tests with
  | [] => (Return results, w, bus)
  | test :: rest =>
      let bus := emit bus (mkEvent "test.started" "runner"
                   [("name", DStr (tc_name test)); ("index", DInt (Z.of_nat i))]) in
      let o := _run_single test serial w in
      match returned o with
      | Raise e => (Raise e, world o, bus)
      | Return result =>
          let bus := emit bus (mkEvent "test.completed" "runner"
                       [("name", DStr (tc_name test));
                        ("status", DStr (status_value (status result)));
                        ("duration", DNum (duration_ms result))]) in
          run_loop serial total (S i) rest (results ++ [result]) (world o) bus
      end
  end.

(** [TestRunner.run(tests, client)] for the client with the given serial:
    the results, the world and the bus afterwards.  The runner's running
    total [self.results] is read by none of the modelled code and is left
    out. *)
Definition run (tests : list (TestCaseInfo W)) (serial : string)
    (w : W) (bus : list Event) : res (list TestResult) * W * list Event :=
  let bus := emit bus (mkEvent "run.started" "runner"
               [("total", DInt (Z.of_nat (length tests))); ("device", DStr serial)]) in
  match run_loop serial (length tests) 0 tests [] w bus with
  | (Return results, w, bus) =>
      (Return results, w,
       emit bus (mkEvent "run.completed" "runner"
         [("total", DInt (Z.of_nat (length results)));
          ("passed", DInt (count_status PASSED results));
          ("failed", DInt (count_status FAILED results));
          ("error", DInt (count_status ERROR results))]))
  | (Raise e, w, bus) => (Raise e, w, bus)
  end.

(** *** The handler's successive behaviours, for stating properties *)

(** The world after [k] consecutive calls of [f] from [w]. *)
Fixpoint world_after (f : handler W) (w : W) (k : nat) : W :=
  match k with
  | O => w
  | S k' => snd (fn_call f (world_after f w k'))
  end.

(** What attempt number [k] (from 0) produces, were it made. *)
Definition attempt (test : TestCaseInfo W) (serial : string) (w : W) (k : nat)
    : res TestResult :=
  attempt_result test serial (fst (fn_call (func test) (world_after (func test) w k))).

Definition passes (r : res TestResult) : Prop :=
  exists tr, r = Return tr /\ status tr = PASSED.

Definition non_pass (r : res TestResult) : Prop :=
  exists tr, r = Return tr /\ status tr <> PASSED.
End WithWorld.

(** *** Retry loop *)

Section RetryFacts.
Context {W : Type}.
Variable repr_float : Q -> string.
Variable test : TestCaseInfo W.
Variable serial : string.

Lemma world_after_shift (f : handler W) (w : W) (k : nat) :
  world_after f w (S k) = world_after f (snd (fn_call f w)) k.
Proof.
  induction k as [| k IH]; [reflexivity |].
  change (world_after f w (S (S k)))
    with (snd (fn_call f (world_after f w (S k)))).
  now rewrite IH.
Qed.

Lemma attempt_shift (w : W) (k : nat) :
  attempt repr_float test serial w (S k)
  = attempt repr_float test serial (snd (fn_call (func test) w)) k.
Proof. unfold attempt. now rewrite world_after_shift. Qed.

(** A passing attempt [k] after [k] non-passing ones ends the loop. *)
Lemma attempts_first_pass (k : nat) :
  forall (n : nat) (last : option TestResult) (w : W) (calls : nat) (tr : TestResult),
    (k < n)%nat ->
    (forall j, (j < k)%nat -> non_pass (attempt repr_float test serial w j)) ->
    attempt repr_float test serial w k = Return tr ->
    status tr = PASSED ->
    attempts repr_float test serial n last w calls
    = (Return (Some tr), world_after (func test) w (S k), (calls + S k)%nat).
Proof.
  induction k as [| k IH]; intros n last w calls tr Hn Hfail Hk Hpass.
  - destruct n as [| n]; [lia |].
    cbn [attempts]. unfold attempt in Hk. cbn [world_after] in Hk.
    destruct (fn_call (func test) w) as [b w'] eqn:Hcall.
    cbn [fst] in Hk. rewrite Hk, Hpass. cbn [TestStatus_eqb].
    cbn [world_after]. rewrite Hcall. cbn [snd].
    now replace (calls + 1)%nat with (S calls) by lia.
  - destruct n as [| n]; [lia |].
    cbn [attempts].
    destruct (Hfail 0%nat ltac:(lia)) as (tr0 & H0 & Hnp).
    unfold attempt in H0. cbn [world_after] in H0.
    rewrite world_after_shift.
    destruct (fn_call (func test) w) as [b w'] eqn:Hcall.
    cbn [fst] in H0. cbn [snd]. rewrite H0.
    destruct (TestStatus_eqb (status tr0) PASSED) eqn:E.
    { destruct (status tr0); try discriminate E. now contradiction Hnp. }
    rewrite (IH n (Some tr0) w' (S calls) tr).
    + f_equal. lia.
    + lia.
    + intros j Hj. specialize (Hfail (S j) ltac:(lia)).
      rewrite attempt_shift, Hcall in Hfail. exact Hfail.
    + rewrite attempt_shift, Hcall in Hk. exact Hk.
    + exact Hpass.
Qed.

(** [n] non-passing attempts use up the loop; the last one is kept. *)
Lemma attempts_all_non_pass (n : nat) :
  forall (last : option TestResult) (w : W) (calls : nat),
    (forall j, (j < S n)%nat -> non_pass (attempt repr_float test serial w j)) ->
    exists tr,
      attempt repr_float test serial w n = Return tr /\
      attempts repr_float test serial (S n) last w calls
      = (Return (Some tr), world_after (func test) w (S n), (calls + S n)%nat).
Proof.
  induction n as [| n IH]; intros last w calls Hfail.
  - destruct (Hfail 0%nat ltac:(lia)) as (tr0 & H0 & Hnp).
    exists tr0. split; [exact H0 |].
    cbn [attempts]. unfold attempt in H0. cbn [world_after] in H0.
    cbn [world_after].
    destruct (fn_call (func test) w) as [b w'] eqn:Hcall.
    cbn [fst] in H0. cbn [snd]. rewrite H0.
    destruct (TestStatus_eqb (status tr0) PASSED) eqn:E.
    { destruct (status tr0); try discriminate E. now contradiction Hnp. }
    now replace (calls + 1)%nat with (S calls) by lia.
  - destruct (Hfail 0%nat ltac:(lia)) as (tr0 & H0 & Hnp).
    assert (Hrest : forall j, (j < S n)%nat ->
              non_pass (attempt repr_float test serial (snd (fn_call (func test) w)) j)).
    { intros j Hj. rewrite <- attempt_shift. apply Hfail. lia. }
    destruct (IH (Some tr0) (snd (fn_call (func test) w)) (S calls) Hrest)
      as (tr & Hlast & Hloop).
    exists tr. split; [now rewrite attempt_shift |].
    rewrite (world_after_shift _ w (S n)).
    change (attempts repr_float test serial (S (S n)) last w calls) with
      (let '(b, w') := fn_call (func test) w in
       match attempt_result repr_float test serial b with
       | Raise e => (Raise e, w', S calls)
       | Return r =>
           if TestStatus_eqb (status r) PASSED
           then (Return (Some r), w', S calls)
           else attempts repr_float test serial (S n) (Some r) w' (S calls)
       end).
    unfold attempt in H0. cbn [world_after] in H0.
    destruct (fn_call (func test) w) as [b w'] eqn:Hcall.
    cbn [fst] in H0. cbn [snd] in Hloop |- *. rewrite H0.
    destruct (TestStatus_eqb (status tr0) PASSED) eqn:E.
    { destruct (status tr0); try discriminate E. now contradiction Hnp. }
    rewrite Hloop. f_equal. lia.
Qed.

(** C8: with retry count [r >= 0], a passing attempt ends the run with
    that result and no further call of the handler; when every attempt is
    non-pass the handler is called exactly [r + 1] times and the result of
    the last attempt is returned; with [r = 0] the handler is called
    exactly once. *)
Theorem run_single_retry :
  forall (w : W),
    0 <= retry test ->
    (forall (k : nat) (tr : TestResult),
        Z.of_nat k <= retry test ->
        (forall j, (j < k)%nat -> non_pass (attempt repr_float test serial w j)) ->
        attempt repr_float test serial w k = Return tr ->
        status tr = PASSED ->
        _run_single repr_float test serial w
        = mkOutcome (Return tr) (world_after (func test) w (S k)) (S k))
    /\ ((forall k : nat, Z.of_nat k <= retry test ->
           non_pass (attempt repr_float test serial w k)) ->
        exists tr,
          attempt repr_float test serial w (Z.to_nat (retry test)) = Return tr /\
          returned (_run_single repr_float test serial w) = Return tr /\
          Z.of_nat (invocations (_run_single repr_float test serial w))
          = retry test + 1)
    /\ (retry test = 0 ->
        invocations (_run_single repr_float test serial w) = 1%nat).
Proof.
  intros w Hr. split; [| split].
  - intros k tr Hk Hfail Hatt Hpass. unfold _run_single.
    rewrite (attempts_first_pass k _ None w 0%nat tr); trivial.
    lia.
  - intros Hfail. unfold _run_single.
    replace (Z.to_nat (retry test + 1)) with (S (Z.to_nat (retry test))) by lia.
    destruct (attempts_all_non_pass (Z.to_nat (retry test)) None w 0%nat)
      as (tr & Hlast & Hloop).
    { intros j Hj. apply Hfail. lia. }
    exists tr. rewrite Hloop. cbn. repeat split; trivial. lia.
  - intros H0. unfold _run_single. rewrite H0.
    change (Z.to_nat (0 + 1)) with 1%nat. cbn [attempts].
    destruct (fn_call (func test) w) as [b w'].
    destruct (attempt_result repr_float test serial b) as [r | e]; [| reflexivity].
    now destruct (TestStatus_eqb (status r) PASSED).
Qed.
End RetryFacts.

(** The retry scenario: a handler whose world counts its calls and that
    fails its first two calls. *)
Definition flaky : handler nat :=
  mkHandler "t" None
    (fun w => if (w <? 2)%nat then (Raises (AssertionError "not yet"), S w)
              else (Returns RNone, S w)).
Definition flaky_test : TestCaseInfo nat :=
  mkTestCaseInfo "t" flaky [] None 300%Q 2 0 "".
Definition repr_300 (q : Q) : string := "300.0".

Lemma run_single_retry_witness :
  _run_single repr_300 flaky_test "A" 0%nat
  = mkOutcome (Return (TestResult_new "t" PASSED "A" None)) 3%nat 3%nat.
Proof.
  refine (proj1 (run_single_retry repr_300 flaky_test "A" 0%nat _)
            2%nat (TestResult_new "t" PASSED "A" None) _ _ _ _).
  - vm_compute. discriminate.
  - vm_compute. discriminate.
  - intros j Hj.
    destruct j as [| [| j]]; [| | lia];
      (eexists; split; [reflexivity | discriminate]).
  - reflexivity.
  - reflexivity.
Defined.

(** *** Assertion failures *)

Section AssertionFacts.
Context {W : Type}.
Variable monotonic : W -> spec_float.
Variable repr_float : Q -> string.

(** What the runner makes of a registered test whose function raises an
    [AssertionError]: the function stored in the registry is the undecorated
    one, so the error reaches the runner's [except Exception]. *)
Lemma registered_assertion_error
    (args : Decorators.test_case_args) (f : handler W) (serial msg : string) (w w' : W) :
  fn_call f w = (Raises (AssertionError msg), w') ->
  Decorators.arg_retry args = 0 ->
  returned (_run_single repr_float (Decorators.registered_info args f) serial w)
  = Return (TestResult_new (Decorators.test_name args f) ERROR serial
              (Some ("AssertionError: " +:+ msg))).
Proof.
  intros Hcall Hretry. unfold _run_single, Decorators.registered_info.
  cbn [retry]. rewrite Hretry. change (Z.to_nat (0 + 1)) with 1%nat.
  cbn [attempts func]. rewrite Hcall. reflexivity.
Qed.

(** The decorator's own wrapper turns the same failure into [FAILED]. *)
Lemma wrapper_assertion_failed
    (args : Decorators.test_case_args) (f : handler W) (msg : string) (w w' : W) :
  fn_call f w = (Raises (AssertionError msg), w') ->
  exists d,
    fn_call (Decorators.wrapper monotonic args f) w
    = (Returns (RTestResult
         (mkTestResult (Decorators.test_name args f) FAILED d "" (Some msg) [] [] [])), w').
Proof.
  intros Hcall. eexists. cbn [Decorators.wrapper fn_call]. rewrite Hcall. reflexivity.
Qed.
End AssertionFacts.

Definition login_fails : handler unit :=
  mkHandler "test_login" None
    (fun w => (Raises (AssertionError "Login failed: welcome screen not found"), w)).
Definition login_args : Decorators.test_case_args :=
  Decorators.mkArgs (Some "Login Flow Test") (Some ["smoke"; "login"]) None 300%Q 0 0 "".
Definition frozen_clock (w : unit) : spec_float := S754_zero false.

(** C2 (evaluated on the code): a test registered by [@test_case] whose
    function raises an AssertionError gets, from the runner, a result with
    status [ERROR] and the message prefixed by the exception class, not
    status [FAILED] with the assertion's message; the wrapper the decorator
    returns would have produced [FAILED]. *)
Theorem assertion_failure_reported_as_error :
  let '(registry, wrapped) :=
    Decorators.test_case frozen_clock login_args login_fails [] in
  (exists info,
      dict_get "Login Flow Test" registry = Some info /\
      returned (_run_single repr_300 info "A" tt)
      = Return (TestResult_new "Login Flow Test" ERROR "A"
          (Some "AssertionError: Login failed: welcome screen not found")))
  /\ status_of_behaviour (fst (fn_call wrapped tt)) = Some FAILED.
Proof.
  cbn. split; [| reflexivity].
  eexists. split; reflexivity.
Qed.

(** *** filter_tests and the caller's list *)

Section FilterFacts.
Context {W : Type}.

Lemma comprehension_falsy (arg : option (list string)) keep (r : nat) (st : list (list (TestCaseInfo W))) :
  truthy arg = false -> comprehension arg keep r st = Some (r, st).
Proof. destruct arg as [[| x xs] |]; now intros. Qed.

Lemma comprehension_truthy (arg : option (list string)) keep (r : nat)
    (st : list (list (TestCaseInfo W))) (l : list (TestCaseInfo W)) :
  truthy arg = true -> st !! r = Some l ->
  exists a, arg = Some a /\
    comprehension arg keep r st = Some (length st, st ++ [keep a l]).
Proof.
  destruct arg as [[| x xs] |]; try discriminate. intros _ Hl.
  exists (x :: xs). split; [reflexivity |]. cbn. now rewrite Hl.
Qed.

Lemma selection_cases (tags names : option (list string)) (l : list (TestCaseInfo W)) :
  selection tags names l
  = (if truthy names
     then by_names (default [] names)
     else fun l => l)
      ((if truthy tags then by_tags (default [] tags) else fun l => l) l).
Proof. destruct tags as [[| ? ?] |], names as [[| ? ?] |]; reflexivity. Qed.

(** C10: without (truthy) tags and names, [filter_tests] sorts the list
    object it was given, by descending priority, and returns that same
    object; with tags or names it leaves the given list object as it was
    and returns a newly allocated list holding the selection, sorted. *)
Theorem filter_tests_aliasing :
  forall (st : list (list (TestCaseInfo W))) (tests : nat) (l : list (TestCaseInfo W))
         (tags names : option (list string)),
    st !! tests = Some l ->
    (truthy tags = false -> truthy names = false ->
       filter_tests tests tags names st
       = Some (tests, <[tests := sorted_reverse Z.ltb priority l]> st)
       /\ Permutation (sorted_reverse Z.ltb priority l) l
       /\ Sorted (fun a b => priority b <= priority a)
            (sorted_reverse Z.ltb priority l))
    /\ (truthy tags = true \/ truthy names = true ->
        exists (r : nat) (st' : list (list (TestCaseInfo W))),
          filter_tests tests tags names st = Some (r, st')
          /\ r <> tests
          /\ st !! r = None
          /\ st' !! tests = Some l
          /\ (forall i, (i < length st)%nat -> st' !! i = st !! i)
          /\ st' !! r = Some (sorted_reverse Z.ltb priority (selection tags names l))).
Proof.
  intros st tests l tags names Hl.
  assert (Hlt : (tests < length st)%nat) by (apply lookup_lt_is_Some; eauto).
  split.
  - intros Ht Hn. split; [| split].
    + unfold filter_tests. rewrite comprehension_falsy by assumption.
      rewrite comprehension_falsy by assumption.
      unfold sort_in_place. now rewrite Hl.
    + apply sorted_reverse_perm.
    + apply (Sorted_weaken (desc Z.ltb priority)).
      * intros a b Hab. now apply Z.ltb_ge.
      * apply (sorted_reverse_sorted Z.ltb priority Zltb_asym).
  - intros Hor. unfold filter_tests.
    destruct (truthy tags) eqn:Ht.
    + destruct (comprehension_truthy tags by_tags tests st l Ht Hl) as (a & -> & ->).
      assert (H1 : (st ++ [by_tags a l]) !! length st = Some (by_tags a l)).
      { rewrite lookup_app_r by lia. now rewrite Nat.sub_diag. }
      destruct (truthy names) eqn:Hn.
      * destruct (comprehension_truthy names by_names (length st) _ _ Hn H1)
          as (b & -> & ->).
        unfold sort_in_place. rewrite length_app. cbn [length].
        assert (H2 : ((st ++ [by_tags a l]) ++ [by_names b (by_tags a l)])
                       !! (length st + 1)%nat = Some (by_names b (by_tags a l))).
        { rewrite lookup_app_r by (rewrite length_app; cbn; lia).
          rewrite length_app. cbn [length]. now rewrite Nat.sub_diag. }
        rewrite H2.
        eexists _, _. split; [reflexivity |].
        split; [lia |]. split; [apply lookup_ge_None; lia |].
        split; [| split].
        -- rewrite list_lookup_insert_ne by lia.
           rewrite <- app_assoc. now rewrite lookup_app_l by lia.
        -- intros i Hi. rewrite list_lookup_insert_ne by lia.
           rewrite <- app_assoc. now rewrite lookup_app_l by lia.
        -- rewrite list_lookup_insert_eq by (rewrite !length_app; cbn; lia).
           rewrite selection_cases, Ht, Hn. reflexivity.
      * rewrite comprehension_falsy by assumption.
        unfold sort_in_place. rewrite H1.
        eexists _, _. split; [reflexivity |].
        split; [lia |]. split; [apply lookup_ge_None; lia |].
        split; [| split].
        -- rewrite list_lookup_insert_ne by lia. now rewrite lookup_app_l by lia.
        -- intros i Hi. rewrite list_lookup_insert_ne by lia.
           now rewrite lookup_app_l by lia.
        -- rewrite list_lookup_insert_eq by (rewrite length_app; cbn; lia).
           rewrite selection_cases, Ht, Hn. reflexivity.
    + destruct Hor as [Hor | Hn]; [discriminate |].
      rewrite comprehension_falsy by assumption.
      destruct (comprehension_truthy names by_names tests st l Hn Hl) as (b & -> & ->).
      assert (H1 : (st ++ [by_names b l]) !! length st = Some (by_names b l)).
      { rewrite lookup_app_r by lia. now rewrite Nat.sub_diag. }
      unfold sort_in_place. rewrite H1.
      eexists _, _. split; [reflexivity |].
      split; [lia |]. split; [apply lookup_ge_None; lia |].
      split; [| split].
      * rewrite list_lookup_insert_ne by lia. now rewrite lookup_app_l by lia.
      * intros i Hi. rewrite list_lookup_insert_ne by lia.
        now rewrite lookup_app_l by lia.
      * rewrite list_lookup_insert_eq by (rewrite length_app; cbn; lia).
        rewrite selection_cases, Ht, Hn. reflexivity.
Qed.
End FilterFacts.

Definition smoke (n : string) (p : Z) (tg : list string) : TestCaseInfo nat :=
  mkTestCaseInfo n flaky tg None 300%Q 0 p "".
Definition discovered : list (TestCaseInfo nat) :=
  [smoke "a" 0 ["smoke"]; smoke "b" 10 ["perf"]; smoke "c" 5 ["smoke"]].

Lemma filter_tests_aliasing_witness :
  (filter_tests 0%nat None None [discovered]
   = Some (0%nat, [[smoke "b" 10 ["perf"]; smoke "c" 5 ["smoke"]; smoke "a" 0 ["smoke"]]]))
  /\ (exists r st',
        filter_tests 0%nat (Some ["smoke"]) None [discovered] = Some (r, st')
        /\ r <> 0%nat
        /\ st' !! 0%nat = Some discovered
        /\ st' !! r = Some [smoke "c" 5 ["smoke"]; smoke "a" 0 ["smoke"]]).
Proof.
  pose proof (filter_tests_aliasing [discovered] 0%nat discovered) as H.
  split.
  - destruct (H None None eq_refl) as [Hin _].
    exact (proj1 (Hin eq_refl eq_refl)).
  - destruct (H (Some ["smoke"]) None eq_refl) as [_ Hout].
    destruct (Hout (or_introl eq_refl)) as (r & st' & Hf & Hne & _ & Hsame & _ & Hnew).
    exists r, st'. repeat split; assumption.
Defined.

End Runner.


(** ** device/protocol.py: the message envelope and its codec

    [json.dumps] and [json.loads] belong to the Python standard library; a
    text frame is represented by the JSON document it carries, a [value].
    [to_json] is the document handed to [json.dumps], and [from_json] starts
    from the document [json.loads] returned.  The fields of a [Message] are
    dynamically typed: [from_json] stores whatever the frame holds. *)

Module Protocol.
Import Py.

Record Message : Type := mkMessage {
  id : value;
  type : value;
  method : value;
  params : value;
  result : value;
  error : value;
  metadata : value;
  timestamp : value
}.

(** [Message.__dataclass_fields__] *)
Definition __dataclass_fields__ : list string :=
  ["id"; "type"; "method"; "params"; "result"; "error"; "metadata"; "timestamp"].

Definition is_field (k : string) : bool :=
  existsb (String.eqb k) __dataclass_fields__.

(** [v is not None] *)
Definition is_not_None (v : value) : bool :=
  match v with
  | VNone => false
  | _ => true
  end.

(** [v == 0] *)
Definition py_eq_zero (v : value) : bool :=
  match v with
  | VInt 0 => true
  | VBool false => true
  | VFloat (S754_zero _) => true
  | _ => false
  end.

(** Python truthiness. *)
Definition truthy (v : value) : bool :=
  match v with
  | VNone => false
  | VBool b => b
  | VInt z => negb (z =? 0)
  | VFloat (S754_zero _) => false
  | VFloat _ => true
  | VStr s => negb (String.eqb s "")
  | VList l => match l with [] => false | _ => true end
  | VDict d => match d with [] => false | _ => true end
  end.

(** [cls] applied to keyword arguments [kw]: the dataclass constructor followed by [__post_init__].
    [uuid] is what [str(uuid.uuid4())] yields at this call and [now] what
    [int(time.time() * 1000)] yields; each is used only where the source
    evaluates it. *)
Definition Message_init (uuid : string) (now : Z) (kw : list (string * value)) : Message :=
  let get k dflt := match dict_get k kw with Some v => v | None => dflt end in
  let ts := get "timestamp" (VInt 0) in
  mkMessage
    (get "id" (VStr uuid))
    (get "type" (VStr "request"))
    (get "method" VNone)
    (get "params" VNone)
    (get "result" VNone)
    (get "error" VNone)
    (get "metadata" VNone)
    (if py_eq_zero ts then VInt now else ts).

(** [dataclasses.asdict(self)] *)
Definition asdict (m : Message) : list (string * value) :=
  [("id", id m); ("type", type m); ("method", method m); ("params", params m);
   ("result", result m); ("error", error m); ("metadata", metadata m);
   ("timestamp", timestamp m)].

Definition to_json (m : Message) : value :=
  VDict (List.filter (fun kv => is_not_None (snd kv)) (asdict m)).

(** [data.items()] exists only on a dict. *)
Definition from_json (uuid : string) (now : Z) (frame : value) : res Message :=
  match frame with
  | VDict data =>
      Return (Message_init uuid now (List.filter (fun kv => is_field (fst kv)) data))
  | _ => Raise (no_attribute frame "items")
  end.

(** [{"timeout": int(timeout * 1000)} if timeout else None]: the product
    is a product of floats, and [int] raises when it is not finite. *)
Definition request_metadata (timeout : option spec_float) : res value :=
  match timeout with
  | Some t =>
      if float_truthy t
      then bind (int_of_float (float_mul t (float_of_int 1000)))
                (fun ms => Return (VDict [("timeout", VInt ms)]))
      else Return VNone
  | None => Return VNone
  end.

(** [Message.request(method, params, timeout)] *)
Definition request (uuid : string) (now : Z) (method : string) (params : value)
    (timeout : option spec_float) : res Message :=
  bind (request_metadata timeout) (fun metadata =>
    Return (Message_init uuid now
      [("type", VStr "request"); ("method", VStr method); ("params", params);
       ("metadata", metadata)])).

(** [Message.cancel(request_id)] *)
Definition cancel (now : Z) (request_id : string) : Message :=
  Message_init "" now [("id", VStr request_id); ("type", VStr "cancel")].

Definition value_is_str (v : value) (s : string) : bool :=
  match v with
  | VStr s' => String.eqb s' s
  | _ => false
  end.

Definition is_success (m : Message) : bool :=
  value_is_str (type m) "response" && negb (is_not_None (error m)).

(** [self.error.get(key, default)] when [self.error] is truthy. *)
Definition error_get (m : Message) (key : string) (dflt if_falsy : value) : res value :=
  if truthy (error m) then
    match error m with
    | VDict d => Return (match dict_get key d with Some v => v | None => dflt end)
    | v => Raise (no_attribute v "get")
    end
  else Return if_falsy.

Definition error_message (m : Message) : res value :=
  error_get m "message" (VStr "Unknown error") (VStr "").

Definition error_code (m : Message) : res value :=
  error_get m "code" (VInt 0) (VInt 0).



(** A frame is rejected when decoding it raises. *)
Definition rejects (uuid : string) (now : Z) (frame : value) : Prop :=
  exists e, from_json uuid now frame = Raise e.

(** *** Decoding *)

Lemma dict_get_filter_field (k : string) (data : list (string * value)) :
  is_field k = true ->
  dict_get k (List.filter (fun kv => is_field (fst kv)) data) = dict_get k data.
Proof.
  intros Hk. induction data as [| [k' v] data IH]; [reflexivity |].
  cbn [List.filter fst dict_get].
  destruct (String.eqb k k') eqn:E.
  - apply String.eqb_eq in E. subst k'. rewrite Hk. cbn [dict_get].
    now rewrite String.eqb_refl.
  - destruct (is_field k'); [cbn [dict_get]; now rewrite E | exact IH].
Qed.

(** A frame that is not a JSON object is rejected. *)
Lemma from_json_rejects_non_object (uuid : string) (now : Z) (frame : value) :
  (forall data, frame <> VDict data) -> rejects uuid now frame.
Proof.
  intros Hne. unfold rejects.
  destruct frame; try (eexists; reflexivity).
  now contradiction (Hne d).
Qed.

(** C3, as stated, fails: a frame with neither [id] nor [type] is decoded,
    not rejected; the decoder fills in both fields. *)
Lemma from_json_accepts_frame_without_id_and_type :
  let frame := VDict [("method", VStr "device.info")] in
  dict_get "id" [("method", VStr "device.info")] = None
  /\ dict_get "type" [("method", VStr "device.info")] = None
  /\ from_json "6f1c" 1700000000000 frame
     = Return (mkMessage (VStr "6f1c") (VStr "request") (VStr "device.info")
                 VNone VNone VNone VNone (VInt 1700000000000))
  /\ ~ rejects "6f1c" 1700000000000 frame.
Proof.
  cbn. repeat split.
  intros [e He]. discriminate He.
Qed.

(** C3 (amended): every frame that is a JSON object is decoded, whether
    or not it has [id] and [type]; a missing [id] becomes the freshly
    generated UUID, a missing [type] becomes ["request"], and a field that
    is present is taken from the frame. *)
Theorem from_json_fills_missing_id_and_type :
  forall (uuid : string) (now : Z) (data : list (string * value)),
  exists m,
    from_json uuid now (VDict data) = Return m
    /\ id m = match dict_get "id" data with Some v => v | None => VStr uuid end
    /\ type m = match dict_get "type" data with Some v => v | None => VStr "request" end.
Proof.
  intros uuid now data. eexists. split; [reflexivity |].
  unfold Message_init. cbn [id type].
  now rewrite !dict_get_filter_field by reflexivity.
Qed.

(** *** Round trip *)

Lemma is_not_None_cases (v : value) : v = VNone \/ is_not_None v = true.
Proof. destruct v; auto. Qed.

(** The round trip needs only that [id], [type] and [timestamp] are set
    and that the timestamp is not 0. *)
Lemma from_json_to_json (uuid : string) (now : Z) (m : Message) :
  is_not_None (id m) = true ->
  is_not_None (type m) = true ->
  is_not_None (timestamp m) = true ->
  py_eq_zero (timestamp m) = false ->
  from_json uuid now (to_json m) = Return m.
Proof.
  destruct m as [i t me p r e md ts]. cbn [id type timestamp].
  intros Hi Ht Hts Hz.
  unfold to_json, asdict. cbn [List.filter snd id type method params result error
                                metadata timestamp].
  rewrite Hi, Ht, Hts.
  destruct (is_not_None_cases me) as [-> | Hme];
  destruct (is_not_None_cases p) as [-> | Hp];
  destruct (is_not_None_cases r) as [-> | Hr];
  destruct (is_not_None_cases e) as [-> | He];
  destruct (is_not_None_cases md) as [-> | Hmd];
  rewrite ?Hme, ?Hp, ?Hr, ?He, ?Hmd;
  cbn -[py_eq_zero Message_init]; unfold Message_init; cbn -[py_eq_zero];
  rewrite Hz; reflexivity.
Qed.


(** Every message the constructor builds has a non-zero timestamp, as long
    as the clock does not read the epoch itself. *)
Lemma Message_init_timestamp (uuid : string) (now : Z) (kw : list (string * value)) :
  now <> 0 -> py_eq_zero (timestamp (Message_init uuid now kw)) = false.
Proof.
  intros Hnow. unfold Message_init. cbn [timestamp].
  set (ts := match dict_get "timestamp" kw with Some v => v | None => VInt 0 end).
  destruct (py_eq_zero ts) eqn:E; [| exact E].
  destruct now; [contradiction | reflexivity | reflexivity].
Qed.






End Protocol.


(** ** plugins/builtin/ocr.py: text search over recognition results

    The float [confidence] and [threshold] are rationals; a backend is its
    [recognize] coroutine, which may raise. *)

Module Ocr.
Import Py.

Record Rect : Type := mkRect {
  rect_left : Z;
  rect_top : Z;
  rect_right : Z;
  rect_bottom : Z
}.

Record OcrResult : Type := mkOcrResult {
  text : string;
  bounds : Rect;
  confidence : Q
}.

Record OcrBackend : Type := mkBackend {
  backend_name : string;
  recognize : list Byte.byte -> res (list OcrResult)
}.

(** [target in r.text and r.confidence >= threshold] *)
Definition matches (target : string) (threshold : Q) (r : OcrResult) : bool :=
  str_contains target (text r) && Qle_bool threshold (confidence r).

(** The loop of [OcrBackend.find_text] over [all_results]. *)
Fixpoint find_text_loop (target : string) (threshold : Q)
    (all_results matched : list OcrResult) : list OcrResult :=
  match all_results with
  | [] => matched
  | r :: rest =>
      if matches target threshold r
      then find_text_loop target threshold rest (matched ++ [r])
      else find_text_loop target threshold rest matched
  end.

Definition backend_find_text (b : OcrBackend) (image : list Byte.byte)
    (target : string) (threshold : Q) : res (list OcrResult) :=
  bind (recognize b image)
       (fun all_results => Return (find_text_loop target threshold all_results [])).

Record OcrPlugin : Type := mkPlugin {
  _backend : option OcrBackend
}.

(** [a < b] on confidences. *)
Definition Qlt_bool (a b : Q) : bool := negb (Qle_bool b a).

(** [OcrPlugin.find_text] *)
Definition find_text (p : OcrPlugin) (screenshot : list Byte.byte)
    (target_text : string) (threshold : Q) : res (list OcrResult) :=
  match _backend p with
  | None => Return []
  | Some b =>
      bind (backend_find_text b screenshot target_text threshold)
           (fun results => Return (sorted_reverse Qlt_bool confidence results))
  end.

(** [OcrPlugin.recognize_screen] *)
Definition recognize_screen (p : OcrPlugin) (screenshot : list Byte.byte)
    : res (list OcrResult) :=
  match _backend p with
  | None => Return []
  | Some b => recognize b screenshot
  end.

(** *** Facts *)

Lemma find_text_loop_filter (target : string) (threshold : Q)
    (all_results matched : list OcrResult) :
  find_text_loop target threshold all_results matched
  = matched ++ List.filter (matches target threshold) all_results.
Proof.
  revert matched. induction all_results as [| r rest IH]; intros matched; cbn.
  - now rewrite app_nil_r.
  - destruct (matches target threshold r).
    + rewrite IH. now rewrite <- app_assoc.
    + apply IH.
Qed.

Lemma Qlt_bool_asym (a b : Q) : Qlt_bool a b = true -> Qlt_bool b a = false.
Proof.
  unfold Qlt_bool. intros H. apply negb_true_iff in H. apply negb_false_iff.
  apply Qle_bool_iff.
  apply Qlt_le_weak, Qnot_le_lt. intros Hle.
  apply Qle_bool_iff in Hle. congruence.
Qed.

Lemma Qlt_bool_false (a b : Q) : Qlt_bool a b = false -> (b <= a)%Q.
Proof.
  unfold Qlt_bool. intros H. apply negb_false_iff in H. now apply Qle_bool_iff.
Qed.

(** [target] occurs in [text]: some characters, then [target], then some
    more. *)
Definition occurs_in (target text : string) : Prop :=
  exists before after, text = before +:+ target +:+ after.

(** The test of the loop accepts exactly the results whose text contains
    the target and whose confidence reaches the threshold. *)
Lemma matches_spec (target : string) (threshold : Q) (r : OcrResult) :
  matches target threshold r = true
  <-> occurs_in target (text r) /\ (threshold <= confidence r)%Q.
Proof.
  unfold matches, occurs_in.
  now rewrite andb_true_iff, str_contains_spec, Qle_bool_iff.
Qed.

(** C9: when recognition yields [all_results], [OcrPlugin.find_text]
    returns exactly those results whose text contains the target and whose
    confidence is at least the threshold (each as often as recognition
    produced it), in descending order of confidence; without a backend
    there are no recognition results and it returns the empty list. *)
Theorem find_text_filtered_and_sorted :
  forall (p : OcrPlugin) (screenshot : list Byte.byte) (target : string)
         (threshold : Q) (all_results : list OcrResult),
    recognize_screen p screenshot = Return all_results ->
    exists out,
      find_text p screenshot target threshold = Return out
      /\ (forall r, In r out <->
            In r all_results
            /\ (exists before after, text r = before +:+ target +:+ after)
            /\ (threshold <= confidence r)%Q)
      /\ (exists keep : OcrResult -> bool,
            (forall r, keep r = true <->
               (exists before after, text r = before +:+ target +:+ after)
               /\ (threshold <= confidence r)%Q)
            /\ Permutation out (List.filter keep all_results))
      /\ Sorted (fun a b => (confidence b <= confidence a)%Q) out.
Proof.
  intros p screenshot target threshold all_results Hrec.
  unfold find_text, recognize_screen in *.
  destruct (_backend p) as [b |].
  - unfold backend_find_text. rewrite Hrec. cbn [bind].
    rewrite find_text_loop_filter. cbn [app].
    set (kept := List.filter (matches target threshold) all_results).
    assert (Hperm : Permutation (sorted_reverse Qlt_bool confidence kept) kept)
      by apply sorted_reverse_perm.
    eexists. split; [reflexivity |]. split; [| split].
    + intros r. rewrite <- (matches_spec target threshold r). split.
      * intros Hin. apply (Permutation_in _ Hperm) in Hin.
        now apply filter_In in Hin.
      * intros Hin. apply (Permutation_in _ (Permutation_sym Hperm)).
        now apply filter_In.
    + exists (matches target threshold). split; [apply matches_spec | exact Hperm].
    + apply (Sorted_weaken (desc Qlt_bool confidence)).
      * intros x y Hxy. now apply Qlt_bool_false.
      * apply (sorted_reverse_sorted Qlt_bool confidence Qlt_bool_asym).
  - injection Hrec as <-. exists []. cbn.
    split; [reflexivity |]. split; [tauto |]. split; [| constructor].
    exists (matches target threshold). split; [apply matches_spec | constructor].
Qed.

Definition full_screen : Rect := mkRect 0 0 1080 1920.
Definition sample_results : list OcrResult :=
  [mkOcrResult "Login" full_screen (7 # 10);
   mkOcrResult "Logout" full_screen (3 # 10);
   mkOcrResult "Settings" full_screen (9 # 10);
   mkOcrResult "Log in again" full_screen (19 # 20)].
Definition sample_plugin : OcrPlugin :=
  mkPlugin (Some (mkBackend "sample" (fun _ => Return sample_results))).

Lemma find_text_filtered_and_sorted_witness :
  exists out,
    find_text sample_plugin [] "Log" (6 # 10) = Return out
    /\ (forall r, In r out <->
          In r sample_results
          /\ (exists before after, text r = before +:+ "Log" +:+ after)
          /\ (6 # 10 <= confidence r)%Q)
    /\ (exists keep : OcrResult -> bool,
          (forall r, keep r = true <->
             (exists before after, text r = before +:+ "Log" +:+ after)
             /\ (6 # 10 <= confidence r)%Q)
          /\ Permutation out (List.filter keep sample_results))
    /\ Sorted (fun a b => (confidence b <= confidence a)%Q) out.
Proof.
  apply (find_text_filtered_and_sorted sample_plugin [] "Log" (6 # 10) sample_results).
  reflexivity.
Defined.

Example find_text_sample :
  find_text sample_plugin [] "Log" (6 # 10)
  = Return [mkOcrResult "Log in again" full_screen (19 # 20);
            mkOcrResult "Login" full_screen (7 # 10)].
Proof. reflexivity. Qed.

End Ocr.


(** ** core/config.py: the device section *)

Module Config.

Record DeviceConfig : Type := mkDeviceConfig {
  control_port : Z;
  binary_port : Z;
  event_port : Z;
  connect_timeout : spec_float;
  command_timeout : spec_float;
  heartbeat_interval : spec_float
}.

(** [DeviceConfig()] *)
Definition default : DeviceConfig :=
  mkDeviceConfig 18900 18901 18902
    (Py.float_of_int 10) (Py.float_of_int 30) (Py.float_of_int 5).

End Config.

(** ** device/client.py: the per-device transport

    A websocket is known by its endpoint; what the client writes to the
    control socket is kept in [control_out].  A future is a cell of the
    client's [futures], referred to by its index.  Event subscribers are
    opaque callbacks, known by a number; [notified] records each call made
    to one.

    [send] suspends while it awaits the response.  It is modelled by the
    part that runs up to the suspension, [send_begin], and the part that runs
    when the wait ends, [send_finish]; between the two the control listener
    handles incoming frames, one [listen_control_step] per frame. *)

Module Client.
Import Py Config.

Record endpoint : Type := mkEndpoint {
  ep_host : string;
  ep_port : Z;
  ep_path : string
}.

Inductive future : Type :=
  | FPending
  | FResult (m : Protocol.Message)
  | FException (e : exn)
  | FCancelled.

(** [future.done()] *)
Definition done (f : future) : bool :=
  match f with
  | FPending => false
  | _ => true
  end.

Record DeviceClient : Type := mkClient {
  serial : string;
  host : string;
  config : DeviceConfig;
  _control_ws : option endpoint;
  _event_ws : option endpoint;
  _pending : gmap string nat;
  _event_handlers : list nat;
  _event_listener_task : bool;
  _connected : bool;
  futures : list future;
  control_out : list value;
  notified : list (nat * Protocol.Message)
}.

(** [DeviceClient(serial, host, config)] *)
Definition DeviceClient_new (serial host : string) (config : DeviceConfig) : DeviceClient :=
  mkClient serial host config None None ∅ [] false false [] [] [].

Definition is_connected (c : DeviceClient) : bool := _connected c.

Definition set_control_ws (ws : option endpoint) (c : DeviceClient) : DeviceClient :=
  mkClient (serial c) (host c) (config c) ws (_event_ws c) (_pending c)
    (_event_handlers c) (_event_listener_task c) (_connected c) (futures c)
    (control_out c) (notified c).

Definition set_event_ws (ws : option endpoint) (c : DeviceClient) : DeviceClient :=
  mkClient (serial c) (host c) (config c) (_control_ws c) ws (_pending c)
    (_event_handlers c) (_event_listener_task c) (_connected c) (futures c)
    (control_out c) (notified c).

Definition set_pending (p : gmap string nat) (c : DeviceClient) : DeviceClient :=
  mkClient (serial c) (host c) (config c) (_control_ws c) (_event_ws c) p
    (_event_handlers c) (_event_listener_task c) (_connected c) (futures c)
    (control_out c) (notified c).

Definition set_futures (fs : list future) (c : DeviceClient) : DeviceClient :=
  mkClient (serial c) (host c) (config c) (_control_ws c) (_event_ws c) (_pending c)
    (_event_handlers c) (_event_listener_task c) (_connected c) fs
    (control_out c) (notified c).

Definition set_connected (listening connected : bool) (c : DeviceClient) : DeviceClient :=
  mkClient (serial c) (host c) (config c) (_control_ws c) (_event_ws c) (_pending c)
    (_event_handlers c) listening connected (futures c)
    (control_out c) (notified c).

Definition write_control (frame : value) (c : DeviceClient) : DeviceClient :=
  mkClient (serial c) (host c) (config c) (_control_ws c) (_event_ws c) (_pending c)
    (_event_handlers c) (_event_listener_task c) (_connected c) (futures c)
    (control_out c ++ [frame]) (notified c).

(** *** connect and disconnect *)

(** [dial ep] is what [wait_for(websockets.connect(uri), timeout)] does for
    the endpoint: it connects, or raises. *)
Definition connect (dial : endpoint -> res unit) (c : DeviceClient)
    : res unit * DeviceClient :=
  let failed (e : exn) (c : DeviceClient) :=
    if is_Exception e
    then (Raise (ConnectionError
            ("Failed to connect to device " +:+ serial c +:+ ": " +:+ str e)), c)
    else (Raise e, c) in
  let control_uri := mkEndpoint (host c) (control_port (config c)) "/control" in
  let event_uri := mkEndpoint (host c) (event_port (config c)) "/events" in
  match dial control_uri with
  | Raise e => failed e c
  | Return _ =>
      let c := set_control_ws (Some control_uri) c in
      match dial event_uri with
      | Raise e => failed e c
      | Return _ =>
          let c := set_event_ws (Some event_uri) c in
          (Return tt, set_connected true true c)
      end
  end.

(** The loop of [disconnect] over [self._pending.values()]. *)
Definition fail_pending (pending : gmap string nat) (fs : list future) : list future :=
  fold_right
    (fun kv fs =>
       match fs !! snd kv with
       | Some FPending => <[snd kv := FException (ConnectionError "Disconnected")]> fs
       | _ => fs
       end)
    fs (map_to_list pending).

Definition disconnect (c : DeviceClient) : DeviceClient :=
  let c := set_connected false false c in
  let c := set_futures (fail_pending (_pending c) (futures c)) c in
  set_pending ∅ c.

(** *** send *)

(** What [send] has in hand when it suspends. *)
Record awaiting : Type := mkAwaiting {
  aw_id : string;
  aw_future : nat;
  aw_method : string;
  aw_timeout : spec_float
}.

(** [timeout or self.config.command_timeout] *)
Definition effective_timeout (timeout : option spec_float) (c : DeviceClient)
    : spec_float :=
  match timeout with
  | Some t => if float_truthy t then t else command_timeout (config c)
  | None => command_timeout (config c)
  end.

(** [send] up to [await asyncio.wait_for(future, timeout=timeout)].
    [written] is the outcome of the write on the control socket.  When
    [Message.request] raises, nothing has been touched yet. *)
Definition send_begin (uuid : string) (now : Z) (written : res unit)
    (method : string) (params : value) (timeout : option spec_float)
    (c : DeviceClient) : res awaiting * DeviceClient :=
  match _control_ws c with
  | None => (Raise (ConnectionError "Not connected"), c)
  | Some _ =>
      let timeout := effective_timeout timeout c in
      match Protocol.request uuid now method params (Some timeout) with
      | Raise e => (Raise e, c)
      | Return msg =>
          let fut := length (futures c) in
          let c := set_futures (futures c ++ [FPending]) c in
          let c := set_pending (<[uuid := fut]> (_pending c)) c in
          match written with
          | Raise e => (Raise e, c)
          | Return _ =>
              (Return (mkAwaiting uuid fut method timeout),
               write_control (Protocol.to_json msg) c)
          end
      end
  end.

(** [send] from the end of the wait on.  [wait_for] ends when the future
    is done or when the deadline passes; a future still pending at that
    point means the deadline passed, and [wait_for] cancels it.
    [repr_float] renders the timeout in the error message.  The error
    raised for an unsuccessful response is given the response's message and
    code as they are; [py_repr] is how [str] renders a message that is not
    a string. *)
Definition send_finish (repr_float : spec_float -> string) (py_repr : value -> string)
    (a : awaiting) (c : DeviceClient) : res Protocol.Message * DeviceClient :=
  match futures c !! aw_future a with
  | Some (FResult response) =>
      if Protocol.is_success response then (Return response, c)
      else
        (bind (Protocol.error_message response) (fun msg =>
         bind (Protocol.error_code response) (fun code =>
         Raise (AutoTestError msg code (str_value py_repr msg)))), c)
  | Some (FException e) => (Raise e, c)
  | Some FCancelled => (Raise (BaseOnly "CancelledError" ""), c)
  | Some FPending =>
      let c := set_futures (<[aw_future a := FCancelled]> (futures c)) c in
      let c := set_pending (delete (aw_id a) (_pending c)) c in
      (Raise (TimeoutError
         ("Request " +:+ aw_method a +:+ " timed out after "
          +:+ repr_float (aw_timeout a) +:+ "s")), c)
  | None => (Raise (BaseOnly "CancelledError" ""), c) (* no such cell *)
  end.

(** *** The listeners *)

(** A frame read from a socket, with what the runtime supplies should the
    decoder need an id or a timestamp for it. *)
Record incoming : Type := mkIncoming {
  in_uuid : string;
  in_now : Z;
  in_frame : value
}.

(** [self._pending.pop(msg.id, None)]: only a string can be a key of the
    table; a list or a dict is not hashable. *)
Definition pop_pending (key : value) (pending : gmap string nat)
    : res (option nat * gmap string nat) :=
  match key with
  | VStr s => Return (pending !! s, delete s pending)
  | VList _ | VDict _ => Raise (OtherException "TypeError" "unhashable type")
  | _ => Return (None, pending)
  end.

(** The body of the [async for] loop of [_listen_control]. *)
Definition listen_control_step (i : incoming) (c : DeviceClient) : res DeviceClient :=
  bind (Protocol.from_json (in_uuid i) (in_now i) (in_frame i)) (fun msg =>
    if Protocol.value_is_str (Protocol.type msg) "response" then
      bind (pop_pending (Protocol.id msg) (_pending c)) (fun '(future, pending) =>
        let c := set_pending pending c in
        match future with
        | Some fut =>
            match futures c !! fut with
            | Some FPending => Return (set_futures (<[fut := FResult msg]> (futures c)) c)
            | _ => Return c
            end
        | None => Return c
        end)
    else Return c).

(** The listener handling several frames in turn; it stops at the first
    frame whose handling raises. *)
Fixpoint listen_control (frames : list incoming) (c : DeviceClient) : res DeviceClient :=
  match frames with
  | [] => Return c
  | i :: rest => bind (listen_control_step i c) (listen_control rest)
  end.

(** [on_event(handler)] *)
Definition on_event (handler : nat) (c : DeviceClient) : DeviceClient :=
  mkClient (serial c) (host c) (config c) (_control_ws c) (_event_ws c) (_pending c)
    (_event_handlers c ++ [handler]) (_event_listener_task c) (_connected c)
    (futures c) (control_out c) (notified c).

(** The body of the [async for] loop of [_listen_events]: every handler is
    called with the message; what a handler raises is dropped. *)
Definition listen_events_step (i : incoming) (c : DeviceClient) : res DeviceClient :=
  bind (Protocol.from_json (in_uuid i) (in_now i) (in_frame i)) (fun msg =>
    Return (mkClient (serial c) (host c) (config c) (_control_ws c) (_event_ws c)
              (_pending c) (_event_handlers c) (_event_listener_task c)
              (_connected c) (futures c) (control_out c)
              (notified c ++ List.map (fun h => (h, msg)) (_event_handlers c)))).

(** A frame that is a response carrying the given request id. *)
Definition is_response_for (rid : string) (i : incoming) : Prop :=
  exists msg,
    Protocol.from_json (in_uuid i) (in_now i) (in_frame i) = Return msg
    /\ Protocol.type msg = VStr "response"
    /\ Protocol.id msg = VStr rid.

(** A frame written to the control channel that is a cancel frame. *)
Definition is_cancel_frame (frame : value) : bool :=
  match frame with
  | VDict d =>
      match dict_get "type" d with
      | Some (VStr t) => String.eqb t "cancel"
      | _ => false
      end
  | _ => false
  end.

(** *** A request that times out *)

Lemma value_is_str_true (v : value) (s : string) :
  Protocol.value_is_str v s = true -> v = VStr s.
Proof.
  destruct v; try discriminate. cbn. intros H.
  apply String.eqb_eq in H. now subst.
Qed.

Lemma value_is_str_refl (s : string) : Protocol.value_is_str (VStr s) s = true.
Proof. cbn. apply String.eqb_refl. Qed.

Lemma set_pending_same (c : DeviceClient) : set_pending (_pending c) c = c.
Proof. now destruct c. Qed.

(** Every future the table refers to is a cell of the client. *)
Definition table_ok (c : DeviceClient) : Prop :=
  forall k f, _pending c !! k = Some f -> (f < length (futures c))%nat.

(** [table_ok] holds of a new client and is kept by every operation that
    touches the table. *)
Lemma table_ok_new (serial host : string) (config : DeviceConfig) :
  table_ok (DeviceClient_new serial host config).
Proof. intros k f Hk. cbn in Hk. now rewrite lookup_empty in Hk. Qed.

Lemma table_ok_send_begin (uuid : string) (now : Z) (written : res unit)
    (method : string) (params : value) (timeout : option spec_float)
    (c c1 : DeviceClient) (r : res awaiting) :
  table_ok c ->
  send_begin uuid now written method params timeout c = (r, c1) ->
  table_ok c1.
Proof.
  intros Hok Hsend. unfold send_begin in Hsend.
  destruct (_control_ws c).
  - destruct (Protocol.request uuid now method params
                (Some (effective_timeout timeout c))) as [msg | err];
      [| now injection Hsend as _ <-].
    assert (Hgrown : forall k f,
              <[uuid := length (futures c)]> (_pending c) !! k = Some f ->
              (f < length (futures c ++ [FPending]))%nat).
    { intros k f Hk. rewrite length_app. cbn [length].
      apply lookup_insert_Some in Hk. destruct Hk as [[_ <-] | [_ Hk]]; [lia |].
      apply Hok in Hk. lia. }
    destruct written; injection Hsend as _ <-; exact Hgrown.
  - now injection Hsend as _ <-.
Qed.

Lemma table_ok_listen_step (i : incoming) (c c' : DeviceClient) :
  table_ok c -> listen_control_step i c = Return c' -> table_ok c'.
Proof.
  intros Hok Hstep. unfold listen_control_step in Hstep.
  destruct (Protocol.from_json (in_uuid i) (in_now i) (in_frame i)) as [msg | e];
    [| discriminate Hstep].
  cbn [bind] in Hstep.
  destruct (Protocol.value_is_str (Protocol.type msg) "response").
  2:{ now injection Hstep as <-. }
  destruct (Protocol.id msg) as [| b | z | f | s | l | d]; cbn in Hstep;
    try discriminate Hstep;
    try (injection Hstep as <-; now rewrite set_pending_same).
  assert (Hless : forall k f, delete s (_pending c) !! k = Some f ->
                    (f < length (futures c))%nat).
  { intros k f Hk. apply lookup_delete_Some in Hk. now apply (Hok k). }
  destruct (_pending c !! s) as [f |].
  - destruct (futures c !! f) as [[| | |] |];
      injection Hstep as <-; intros k g Hk; cbn in *;
      rewrite ?length_insert; now apply (Hless k).
  - injection Hstep as <-. exact Hless.
Qed.

Lemma table_ok_send_finish (repr_float : spec_float -> string)
    (py_repr : value -> string) (a : awaiting)
    (c c' : DeviceClient) (r : res Protocol.Message) :
  table_ok c -> send_finish repr_float py_repr a c = (r, c') -> table_ok c'.
Proof.
  intros Hok Hfin. unfold send_finish in Hfin.
  destruct (futures c !! aw_future a) as [[| response | e |] |].
  - injection Hfin as _ <-. intros k f Hk. cbn in *.
    rewrite length_insert. apply lookup_delete_Some in Hk. now apply (Hok k).
  - destruct (Protocol.is_success response); now injection Hfin as _ <-.
  - now injection Hfin as _ <-.
  - now injection Hfin as _ <-.
  - now injection Hfin as _ <-.
Qed.

(** The state of a client while the request [rid] waits on future [fut]
    and nothing but [out] has been written to the control socket. *)
Definition waiting (rid : string) (fut : nat) (out : list value) (c : DeviceClient) : Prop :=
  futures c !! fut = Some FPending
  /\ (forall k, _pending c !! k = Some fut -> k = rid)
  /\ control_out c = out.

Lemma send_begin_waiting (uuid : string) (now : Z) (method : string)
    (params : value) (timeout : option spec_float) (c c1 : DeviceClient)
    (a : awaiting) :
  table_ok c ->
  send_begin uuid now (Return tt) method params timeout c = (Return a, c1) ->
  aw_id a = uuid
  /\ exists req,
       Protocol.request uuid now method params (Some (aw_timeout a)) = Return req
       /\ waiting uuid (aw_future a) (control_out c ++ [Protocol.to_json req]) c1.
Proof.
  intros Hok Hsend. unfold send_begin in Hsend.
  destruct (_control_ws c); [| discriminate Hsend].
  destruct (Protocol.request uuid now method params
              (Some (effective_timeout timeout c))) as [msg | err] eqn:Hreq;
    [| discriminate Hsend].
  injection Hsend as <- <-. cbn [aw_id aw_future aw_timeout].
  split; [reflexivity |]. exists msg. split; [exact Hreq |].
  unfold waiting. cbn. split; [| split].
  - rewrite lookup_app_r by lia. now rewrite Nat.sub_diag.
  - intros k Hk. destruct (decide (uuid = k)) as [-> | Hne]; [reflexivity |].
    rewrite lookup_insert_ne in Hk by assumption.
    apply Hok in Hk. lia.
  - reflexivity.
Qed.

Lemma listen_step_waiting (rid : string) (fut : nat) (out : list value)
    (i : incoming) (c c' : DeviceClient) :
  waiting rid fut out c ->
  ~ is_response_for rid i ->
  listen_control_step i c = Return c' ->
  waiting rid fut out c'.
Proof.
  intros (Hfut & Honly & Hout) Hnot Hstep. unfold listen_control_step in Hstep.
  destruct (Protocol.from_json (in_uuid i) (in_now i) (in_frame i)) as [msg | e] eqn:Hdec;
    [| discriminate Hstep].
  cbn [bind] in Hstep.
  destruct (Protocol.value_is_str (Protocol.type msg) "response") eqn:Hty.
  2:{ injection Hstep as <-. now repeat split. }
  apply value_is_str_true in Hty.
  destruct (Protocol.id msg) as [| b | z | f | s | l | d] eqn:Hid; cbn in Hstep;
    try discriminate Hstep;
    try (injection Hstep as <-; rewrite set_pending_same; now repeat split).
  assert (Hkeep : forall k, delete s (_pending c) !! k = Some fut -> k = rid).
  { intros k Hk. apply lookup_delete_Some in Hk. apply Honly, Hk. }
  destruct (_pending c !! s) as [f |] eqn:Hs.
  - assert (Hne : f <> fut).
    { intros ->. apply Hnot. exists msg. repeat split; trivial.
      now rewrite (Honly s Hs) in Hid. }
    destruct (futures c !! f) as [[| | |] |] eqn:Hf;
      injection Hstep as <-; cbn; repeat split; trivial.
    cbn. now rewrite list_lookup_insert_ne.
  - injection Hstep as <-. now repeat split.
Qed.

Lemma listen_waiting (rid : string) (fut : nat) (out : list value)
    (frames : list incoming) :
  forall c c',
    waiting rid fut out c ->
    (forall i, In i frames -> ~ is_response_for rid i) ->
    listen_control frames c = Return c' ->
    waiting rid fut out c'.
Proof.
  induction frames as [| i rest IH]; intros c c' Hw Hnone Hrun; cbn in Hrun.
  - now injection Hrun as <-.
  - destruct (listen_control_step i c) as [c1 |] eqn:Hstep; [| discriminate Hrun].
    cbn [bind] in Hrun.
    apply (IH c1 c'); trivial.
    + apply (listen_step_waiting rid fut out i c c1); trivial.
      apply Hnone. now left.
    + intros j Hj. apply Hnone. now right.
Qed.

(** A response whose id has no slot in the table changes nothing. *)
Lemma response_without_slot (rid : string) (late : incoming) (c : DeviceClient) :
  _pending c !! rid = None ->
  is_response_for rid late ->
  listen_control_step late c = Return c.
Proof.
  intros Hgone (msg & Hdec & Hty & Hmid).
  unfold listen_control_step. rewrite Hdec. cbn [bind].
  rewrite Hty, value_is_str_refl, Hmid. cbn [pop_pending bind].
  rewrite Hgone, (delete_id _ _ Hgone).
  now rewrite set_pending_same.
Qed.

(** C6: a request whose deadline passes before any response carrying its
    id has been handled ends with a timeout error; its slot is removed from
    the pending table; the only frame written to the control channel since
    the request began is the request itself, which is not a cancel frame;
    and a response for that id handled afterwards leaves the client exactly
    as it was: no future is resolved and no subscriber is called. *)
Theorem send_timeout :
  forall (repr_float : spec_float -> string) (py_repr : value -> string)
         (uuid : string) (now : Z) (method : string)
         (params : value) (timeout : option spec_float) (frames : list incoming)
         (c c1 c2 : DeviceClient) (a : awaiting),
    table_ok c ->
    send_begin uuid now (Return tt) method params timeout c = (Return a, c1) ->
    (forall i, In i frames -> ~ is_response_for (aw_id a) i) ->
    listen_control frames c1 = Return c2 ->
    exists msg c3 req,
      send_finish repr_float py_repr a c2 = (Raise (TimeoutError msg), c3)
      /\ _pending c3 !! aw_id a = None
      /\ control_out c3 = control_out c ++ [req]
      /\ is_cancel_frame req = false
      /\ (forall late, is_response_for (aw_id a) late ->
            listen_control_step late c3 = Return c3).
Proof.
  intros repr_float py_repr uuid now method params timeout frames c c1 c2 a
         Hok Hsend Hnone Hrun.
  destruct (send_begin_waiting uuid now method params timeout c c1 a Hok Hsend)
    as (Hid & req & Hreq & Hw1).
  rewrite Hid in *.
  pose proof (listen_waiting uuid (aw_future a) _ frames c1 c2 Hw1 Hnone Hrun)
    as (Hfut & Honly & Hout).
  unfold send_finish. rewrite Hfut, Hid.
  eexists _, _, (Protocol.to_json req). split; [reflexivity |].
  split; [| split; [| split]].
  - cbn. apply lookup_delete_eq.
  - cbn. exact Hout.
  - unfold Protocol.request in Hreq.
    destruct (Protocol.request_metadata (Some (aw_timeout a))) as [metadata |];
      [| discriminate Hreq].
    injection Hreq as <-. reflexivity.
  - intros late Hlate. apply (response_without_slot uuid); [| exact Hlate].
    cbn. apply lookup_delete_eq.
Qed.

(** A connected client, a request, an unrelated response and an event-like
    frame arriving before the deadline, and the late reply. *)
Definition connected_client : DeviceClient :=
  mkClient "A" "127.0.0.1" (mkDeviceConfig 28900 28901 28902
            (float_of_int 10) (float_of_int 30) (float_of_int 5))
    (Some (mkEndpoint "127.0.0.1" 28900 "/control"))
    (Some (mkEndpoint "127.0.0.1" 28902 "/events"))
    ∅ [7%nat] true true [] [] [].

Definition response_frame (rid : string) : value :=
  VDict [("id", VStr rid); ("type", VStr "response");
         ("result", VDict [("ok", VBool true)]); ("timestamp", VInt 1700000000500)].

Definition early_frames : list incoming :=
  [mkIncoming "u1" 1700000000100 (response_frame "someone-else");
   mkIncoming "u2" 1700000000200 (VDict [("type", VStr "event")])].

Definition tenth : spec_float := float_div (float_of_int 1) (float_of_int 10).
Definition repr_tenth (f : spec_float) : string := "0.1".
Definition repr_json (v : value) : string := "<json>".

Lemma send_timeout_witness :
  exists a c1 c2 msg c3 req,
    send_begin "r-1" 1700000000000 (Return tt) "device.info" VNone (Some tenth)
      connected_client = (Return a, c1)
    /\ listen_control early_frames c1 = Return c2
    /\ send_finish repr_tenth repr_json a c2 = (Raise (TimeoutError msg), c3)
    /\ _pending c3 !! "r-1" = None
    /\ control_out c3 = [req]
    /\ is_cancel_frame req = false
    /\ listen_control_step (mkIncoming "u3" 1700000000500 (response_frame "r-1")) c3
       = Return c3.
Proof.
  destruct (send_begin "r-1" 1700000000000 (Return tt) "device.info" VNone
              (Some tenth) connected_client) as [ra c1] eqn:Hsend.
  destruct ra as [a | e]; [| vm_compute in Hsend; discriminate Hsend].
  assert (Hid : aw_id a = "r-1").
  { vm_compute in Hsend. now injection Hsend as <- _. }
  destruct (listen_control early_frames c1) as [c2 | e] eqn:Hrun.
  2:{ vm_compute in Hsend. injection Hsend as _ <-. vm_compute in Hrun.
      discriminate Hrun. }
  assert (Hok : table_ok connected_client).
  { intros k f Hk. cbn in Hk. now rewrite lookup_empty in Hk. }
  assert (Hnone : forall i, In i early_frames -> ~ is_response_for (aw_id a) i).
  { rewrite Hid. intros i [<- | [<- | []]] (m & Hdec & Hty & Hmid).
    - injection Hdec as <-. discriminate Hmid.
    - injection Hdec as <-. discriminate Hty. }
  destruct (send_timeout repr_tenth repr_json "r-1" 1700000000000 "device.info" VNone
              (Some tenth) early_frames connected_client c1 c2 a
              Hok Hsend Hnone Hrun)
    as (msg & c3 & req & Hfin & Hgone & Hout & Hnc & Hlate).
  exists a, c1, c2, msg, c3, req.
  rewrite Hid in Hgone.
  repeat split; trivial.
  apply Hlate. rewrite Hid.
  eexists. split; [reflexivity |]. split; reflexivity.
Defined.

End Client.


(** ** device/adb.py and device/manager.py: forwards and the client pool

    The ADB binary, the host's table of forward rules and the device agents
    are outside the program.  [Env] says how they answer; [Host] is the
    host-side state they keep: the forward rules installed so far and the
    ADB commands run so far.  A [forward] that exits with code 0 has
    installed its rule. *)

Module Manager.
Import Py Config.

Record AdbDevice : Type := mkAdbDevice {
  adb_serial : string;
  adb_state : string;
  adb_model : string;
  adb_product : string
}.

Record Env : Type := mkEnv {
  devices_listing : list AdbDevice;
  forward_ok : string -> Z -> Z -> bool;
  forward_remove_ok : string -> Z -> bool;
  dial : Client.endpoint -> res unit
}.

Inductive adb_call : Type :=
  | AdbDevices
  | AdbForward (serial : string) (local_port remote_port : Z) (ok : bool)
  | AdbForwardRemove (serial : string) (local_port : Z) (ok : bool).

Record Host : Type := mkHost {
  forwards : list (string * Z * Z);
  adb_calls : list adb_call
}.

(** [AdbClient.devices] *)
Definition adb_devices (env : Env) (h : Host) : list AdbDevice * Host :=
  (devices_listing env, mkHost (forwards h) (adb_calls h ++ [AdbDevices])).

(** [AdbClient.forward] *)
Definition adb_forward (env : Env) (serial : string) (local_port remote_port : Z)
    (h : Host) : bool * Host :=
  let ok := forward_ok env serial local_port remote_port in
  (ok,
   mkHost
     (if ok then forwards h ++ [(serial, local_port, remote_port)] else forwards h)
     (adb_calls h ++ [AdbForward serial local_port remote_port ok])).

Definition same_rule (serial : string) (local_port : Z) (r : string * Z * Z) : bool :=
  String.eqb (fst (fst r)) serial && (snd (fst r) =? local_port).

(** [AdbClient.forward_remove] *)
Definition adb_forward_remove (env : Env) (serial : string) (local_port : Z)
    (h : Host) : bool * Host :=
  let ok := forward_remove_ok env serial local_port in
  (ok,
   mkHost
     (if ok then List.filter (fun r => negb (same_rule serial local_port r)) (forwards h)
      else forwards h)
     (adb_calls h ++ [AdbForwardRemove serial local_port ok])).

Record DeviceManager : Type := mkManager {
  config : DeviceConfig;
  _clients : gmap string Client.DeviceClient;
  _port_map : gmap string Z;
  _next_local_port : Z
}.

(** [DeviceManager(config)] *)
Definition DeviceManager_new (config : DeviceConfig) : DeviceManager :=
  mkManager config ∅ ∅ 28900.

(** [discover]: the devices whose state is ["device"]. *)
Definition discover (env : Env) (h : Host) : list AdbDevice * Host :=
  let '(devices, h) := adb_devices env h in
  (List.filter (fun d => String.eqb (adb_state d) "device") devices, h).

(** The loop of [connect] over the three remote ports, from [offset] on. *)
Fixpoint forward_loop (env : Env) (serial : string) (local_port offset : Z)
    (remote_ports : list Z) (h : Host) : res unit * Host :=
  match remote_ports with
  | [] => (Return tt, h)
  | remote_port :: rest =>
      let '(ok, h) := adb_forward env serial (local_port + offset) remote_port h in
      if ok then forward_loop env serial local_port (offset + 1) rest h
      else (Raise (DeviceOfflineError
              ("Failed to set up port forwarding for " +:+ serial)), h)
  end.

(** [DeviceManager.connect] *)
Definition connect (env : Env) (serial : string) (m : DeviceManager) (h : Host)
    : res Client.DeviceClient * DeviceManager * Host :=
  let reused :=
    match _clients m !! serial with
    | Some c => if Client.is_connected c then Some c else None
    | None => None
    end in
  match reused with
  | Some c => (Return c, m, h)
  | None =>
      let local_port := _next_local_port m in
      let m := mkManager (config m) (_clients m) (_port_map m) (_next_local_port m + 3) in
      match forward_loop env serial local_port 0
              [control_port (config m); binary_port (config m); event_port (config m)] h
      with
      | (Raise e, h) => (Raise e, m, h)
      | (Return _, h) =>
          let client_config :=
            mkDeviceConfig local_port (local_port + 1) (local_port + 2)
              (connect_timeout (config m)) (command_timeout (config m))
              (heartbeat_interval Config.default) in
          let client := Client.DeviceClient_new serial "127.0.0.1" client_config in
          match Client.connect (dial env) client with
          | (Raise e, _) => (Raise e, m, h)
          | (Return _, client) =>
              (Return client,
               mkManager (config m) (<[serial := client]> (_clients m))
                 (<[serial := local_port]> (_port_map m)) (_next_local_port m),
               h)
          end
      end
  end.

(** The loop of [connect_all]: a device whose connection fails is skipped. *)
Fixpoint connect_each (env : Env) (devices : list AdbDevice)
    (clients : list Client.DeviceClient) (m : DeviceManager) (h : Host)
    : res (list Client.DeviceClient) * DeviceManager * Host :=
  match devices with
  | [] => (Return clients, m, h)
  | device :: rest =>
      match connect env (adb_serial device) m h with
      | (Return client, m, h) => connect_each env rest (clients ++ [client]) m h
      | (Raise e, m, h) =>
          if is_Exception e then connect_each env rest clients m h
          else (Raise e, m, h)
      end
  end.

Definition connect_all (env : Env) (m : DeviceManager) (h : Host)
    : res (list Client.DeviceClient) * DeviceManager * Host :=
  let '(devices, h) := discover env h in
  connect_each env devices [] m h.

(** The loop of [disconnect] over the three local ports. *)
Fixpoint remove_loop (env : Env) (serial : string) (local_port : Z)
    (offsets : list Z) (h : Host) : Host :=
  match offsets with
  | [] => h
  | offset :: rest =>
      remove_loop env serial local_port rest
        (snd (adb_forward_remove env serial (local_port + offset) h))
  end.

(** [DeviceManager.disconnect]; a port 0 in the map is falsy. *)
Definition disconnect (env : Env) (serial : string) (m : DeviceManager) (h : Host)
    : DeviceManager * Host :=
  let clients :=
    match _clients m !! serial with
    | Some _ => delete serial (_clients m)
    | None => _clients m
    end in
  let h :=
    match _port_map m !! serial with
    | Some local_port =>
        if local_port =? 0 then h else remove_loop env serial local_port [0; 1; 2] h
    | None => h
    end in
  (mkManager (config m) clients (delete serial (_port_map m)) (_next_local_port m), h).

Definition get_client (serial : string) (m : DeviceManager) : option Client.DeviceClient :=
  _clients m !! serial.

(** A forward rule of this device is in place on the host. *)
Definition forward_installed (serial : string) (local_port : Z) (h : Host) : bool :=
  existsb (same_rule serial local_port) (forwards h).

(** *** A forward that fails *)

(** The remote ports of the three logical channels, in the order [connect]
    forwards them. *)
Definition channel_ports (cfg : DeviceConfig) : list Z :=
  [control_port cfg; binary_port cfg; event_port cfg].

(** The rules of the first [k] channels of a port block. *)
Definition rules_before (serial : string) (local_port : Z) (cfg : DeviceConfig)
    (k : nat) : list (string * Z * Z) :=
  firstn k
    [(serial, local_port + 0, control_port cfg);
     (serial, local_port + 1, binary_port cfg);
     (serial, local_port + 2, event_port cfg)].

Definition not_connected (serial : string) (m : DeviceManager) : Prop :=
  forall c, _clients m !! serial = Some c -> Client.is_connected c = false.

Lemma connect_not_reused (env : Env) (serial : string) (m : DeviceManager) (h : Host) :
  not_connected serial m ->
  connect env serial m h
  = (let local_port := _next_local_port m in
     let m := mkManager (config m) (_clients m) (_port_map m) (_next_local_port m + 3) in
     match forward_loop env serial local_port 0 (channel_ports (config m)) h with
     | (Raise e, h) => (Raise e, m, h)
     | (Return _, h) =>
         let client_config :=
           mkDeviceConfig local_port (local_port + 1) (local_port + 2)
             (connect_timeout (config m)) (command_timeout (config m))
             (heartbeat_interval Config.default) in
         let client := Client.DeviceClient_new serial "127.0.0.1" client_config in
         match Client.connect (dial env) client with
         | (Raise e, _) => (Raise e, m, h)
         | (Return _, client) =>
             (Return client,
              mkManager (config m) (<[serial := client]> (_clients m))
                (<[serial := local_port]> (_port_map m)) (_next_local_port m),
              h)
         end
     end).
Proof.
  intros Hnc. unfold connect.
  destruct (_clients m !! serial) as [c |] eqn:Hc; [| reflexivity].
  now rewrite (Hnc c Hc).
Qed.

(** C5, as stated, fails: the control forward succeeds, the binary
    forward fails, [connect] signals device-offline, and the control forward
    installed by this very call is still in place; the port counter is not
    taken back either. *)
Lemma connect_leaves_forward_behind :
  let env := mkEnv [] (fun _ _ remote => remote =? 18900) (fun _ _ => true)
               (fun _ => Return tt) in
  let m := DeviceManager_new Config.default in
  let h := mkHost [] [] in
  exists msg m' h',
    connect env "A" m h = (Raise (DeviceOfflineError msg), m', h')
    /\ forward_installed "A" 28900 h' = true
    /\ forwards h' = [("A", 28900, 18900)]
    /\ _next_local_port m' = 28903.
Proof.
  cbv zeta. eexists _, _, _. split; [reflexivity |]. repeat split.
Qed.

(** C5 (amended): when the forward of channel number [k] fails, after
    those of the channels before it succeeded, [connect] signals
    device-offline at once; the channels after it are not attempted, the
    forwards installed for the channels before it stay installed, the port
    counter stays advanced by 3 and the client and port maps are as
    before. *)
Theorem connect_forward_failure :
  forall (env : Env) (serial : string) (m : DeviceManager) (h : Host) (k : nat),
    not_connected serial m ->
    (k < 3)%nat ->
    (forall j r, (j < k)%nat ->
        nth_error (rules_before serial (_next_local_port m) (config m) 3) j = Some r ->
        forward_ok env (fst (fst r)) (snd (fst r)) (snd r) = true) ->
    (forall r,
        nth_error (rules_before serial (_next_local_port m) (config m) 3) k = Some r ->
        forward_ok env (fst (fst r)) (snd (fst r)) (snd r) = false) ->
    exists h',
      connect env serial m h
      = (Raise (DeviceOfflineError ("Failed to set up port forwarding for " +:+ serial)),
         mkManager (config m) (_clients m) (_port_map m) (_next_local_port m + 3),
         h')
      /\ forwards h'
         = forwards h ++ rules_before serial (_next_local_port m) (config m) k
      /\ length (adb_calls h') = (length (adb_calls h) + S k)%nat.
Proof.
  intros env serial m h k Hnc Hk Hbefore Hfail.
  rewrite connect_not_reused by assumption.
  cbv zeta. unfold channel_ports. cbn [config forward_loop adb_forward].
  change (0 + 1 + 1) with 2. change (0 + 1) with 1.
  destruct k as [| [| [| k]]]; [| | | lia].
  - pose proof (Hfail _ eq_refl) as H0. cbn [fst snd] in H0.
    rewrite H0. eexists. split; [reflexivity |].
    cbn. rewrite app_nil_r, length_app. split; [reflexivity | cbn; lia].
  - pose proof (Hbefore 0%nat _ ltac:(lia) eq_refl) as H0. cbn [fst snd] in H0.
    pose proof (Hfail _ eq_refl) as H1. cbn [fst snd] in H1.
    rewrite H0, H1. eexists. split; [reflexivity |].
    cbn. rewrite !length_app. split; [reflexivity | cbn; lia].
  - pose proof (Hbefore 0%nat _ ltac:(lia) eq_refl) as H0. cbn [fst snd] in H0.
    pose proof (Hbefore 1%nat _ ltac:(lia) eq_refl) as H1. cbn [fst snd] in H1.
    pose proof (Hfail _ eq_refl) as H2. cbn [fst snd] in H2.
    rewrite H0, H1, H2. eexists. split; [reflexivity |].
    cbn. rewrite <- app_assoc, !length_app. split; [reflexivity | cbn; lia].
Qed.

Definition binary_blocked : Env :=
  mkEnv [] (fun _ _ remote => remote =? 18900) (fun _ _ => true) (fun _ => Return tt).

Lemma connect_forward_failure_witness :
  exists h',
    connect binary_blocked "A" (DeviceManager_new Config.default) (mkHost [] [])
    = (Raise (DeviceOfflineError "Failed to set up port forwarding for A"),
       mkManager Config.default ∅ ∅ 28903, h')
    /\ forwards h' = [("A", 28900, 18900)]
    /\ length (adb_calls h') = 2%nat.
Proof.
  apply (connect_forward_failure binary_blocked "A"
           (DeviceManager_new Config.default) (mkHost [] []) 1%nat).
  - intros c Hc. cbn in Hc. now rewrite lookup_empty in Hc.
  - lia.
  - intros j r Hj Hr. destruct j as [| j]; [| lia].
    cbn in Hr. injection Hr as <-. reflexivity.
  - intros r Hr. cbn in Hr. injection Hr as <-. reflexivity.
Defined.

End Manager.


(** ** scheduler/executor.py

    The device workers are asyncio tasks gathered together.  The event loop
    runs one task at a time and may switch to another task wherever the
    running one awaits.  A coroutine is modelled by the code it runs between
    two awaits, each piece acting atomically on the state the tasks share;
    which task the loop resumes next is an input of [execute], the
    [schedule].  The two readings of [time.monotonic()] are inputs too. *)

Module Executor.
Import Py Types Events.

(** *** Coroutines *)

(** [Await next k] is a coroutine suspended at an await: when the loop
    resumes it in state [s], it brings the state to [next s] and goes on as
    [k s], up to its next await. *)
Inductive coro (S A : Type) : Type :=
  | Done (a : A)
  | Await (next : S -> S) (k : S -> coro S A).
Arguments Done {S A} a.
Arguments Await {S A} next k.

Fixpoint cbind {S A B : Type} (c : coro S A) (f : A -> coro S B) : coro S B :=
  match c with
  | Done a => f a
  | Await next k => Await next (fun s => cbind (k s) f)
  end.

(** A coroutine that acts on one component of the state. *)
Fixpoint lift {S T A : Type} (get : T -> S) (set : S -> T -> T) (c : coro S A)
    : coro T A :=
  match c with
  | Done a => Done a
  | Await next k =>
      Await (fun t => set (next (get t)) t) (fun t => lift get set (k (get t)))
  end.

(** The coroutine run to its end with no other task in between. *)
Fixpoint alone {S A : Type} (c : coro S A) (s : S) : A * S :=
  match c with
  | Done a => (a, s)
  | Await next k => alone (k s) (next s)
  end.

(** A test function that awaits nothing of its own: one piece. *)
Definition atomic {W : Type} (f : handler W) (serial : string) : coro W Behaviour :=
  Await (fun w => snd (fn_call f w)) (fun w => Done (fst (fn_call f w))).

Record ExecutionResult (W : Type) : Type := mkExecutionResult {
  results : list TestResult;
  duration_ms : value;
  device_count : nat;
  plan : option (Planner.ExecutionPlan W);
  error : option string
}.
Arguments mkExecutionResult {W} _ _ _ _ _.
Arguments results {W} _.
Arguments duration_ms {W} _.
Arguments device_count {W} _.
Arguments plan {W} _.
Arguments error {W} _.

Definition failed {W : Type} (r : ExecutionResult W) : Z :=
  Runner.count_status FAILED (results r).

Definition is_success {W : Type} (r : ExecutionResult W) : bool :=
  (failed r =? 0) && match error r with None => true | Some _ => false end.

Section WithWorld.
Context {W : Type}.
Variable repr_float : Q -> string.
(** [body f serial] is the coroutine [f(Device(client))] for the client of
    the device [serial], under [wait_for]: the pieces of the test function
    between its awaits, ending with what the call did. *)
Variable body : handler W -> string -> coro W Behaviour.

(** What an execution acts on: the device manager it was built with, the
    host, the world of the test functions and the event bus. *)
Record State : Type := mkState {
  device_manager : Manager.DeviceManager;
  host : Manager.Host;
  handlers_world : W;
  event_bus : list Event
}.

(** What the workers share while they run. *)
Record shared : Type := mkShared {
  sh_world : W;
  sh_bus : list Event
}.

(** [await self.event_bus.emit(event)] *)
Definition emit_coro (e : Event) : coro shared unit :=
  Await (fun s => mkShared (sh_world s) (emit (sh_bus s) e)) (fun _ => Done tt).

(** [await asyncio.wait_for(test.func(device), timeout=test.timeout)] *)
Definition call_coro (test : TestCaseInfo W) (serial : string) : coro shared Behaviour :=
  lift sh_world (fun w s => mkShared w (sh_bus s)) (body (func test) serial).

(** *** The runner's coroutines

    [TestRunner._run_single] and [TestRunner.run] once more, this time cut
    at their awaits. *)

Fixpoint attempts_coro (test : TestCaseInfo W) (serial : string) (n : nat)
    (last_result : option TestResult) : coro shared (res (option TestResult)) :=
  match n with
  | O => Done (Return last_result)
  | S n' =>
      cbind (call_coro test serial) (fun b =>
        match Runner.attempt_result repr_float test serial b with
        | Raise e => Done (Raise e)
        | Return r =>
            if TestStatus_eqb (status r) PASSED
            then Done (Return (Some r))
            else attempts_coro test serial n' (Some r)
        end)
  end.

Definition run_single_coro (test : TestCaseInfo W) (serial : string)
    : coro shared (res TestResult) :=
  cbind (attempts_coro test serial (Z.to_nat (retry test + 1)) None) (fun r =>
    Done (bind r (fun last_result =>
      Return (match last_result with
              | Some r => r
              | None => TestResult_new (tc_name test) ERROR serial
                          (Some "Unknown error")
              end)))).

Fixpoint run_loop_coro (serial : string) (i : nat) (tests : list (TestCaseInfo W))
    (results : list TestResult) : coro shared (res (list TestResult)) :=
  match tests with
  | [] => Done (Return results)
  | test :: rest =>
      cbind (emit_coro (mkEvent "test.started" "runner"
               [("name", DStr (tc_name test)); ("index", DInt (Z.of_nat i))])) (fun _ =>
      cbind (run_single_coro test serial) (fun r =>
        match r with
        | Raise e => Done (Raise e)
        | Return result =>
            cbind (emit_coro (mkEvent "test.completed" "runner"
                     [("name", DStr (tc_name test));
                      ("status", DStr (status_value (status result)));
                      ("duration", DNum (Types.duration_ms result))])) (fun _ =>
            run_loop_coro serial (S i) rest (results ++ [result]))
        end))
  end.

Definition run_coro (tests : list (TestCaseInfo W)) (serial : string)
    : coro shared (res (list TestResult)) :=
  cbind (emit_coro (mkEvent "run.started" "runner"
           [("total", DInt (Z.of_nat (length tests))); ("device", DStr serial)])) (fun _ =>
  cbind (run_loop_coro serial 0 tests []) (fun r =>
    match r with
    | Raise e => Done (Raise e)
    | Return results =>
        cbind (emit_coro (mkEvent "run.completed" "runner"
                 [("total", DInt (Z.of_nat (length results)));
                  ("passed", DInt (Runner.count_status PASSED results));
                  ("failed", DInt (Runner.count_status FAILED results));
                  ("error", DInt (Runner.count_status ERROR results))])) (fun _ =>
        Done (Return results))
    end)).

(** *** The workers *)

(** The body of [_run_device_worker], inside [async with semaphore]. *)
Definition _run_device_worker (serial : string) (tests : list (TestCaseInfo W))
    : coro shared (res (list TestResult)) :=
  cbind (run_coro tests serial) (fun r =>
    match r with
    | Return results => Done (Return results)
    | Raise e =>
        if is_Exception e
        then Done (Return (List.map
                     (fun t => TestResult_new (tc_name t) ERROR serial
                                 (Some ("Worker error: " +:+ str e)))
                     tests))
        else Done (Raise e)
    end).

(** The loop over [plan.assignments.items()] that builds [tasks]. *)
Fixpoint make_tasks (assignments : list (string * list (TestCaseInfo W)))
    (m : Manager.DeviceManager) : list (string * list (TestCaseInfo W)) :=
  match assignments with
  | [] => []
  | (serial, test_list) :: rest =>
      match test_list with
      | [] => make_tasks rest m
      | _ :: _ =>
          match Manager.get_client serial m with
          | Some client => (Client.serial client, test_list) :: make_tasks rest m
          | None => make_tasks rest m
          end
      end
  end.

(** *** The event loop under [gather] *)

(** A worker task: waiting to enter [async with semaphore], inside it, or
    done with its result. *)
Inductive task : Type :=
  | Acquiring (c : coro shared (res (list TestResult)))
  | Running (c : coro shared (res (list TestResult)))
  | Finished (r : res (list TestResult)).

Record loop_state : Type := mkLoop {
  permits : Z;
  tasks : list task;
  state : shared
}.

(** The loop resumes task [i].  A task at the semaphore enters when a
    permit is free and stays where it is otherwise; a task inside runs its
    next piece; a task whose coroutine has ended leaves the semaphore, which
    frees its permit. *)
Definition resume (i : nat) (l : loop_state) : loop_state :=
  match tasks l !! i with
  | Some (Acquiring c) =>
      if 0 <? permits l
      then mkLoop (permits l - 1) (<[i := Running c]> (tasks l)) (state l)
      else l
  | Some (Running (Await next k)) =>
      mkLoop (permits l) (<[i := Running (k (state l))]> (tasks l)) (next (state l))
  | Some (Running (Done r)) =>
      mkLoop (permits l + 1) (<[i := Finished r]> (tasks l)) (state l)
  | Some (Finished _) | None => l
  end.

Definition run_schedule (schedule : list nat) (l : loop_state) : loop_state :=
  fold_left (fun l i => resume i l) schedule l.

(** [all_results], once every task is done. *)
Fixpoint all_results (ts : list task) : option (list (res (list TestResult))) :=
  match ts with
  | [] => Some []
  | Finished r :: rest =>
      match all_results rest with
      | Some rs => Some (r :: rs)
      | None => None
      end
  | _ :: _ => None
  end.

(** [await asyncio.gather( *tasks, return_exceptions=True)] under the given
    schedule: the results in the order of the tasks and the state the
    workers leave; [None] when the schedule ends before the workers do. *)
Definition gather (max_workers : Z) (schedule : list nat)
    (workers : list (string * list (TestCaseInfo W))) (s : shared)
    : option (list (res (list TestResult)) * shared) :=
  let l :=
    run_schedule schedule
      (mkLoop max_workers
         (List.map (fun t => Acquiring (_run_device_worker (fst t) (snd t))) workers)
         s) in
  match all_results (tasks l) with
  | Some rs => Some (rs, state l)
  | None => None
  end.

(** The loop over [all_results]: a worker's list extends the results, an
    exception is dropped. *)
Fixpoint extend_results (all : list (res (list TestResult)))
    (results : list TestResult) : list TestResult :=
  match all with
  | [] => results
  | Return rs :: rest => extend_results rest (results ++ rs)
  | Raise _ :: rest => extend_results rest results
  end.

(** [time.monotonic() - self._start_time) * 1000] *)
Definition elapsed_ms (t_start t_end : spec_float) : spec_float :=
  float_mul (float_sub t_end t_start) (float_of_int 1000).

(** [ParallelExecutor.execute], for an executor built with [max_workers].
    [asyncio.Semaphore] refuses a negative value. *)
Definition execute (env : Manager.Env) (max_workers : Z) (t_start t_end : spec_float)
    (schedule : list nat) (tests : list (TestCaseInfo W)) (strategy : string)
    (st : State) : option (res (ExecutionResult W) * State) :=
  match Manager.connect_all env (device_manager st) (host st) with
  | (Raise e, m, h) => Some (Raise e, mkState m h (handlers_world st) (event_bus st))
  | (Return [], m, h) =>
      Some (Return (mkExecutionResult [] (VInt 0) 0 None (Some "No devices available")),
            mkState m h (handlers_world st) (event_bus st))
  | (Return (c :: cs), m, h) =>
      let clients := c :: cs in
      let device_serials := List.map Client.serial clients in
      match Planner.plan tests device_serials strategy with
      | Raise e => Some (Raise e, mkState m h (handlers_world st) (event_bus st))
      | Return plan =>
          let bus := emit (event_bus st) (mkEvent "execution.started" "executor"
                       [("total_tests", DInt (Z.of_nat (Planner.total_tests plan)));
                        ("device_count", DInt (Z.of_nat (Planner.device_count plan)));
                        ("strategy", DStr strategy)]) in
          if max_workers <? 0
          then Some (Raise (OtherException "ValueError"
                              "Semaphore initial value must be >= 0"),
                     mkState m h (handlers_world st) bus)
          else
            let finish (results : list TestResult) (s : shared) :=
              let duration := elapsed_ms t_start t_end in
              let bus := emit (sh_bus s) (mkEvent "execution.completed" "executor"
                           [("total", DInt (Z.of_nat (length results)));
                            ("passed", DInt (Runner.count_status PASSED results));
                            ("failed", DInt (Runner.count_status FAILED results));
                            ("duration_ms", DNum duration)]) in
              Some (Return (mkExecutionResult results (VFloat duration)
                              (length clients) (Some plan) None),
                    mkState m h (sh_world s) bus) in
            match make_tasks (Planner.assignments plan) m with
            | [] => finish [] (mkShared (handlers_world st) bus)
            | t :: ts =>
                match gather max_workers schedule (t :: ts)
                        (mkShared (handlers_world st) bus) with
                | Some (all, s) => finish (extend_results all []) s
                | None => None
                end
            end
      end
  end.
End WithWorld.

Arguments State W : clear implicits.
Arguments shared W : clear implicits.
Arguments task W : clear implicits.
Arguments loop_state W : clear implicits.

(** *** A worker left alone is the runner *)

Section Alone.
Context {W : Type}.
Variable repr_float : Q -> string.
Variable body : handler W -> string -> coro W Behaviour.
Variable serial : string.

(** The pieces of every test function, run without interruption, do what
    the function does as a whole. *)
Hypothesis body_alone : forall f w, alone (body f serial) w = fn_call f w.

Lemma alone_cbind {S A B : Type} (c : coro S A) (f : A -> coro S B) (s : S) :
  alone (cbind c f) s = let '(a, s') := alone c s in alone (f a) s'.
Proof.
  revert s. induction c as [a | next k IH]; intros s; cbn; [reflexivity |].
  apply IH.
Qed.

Lemma alone_lift {S T A : Type} (get : T -> S) (set : S -> T -> T) (c : coro S A) :
  (forall s t, get (set s t) = s) ->
  (forall s s' t, set s (set s' t) = set s t) ->
  (forall t, set (get t) t = t) ->
  forall t, alone (lift get set c) t
            = let '(a, s) := alone c (get t) in (a, set s t).
Proof.
  intros Hgs Hss Hsg. induction c as [a | next k IH]; intros t; cbn.
  - now rewrite Hsg.
  - rewrite IH, Hgs. destruct (alone (k (get t)) (next (get t))) as [a s].
    now rewrite Hss.
Qed.

Lemma call_coro_alone (test : TestCaseInfo W) (w : W) (bus : list Event) :
  alone (call_coro body test serial) (mkShared w bus)
  = let '(b, w') := fn_call (func test) w in (b, mkShared w' bus).
Proof.
  unfold call_coro. rewrite alone_lift.
  - cbn. rewrite body_alone. now destruct (fn_call (func test) w).
  - reflexivity.
  - reflexivity.
  - now intros [].
Qed.

Lemma attempts_coro_alone (test : TestCaseInfo W) (n : nat) :
  forall last w bus,
    alone (attempts_coro repr_float body test serial n last) (mkShared w bus)
    = let '(r, w', _) := Runner.attempts repr_float test serial n last w 0 in
      (r, mkShared w' bus).
Proof.
  induction n as [| n IH]; intros last w bus; [reflexivity |].
  cbn [attempts_coro]. rewrite alone_cbind, call_coro_alone.
  assert (Hcalls : forall m last w calls,
            let '(r, w', _) := Runner.attempts repr_float test serial m last w calls in
            (r, w') =
            (let '(r, w', _) := Runner.attempts repr_float test serial m last w 0 in
             (r, w'))).
  { clear. induction m as [| m IHm]; intros last w calls; [reflexivity |].
    cbn [Runner.attempts]. destruct (fn_call (func test) w) as [b w'].
    destruct (Runner.attempt_result repr_float test serial b) as [r | e];
      [| reflexivity].
    destruct (TestStatus_eqb (status r) PASSED); [reflexivity |].
    specialize (IHm (Some r) w').
    pose proof (IHm (S calls)) as H1. pose proof (IHm 1%nat) as H2.
    destruct (Runner.attempts repr_float test serial m (Some r) w' (S calls))
      as [[r1 w1] c1].
    destruct (Runner.attempts repr_float test serial m (Some r) w' 1)
      as [[r2 w2] c2].
    destruct (Runner.attempts repr_float test serial m (Some r) w' 0)
      as [[r3 w3] c3].
    congruence. }
  cbn [Runner.attempts]. destruct (fn_call (func test) w) as [b w'].
  destruct (Runner.attempt_result repr_float test serial b) as [r | e];
    [| reflexivity].
  destruct (TestStatus_eqb (status r) PASSED); [reflexivity |].
  rewrite IH. specialize (Hcalls n (Some r) w' 1%nat).
  destruct (Runner.attempts repr_float test serial n (Some r) w' 1) as [[r1 w1] c1].
  destruct (Runner.attempts repr_float test serial n (Some r) w' 0) as [[r2 w2] c2].
  now injection Hcalls as -> ->.
Qed.

Lemma run_single_coro_alone (test : TestCaseInfo W) (w : W) (bus : list Event) :
  alone (run_single_coro repr_float body test serial) (mkShared w bus)
  = (Runner.returned (Runner._run_single repr_float test serial w),
     mkShared (Runner.world (Runner._run_single repr_float test serial w)) bus).
Proof.
  unfold run_single_coro, Runner._run_single.
  rewrite alone_cbind, attempts_coro_alone.
  now destruct (Runner.attempts repr_float test serial _ None w 0) as [[r w'] calls].
Qed.

Lemma run_loop_coro_alone (total : nat) (tests : list (TestCaseInfo W)) :
  forall i results w bus,
    alone (run_loop_coro repr_float body serial i tests results) (mkShared w bus)
    = let '(r, w', bus') :=
        Runner.run_loop repr_float serial total i tests results w bus in
      (r, mkShared w' bus').
Proof.
  induction tests as [| test rest IH]; intros i results w bus; [reflexivity |].
  cbn [run_loop_coro Runner.run_loop].
  rewrite alone_cbind. cbn [emit_coro alone sh_world sh_bus].
  rewrite alone_cbind, run_single_coro_alone.
  destruct (Runner.returned (Runner._run_single repr_float test serial w))
    as [result | e]; [| reflexivity].
  rewrite alone_cbind. cbn [emit_coro alone sh_world sh_bus].
  apply IH.
Qed.

(** A worker's run that no other task interrupts is [TestRunner.run] as
    the runner's own embedding has it. *)
Lemma run_coro_alone (tests : list (TestCaseInfo W)) (w : W) (bus : list Event) :
  alone (run_coro repr_float body tests serial) (mkShared w bus)
  = let '(r, w', bus') := Runner.run repr_float tests serial w bus in
    (r, mkShared w' bus').
Proof.
  unfold run_coro, Runner.run.
  rewrite alone_cbind. cbn [emit_coro alone sh_world sh_bus].
  rewrite alone_cbind, (run_loop_coro_alone (length tests)).
  destruct (Runner.run_loop repr_float serial (length tests) 0 tests [] w _)
    as [[[results | e] w'] bus']; [| reflexivity].
  rewrite alone_cbind. reflexivity.
Qed.
End Alone.

(** *** An empty test list *)

Section EmptyTests.
Context {W : Type}.
Variable repr_float : Q -> string.
Variable body : handler W -> string -> coro W Behaviour.

Definition all_empty (a : list (string * list (TestCaseInfo W))) : Prop :=
  Forall (fun kv => snd kv = []) a.

Lemma dict_set_all_empty (k : string) (a : list (string * list (TestCaseInfo W))) :
  all_empty a -> all_empty (dict_set k [] a).
Proof.
  unfold all_empty. induction a as [| [k' v] a IH]; intros Ha; cbn.
  - now repeat constructor.
  - inversion Ha as [| ? ? Hv Hrest]; subst.
    destruct (String.eqb k k'); constructor; auto.
Qed.

Lemma fold_dict_set_all_empty (devices : list string) :
  forall a : list (string * list (TestCaseInfo W)),
    all_empty a ->
    all_empty (fold_left (fun acc d => dict_set d [] acc) devices a).
Proof.
  induction devices as [| d devices IH]; intros a Ha; cbn; [exact Ha |].
  apply IH. now apply dict_set_all_empty.
Qed.

(** Whatever the strategy, the plan for no tests gives every device an
    empty list and leaves nothing unassigned. *)
Lemma plan_no_tests (d : string) (ds : list string) (strategy : string) :
  exists p : Planner.ExecutionPlan W,
    Planner.plan [] (d :: ds) strategy = Return p
    /\ all_empty (Planner.assignments p)
    /\ Planner.unassigned p = [].
Proof.
  assert (Hrr : exists p : Planner.ExecutionPlan W,
            Planner._round_robin [] (d :: ds) = Return p
            /\ all_empty (Planner.assignments p)
            /\ Planner.unassigned p = []).
  { eexists. split; [reflexivity |]. split; [| reflexivity].
    cbn [Planner.assignments].
    apply fold_dict_set_all_empty. constructor. }
  unfold Planner.plan.
  destruct (String.eqb strategy "round_robin"); [exact Hrr |].
  destruct (String.eqb strategy "capability_match").
  { eexists. split; [reflexivity |]. split; [| reflexivity].
    cbn [Planner.assignments].
    apply fold_dict_set_all_empty. constructor. }
  destruct (String.eqb strategy "single_device").
  { eexists. split; [reflexivity |]. split; [| reflexivity].
    now repeat constructor. }
  destruct (String.eqb strategy "duplicate"); [| exact Hrr].
  eexists. split; [reflexivity |]. split; [| reflexivity].
  cbn [Planner.assignments Planner._duplicate_all].
  apply fold_dict_set_all_empty. constructor.
Qed.

Lemma make_tasks_all_empty (a : list (string * list (TestCaseInfo W)))
    (m : Manager.DeviceManager) :
  all_empty a -> make_tasks a m = [].
Proof.
  induction 1 as [| [serial test_list] a Hv _ IH]; [reflexivity |].
  cbn in Hv. subst test_list. exact IH.
Qed.

Lemma total_tests_all_empty (p : Planner.ExecutionPlan W) :
  all_empty (Planner.assignments p) -> Planner.unassigned p = [] ->
  Planner.total_tests p = 0%nat.
Proof.
  unfold Planner.total_tests. intros Ha ->. cbn [length]. rewrite Nat.add_0_r.
  unfold dict_values. induction Ha as [| [k v] a Hv _ IH]; [reflexivity |].
  cbn in Hv. subst v. exact IH.
Qed.

(** C4 (amended): called with an empty test list, [execute] first does
    exactly what [connect_all] does to the manager and the host.  If no
    device could be connected it returns an unsuccessful result carrying the
    error "No devices available" and emits nothing.  Otherwise it plans,
    emits [execution.started] for a plan of no tests, starts no worker and
    calls no test function: whatever the schedule, the world of the test
    functions is untouched and the only other event is
    [execution.completed], with no result counted; it returns a successful
    result with no test results.  (An executor built with a negative
    [max_workers] stops at the semaphore with a ValueError, after
    [execution.started].) *)
Theorem execute_no_tests :
  forall (env : Manager.Env) (max_workers : Z) (t_start t_end : spec_float)
         (schedule : list nat) (strategy : string) (st : State W),
    match Manager.connect_all env (device_manager st) (host st) with
    | (Raise e, m, h) =>
        execute repr_float body env max_workers t_start t_end schedule [] strategy st
        = Some (Raise e, mkState m h (handlers_world st) (event_bus st))
    | (Return clients, m, h) =>
        (clients = [] ->
           exists r,
             execute repr_float body env max_workers t_start t_end schedule []
               strategy st
             = Some (Return r, mkState m h (handlers_world st) (event_bus st))
             /\ results r = []
             /\ is_success r = false /\ error r = Some "No devices available")
        /\ (clients <> [] ->
              exists p,
                Planner.plan [] (List.map Client.serial clients) strategy = Return p
                /\ Planner.total_tests p = 0%nat
                /\ let started :=
                     mkEvent "execution.started" "executor"
                       [("total_tests", DInt 0);
                        ("device_count", DInt (Z.of_nat (Planner.device_count p)));
                        ("strategy", DStr strategy)] in
                   let completed :=
                     mkEvent "execution.completed" "executor"
                       [("total", DInt 0); ("passed", DInt 0); ("failed", DInt 0);
                        ("duration_ms", DNum (elapsed_ms t_start t_end))] in
                   (0 <= max_workers ->
                      exists r,
                        execute repr_float body env max_workers t_start t_end
                          schedule [] strategy st
                        = Some (Return r,
                                mkState m h (handlers_world st)
                                  (event_bus st ++ [started; completed]))
                        /\ results r = []
                        /\ is_success r = true /\ error r = None
                        /\ device_count r = length clients
                        /\ plan r = Some p)
                   /\ (max_workers < 0 ->
                         execute repr_float body env max_workers t_start t_end
                           schedule [] strategy st
                         = Some (Raise (OtherException "ValueError"
                                          "Semaphore initial value must be >= 0"),
                                 mkState m h (handlers_world st)
                                   (event_bus st ++ [started]))))
    end.
Proof.
  intros env max_workers t_start t_end schedule strategy st. unfold execute.
  destruct (Manager.connect_all env (device_manager st) (host st))
    as [[[clients | e] m] h]; [| reflexivity].
  destruct clients as [| c cs].
  - split; [| intros Hne; now contradiction Hne].
    intros _. eexists. split; [reflexivity |]. now repeat split.
  - split; [intros Hnil; discriminate Hnil |]. intros _.
    destruct (plan_no_tests (Client.serial c) (List.map Client.serial cs) strategy)
      as (p & Hp & Hempty & Hun).
    exists p. cbn [List.map]. rewrite Hp.
    pose proof (total_tests_all_empty p Hempty Hun) as Htotal.
    split; [reflexivity |]. split; [exact Htotal |].
    rewrite (make_tasks_all_empty _ m Hempty), Htotal. cbv zeta.
    split.
    + intros Hmw. destruct (Z.ltb_spec max_workers 0) as [Hneg | _]; [lia |].
      eexists. split.
      * unfold emit. cbn [sh_bus sh_world length Runner.count_status List.filter].
        rewrite <- app_assoc. reflexivity.
      * now repeat split.
    + intros Hmw. destruct (Z.ltb_spec max_workers 0) as [_ | Hpos]; [| lia].
      reflexivity.
Qed.
End EmptyTests.

(** One device online, every forward and every socket connection
    succeeding. *)
Definition one_device : Manager.Env :=
  Manager.mkEnv [Manager.mkAdbDevice "A" "device" "Pixel" ""]
    (fun _ _ _ => true) (fun _ _ => true) (fun _ => Return tt).

Definition fresh_state : State unit :=
  mkState (Manager.DeviceManager_new Config.default) (Manager.mkHost [] []) tt [].

(** C4, as stated, fails: with an empty test list [execute] still
    discovers the devices, installs the three forwards of the device it
    finds and connects a client to it. *)
Lemma execute_no_tests_still_connects :
  exists r st',
    execute Runner.repr_300 atomic one_device 8 (S754_zero false) (S754_zero false)
      [] [] "round_robin" fresh_state
    = Some (Return r, st')
    /\ Manager.adb_calls (host st')
       = [Manager.AdbDevices;
          Manager.AdbForward "A" 28900 18900 true;
          Manager.AdbForward "A" 28901 18901 true;
          Manager.AdbForward "A" 28902 18902 true]
    /\ Manager.forwards (host st')
       = [("A", 28900, 18900); ("A", 28901, 18901); ("A", 28902, 18902)]
    /\ (exists c, Manager.get_client "A" (device_manager st') = Some c
                  /\ Client.is_connected c = true).
Proof.
  eexists _, _. split; [reflexivity |]. cbn.
  do 2 (split; [reflexivity |]).
  eexists. split.
  - unfold Manager.get_client. cbn. apply lookup_insert_eq.
  - reflexivity.
Qed.

End Executor.


(** ** Further properties of the planner *)

Module PlannerFacts.
Import Py Types Planner.

Section DictFacts.
Context {V : Type}.

Lemma dict_get_set_other (k k' : string) (v : V) (d : list (string * V)) :
  k <> k' -> dict_get k' (dict_set k v d) = dict_get k' d.
Proof.
  intros Hne. induction d as [| [k0 v0] d IH]; cbn.
  - destruct (String.eqb k' k) eqn:E; [| reflexivity].
    apply String.eqb_eq in E. congruence.
  - destruct (String.eqb k k0) eqn:E; cbn.
    + apply String.eqb_eq in E. subst k0.
      destruct (String.eqb k' k) eqn:E'; [| reflexivity].
      apply String.eqb_eq in E'. congruence.
    + destruct (String.eqb k' k0); [reflexivity | exact IH].
Qed.

Lemma dict_get_In_keys (k : string) (d : list (string * V)) :
  In k (dict_keys d) <-> dict_get k d <> None.
Proof.
  induction d as [| [k0 v0] d IH]; cbn.
  - split; [intros [] | congruence].
  - destruct (String.eqb k k0) eqn:E.
    + apply String.eqb_eq in E. subst. split; [discriminate | auto].
    + apply String.eqb_neq in E. rewrite <- IH. split.
      * intros [H | H]; [congruence | exact H].
      * auto.
Qed.

Lemma dict_keys_set (k : string) (v : V) (d : list (string * V)) :
  dict_keys (dict_set k v d)
  = if existsb (String.eqb k) (dict_keys d) then dict_keys d else dict_keys d ++ [k].
Proof.
  unfold dict_keys. induction d as [| [k0 v0] d IH]; cbn; [reflexivity |].
  destruct (String.eqb k k0) eqn:E; cbn; [reflexivity |].
  rewrite IH. now destruct (existsb (String.eqb k) (List.map fst d)).
Qed.

Lemma dict_keys_set_incl (k : string) (v : V) (d : list (string * V)) (x : string) :
  In x (dict_keys (dict_set k v d)) <-> x = k \/ In x (dict_keys d).
Proof.
  rewrite dict_keys_set.
  destruct (existsb (String.eqb k) (dict_keys d)) eqn:E.
  - apply existsb_exists in E. destruct E as (y & Hy & Hky).
    apply String.eqb_eq in Hky. subst y. split; [auto |].
    intros [-> | H]; assumption.
  - rewrite in_app_iff. cbn. split.
    + intros [H | [<- | []]]; auto.
    + intros [-> | H]; auto.
Qed.

(** A dictionary built by setting every key of a list to the same value. *)
Lemma fold_dict_set_get (v : V) (keys : list string) :
  forall (d : list (string * V)) (k : string),
    dict_get k (fold_left (fun acc x => dict_set x v acc) keys d)
    = if existsb (String.eqb k) keys then Some v else dict_get k d.
Proof.
  induction keys as [| x keys IH]; intros d k; cbn; [reflexivity |].
  rewrite IH. destruct (existsb (String.eqb k) keys) eqn:E.
  - now rewrite orb_true_r.
  - rewrite orb_false_r. destruct (String.eqb k x) eqn:Ex.
    + apply String.eqb_eq in Ex. subst. apply dict_get_set_same.
    + apply String.eqb_neq in Ex. apply dict_get_set_other. congruence.
Qed.

Lemma fold_dict_set_keys (v : V) (keys : list string) :
  forall (d : list (string * V)) (x : string),
    In x (dict_keys (fold_left (fun acc x => dict_set x v acc) keys d))
    <-> In x keys \/ In x (dict_keys d).
Proof.
  induction keys as [| y keys IH]; intros d x; cbn [fold_left In]; [tauto |].
  rewrite IH, dict_keys_set_incl. intuition congruence.
Qed.
End DictFacts.

Lemma existsb_eqb_In (k : string) (l : list string) :
  existsb (String.eqb k) l = true <-> In k l.
Proof.
  rewrite existsb_exists. split.
  - intros (y & Hy & E). apply String.eqb_eq in E. now subst.
  - intros H. exists k. split; [exact H | apply String.eqb_refl].
Qed.

Section RoundRobin.
Context {W : Type}.
Implicit Types (a : list (string * list (TestCaseInfo W))) (t : TestCaseInfo W).

(** All the tests a plan has put on devices, queue after queue. *)
Definition assigned a : list (TestCaseInfo W) := concat (dict_values a).

(** Every device of the list has a queue in the dictionary. *)
Definition covers (devices : list string) a : Prop :=
  forall d, In d devices -> dict_get d a <> None.

Lemma dict_append_get (device d : string) t a (l : list (TestCaseInfo W)) :
  dict_get device a <> None ->
  dict_get d a = Some l ->
  dict_get d (dict_append device t a)
  = Some (if String.eqb device d then l ++ [t] else l).
Proof.
  intros Hdev Hd. unfold dict_append.
  destruct (dict_get device a) as [l0 |] eqn:E; [| congruence].
  destruct (String.eqb device d) eqn:Ed.
  - apply String.eqb_eq in Ed. subst d.
    rewrite dict_get_set_same. congruence.
  - apply String.eqb_neq in Ed. now rewrite dict_get_set_other.
Qed.

Lemma dict_append_keys (device : string) t a :
  dict_keys (dict_append device t a) = dict_keys a.
Proof.
  unfold dict_append. destruct (dict_get device a) as [l |] eqn:E; [| reflexivity].
  rewrite dict_keys_set.
  assert (H : existsb (String.eqb device) (dict_keys a) = true).
  { apply existsb_eqb_In, dict_get_In_keys. congruence. }
  now rewrite H.
Qed.

Lemma dict_append_covers (devices : list string) (device : string) t a :
  covers devices a -> covers devices (dict_append device t a).
Proof.
  intros Hc d Hd. apply dict_get_In_keys. rewrite dict_append_keys.
  apply dict_get_In_keys. now apply Hc.
Qed.

Lemma dict_set_assigned (d : string) (l : list (TestCaseInfo W)) t a :
  dict_get d a = Some l ->
  Permutation (assigned (dict_set d (l ++ [t]) a)) (t :: assigned a).
Proof.
  unfold assigned. induction a as [| [k v] a IH]; cbn; [discriminate |].
  destruct (String.eqb d k) eqn:E; cbn.
  - intros [= ->]. rewrite <- app_assoc. cbn.
    symmetry. apply Permutation_middle.
  - intros H. rewrite (IH H). symmetry. apply Permutation_middle.
Qed.

Lemma dict_append_assigned (device : string) t a :
  dict_get device a <> None ->
  Permutation (assigned (dict_append device t a)) (t :: assigned a).
Proof.
  intros H. unfold dict_append.
  destruct (dict_get device a) as [l |] eqn:E; [| congruence].
  now apply dict_set_assigned.
Qed.

Lemma empty_assignments_covers (devices : list string) :
  covers devices (empty_assignments (W:=W) devices).
Proof.
  intros d Hd. unfold empty_assignments. rewrite fold_dict_set_get.
  apply existsb_eqb_In in Hd. now rewrite Hd.
Qed.

Lemma empty_assignments_get (devices : list string) (d : string) :
  In d devices -> dict_get d (empty_assignments (W:=W) devices) = Some [].
Proof.
  intros Hd. unfold empty_assignments. rewrite fold_dict_set_get.
  apply existsb_eqb_In in Hd. now rewrite Hd.
Qed.

Lemma empty_assignments_assigned (devices : list string) :
  assigned (empty_assignments (W:=W) devices) = [].
Proof.
  unfold assigned, empty_assignments.
  assert (H : forall a, concat (dict_values a) = [] ->
            concat (dict_values
              (fold_left (fun acc d => dict_set d ([] : list (TestCaseInfo W)) acc)
                 devices a)) = []).
  { induction devices as [| d devices IH]; intros a Ha; cbn; [exact Ha |].
    apply IH. clear IH. induction a as [| [k v] a IHa]; cbn in *; [reflexivity |].
    apply app_eq_nil in Ha. destruct Ha as [-> Ha].
    destruct (String.eqb d k); cbn; [exact Ha | now apply IHa]. }
  now apply H.
Qed.

Lemma nth_error_mod (devices : list string) (i : nat) :
  devices <> [] ->
  exists device,
    nth_error devices (i mod length devices) = Some device /\ In device devices.
Proof.
  intros Hne.
  assert (Hlen : (length devices <> 0)%nat) by (destruct devices; cbn; congruence).
  destruct (nth_error devices (i mod length devices)) as [device |] eqn:E.
  - exists device. split; [reflexivity |]. eapply nth_error_In; eassumption.
  - apply nth_error_None in E.
    pose proof (Nat.mod_upper_bound i (length devices) Hlen). lia.
Qed.

(** The tests the loop deals to device [d], starting at index [i]. *)
Fixpoint picks (devices : list string) (d : string) (i : nat)
    (tests : list (TestCaseInfo W)) : list (TestCaseInfo W) :=
  match tests with
  | [] => []
  | t :: rest =>
      match nth_error devices (i mod length devices) with
      | Some device =>
          if String.eqb device d then t :: picks devices d (S i) rest
          else picks devices d (S i) rest
      | None => picks devices d (S i) rest
      end
  end.

(** The loop never raises on a non-empty device list whose devices all
    have a queue; it keeps the keys, adds every test to exactly one queue,
    and extends the queue of [d] by the tests dealt to [d], in order. *)
Lemma round_robin_loop_spec (devices : list string) (tests : list (TestCaseInfo W)) :
  devices <> [] ->
  forall (i : nat) a,
    covers devices a ->
    exists a',
      round_robin_loop devices i tests a = Return a'
      /\ dict_keys a' = dict_keys a
      /\ Permutation (assigned a') (tests ++ assigned a)
      /\ (forall d l, dict_get d a = Some l ->
            dict_get d a' = Some (l ++ picks devices d i tests)).
Proof.
  intros Hne. induction tests as [| t rest IH]; intros i a Hc.
  - exists a. cbn. repeat split; trivial.
    intros d l Hd. now rewrite app_nil_r.
  - destruct (nth_error_mod devices i Hne) as (device & Hnth & Hin).
    cbn [round_robin_loop picks]. rewrite Hnth.
    destruct devices as [| d0 ds] eqn:Hdev; [congruence |]. rewrite <- Hdev in *.
    destruct (IH (S i) (dict_append device t a)) as (a' & Hrun & Hkeys & Hperm & Hq).
    { now apply dict_append_covers. }
    exists a'. split; [exact Hrun |]. split; [| split].
    + now rewrite Hkeys, dict_append_keys.
    + rewrite Hperm, dict_append_assigned by now apply Hc.
      cbn. symmetry. apply Permutation_middle.
    + intros d l Hd.
      rewrite (Hq d _ (dict_append_get device d t a l (Hc _ Hin) Hd)).
      destruct (String.eqb device d); [| reflexivity].
      now rewrite <- app_assoc.
Qed.

Lemma round_robin_returns (tests : list (TestCaseInfo W)) (devices : list string) :
  devices <> [] ->
  exists a',
    _round_robin tests devices = Return (mkPlan a' [])
    /\ (forall d, In d (dict_keys a') <-> In d devices)
    /\ Permutation (assigned a') tests
    /\ (forall d, In d devices ->
          dict_get d a'
          = Some (picks devices d 0 (sorted_reverse Z.ltb priority tests))).
Proof.
  intros Hne. unfold _round_robin.
  destruct (round_robin_loop_spec devices (sorted_reverse Z.ltb priority tests) Hne
              0%nat (empty_assignments devices) (empty_assignments_covers devices))
    as (a' & Hrun & Hkeys & Hperm & Hq).
  exists a'. rewrite Hrun. split; [reflexivity |]. split; [| split].
  - intros d. rewrite Hkeys. unfold empty_assignments.
    rewrite fold_dict_set_keys. cbn. tauto.
  - rewrite Hperm, empty_assignments_assigned, app_nil_r.
    apply sorted_reverse_perm.
  - intros d Hd. rewrite (Hq d [] (empty_assignments_get devices d Hd)).
    reflexivity.
Qed.
End RoundRobin.

Section Capability.
Context {W : Type}.
Implicit Types (a : list (string * list (TestCaseInfo W))) (t : TestCaseInfo W).

Lemma min_by_load_In a (best : string) (l : list string) :
  In (min_by_load a best l) (best :: l).
Proof.
  revert best. induction l as [| d l IH]; intros best; cbn [min_by_load].
  - now left.
  - destruct (load a d <? load a best)%nat.
    + right. apply IH.
    + destruct (IH best) as [H | H]; [now left | right; now right].
Qed.

(** The test names devices, and none of them is in the list. *)
Definition unmatched (devices : list string) t : Prop :=
  exists r rs,
    Types.devices t = Some (r :: rs)
    /\ forall d, In d devices -> ~ In d (r :: rs).

(** Every test queued on a device that names devices names that one. *)
Definition respects a : Prop :=
  forall d q t r rs,
    dict_get d a = Some q -> In t q ->
    Types.devices t = Some (r :: rs) -> In d (r :: rs).

Lemma respects_append (device : string) t a :
  dict_get device a <> None ->
  (forall r rs, Types.devices t = Some (r :: rs) -> In device (r :: rs)) ->
  respects a -> respects (dict_append device t a).
Proof.
  intros Hdev Hreq Hres d q t' r rs Hq Hin Ht'.
  destruct (dict_get d a) as [l |] eqn:Hd.
  - rewrite (dict_append_get device d t a l Hdev Hd) in Hq.
    injection Hq as <-.
    destruct (String.eqb device d) eqn:E.
    + apply String.eqb_eq in E. subst d.
      apply in_app_or in Hin. destruct Hin as [Hin | [<- | []]].
      * now apply (Hres device l t').
      * now apply Hreq.
    + now apply (Hres d l t').
  - exfalso. assert (Hk : In d (dict_keys (dict_append device t a))).
    { apply dict_get_In_keys. congruence. }
    rewrite dict_append_keys in Hk. apply dict_get_In_keys in Hk. congruence.
Qed.

Lemma filter_str_in_nil (devices req : list string) :
  List.filter (fun d => Planner.str_in d req) devices = [] ->
  forall d, In d devices -> ~ In d req.
Proof.
  intros Hnil d Hd Hreq.
  assert (Hin : In d (List.filter (fun d => Planner.str_in d req) devices)).
  { apply filter_In. split; [exact Hd |].
    unfold Planner.str_in. now apply existsb_eqb_In. }
  rewrite Hnil in Hin. exact Hin.
Qed.

Lemma capability_loop_spec (devices : list string) (tests : list (TestCaseInfo W)) :
  devices <> [] ->
  forall a (un : list (TestCaseInfo W)),
    covers devices a ->
    exists a' un',
      capability_loop devices tests a un = Return (a', un')
      /\ dict_keys a' = dict_keys a
      /\ Permutation (assigned a' ++ un') (tests ++ assigned a ++ un)
      /\ (respects a -> respects a')
      /\ (forall t, In t un' <-> In t un \/ (In t tests /\ unmatched devices t)).
Proof.
  intros Hne. induction tests as [| t rest IH]; intros a un Hc.
  - exists a, un. cbn. repeat split; trivial; tauto.
  - cbn [capability_loop].
    assert (Hstep : forall target,
              In target devices ->
              (forall r rs, Types.devices t = Some (r :: rs) -> In target (r :: rs)) ->
              ~ unmatched devices t ->
              exists a' un',
                capability_loop devices rest (dict_append target t a) un = Return (a', un')
                /\ dict_keys a' = dict_keys a
                /\ Permutation (assigned a' ++ un') ((t :: rest) ++ assigned a ++ un)
                /\ (respects a -> respects a')
                /\ (forall t', In t' un' <->
                      In t' un \/ (In t' (t :: rest) /\ unmatched devices t'))).
    { intros target Hin Hreq Hmatched.
      destruct (IH (dict_append target t a) un) as (a' & un' & Hrun & Hk & Hp & Hr & Hu).
      { now apply dict_append_covers. }
      exists a', un'. split; [exact Hrun |]. split; [| split; [| split]].
      - now rewrite Hk, dict_append_keys.
      - rewrite Hp.
        rewrite (Permutation_app_tail un (dict_append_assigned target t a (Hc _ Hin))).
        cbn. symmetry. apply Permutation_middle.
      - intros Hres. apply Hr. apply respects_append; trivial. now apply Hc.
      - intros t'. rewrite Hu. cbn [In]. split.
        + intros [H | [H1 H2]]; auto.
        + intros [H | [[<- | H1] H2]]; auto. now contradiction Hmatched. }
    destruct (Types.devices t) as [[| r rs] |] eqn:Hreq.
    + destruct devices as [| d ds] eqn:Hdev; [congruence |]. rewrite <- Hdev in *.
      apply (Hstep (min_by_load a d ds)).
      * rewrite Hdev. apply min_by_load_In.
      * intros r' rs' Hr. rewrite ?Hreq in Hr. discriminate Hr.
      * intros (r' & rs' & Hr & _). rewrite ?Hreq in Hr. discriminate Hr.
    + destruct (List.filter (fun d => Planner.str_in d (r :: rs)) devices)
        as [| m ms] eqn:Hf.
      * destruct (IH a (un ++ [t]) Hc) as (a' & un' & Hrun & Hk & Hp & Hr & Hu).
        exists a', un'. split; [exact Hrun |]. split; [exact Hk |].
        split; [| split; [exact Hr |]].
        -- rewrite Hp. symmetry. cbn. rewrite !app_assoc.
           apply Permutation_cons_append.
        -- intros t'. rewrite Hu, in_app_iff. cbn [In].
           assert (Ht : unmatched devices t).
           { exists r, rs. split; [exact Hreq |]. now apply filter_str_in_nil. }
           split.
           ++ intros [[H | [<- | []]] | [H1 H2]]; auto.
           ++ intros [H | [[<- | H1] H2]]; auto.
      * assert (Htarget : In (min_by_load a m ms)
                            (List.filter (fun d => Planner.str_in d (r :: rs)) devices)).
        { rewrite Hf. apply min_by_load_In. }
        apply filter_In in Htarget. destruct Htarget as [Hin Hstr].
        apply (Hstep (min_by_load a m ms) Hin).
        -- intros r' rs' Hr. rewrite ?Hreq in Hr. injection Hr as <- <-.
           unfold Planner.str_in in Hstr. now apply existsb_eqb_In.
        -- intros (r' & rs' & Hr & Hno). rewrite ?Hreq in Hr. injection Hr as <- <-.
           apply (Hno _ Hin). unfold Planner.str_in in Hstr.
           now apply existsb_eqb_In.
    + destruct devices as [| d ds] eqn:Hdev; [congruence |]. rewrite <- Hdev in *.
      apply (Hstep (min_by_load a d ds)).
      * rewrite Hdev. apply min_by_load_In.
      * intros r' rs' Hr. rewrite ?Hreq in Hr. discriminate Hr.
      * intros (r' & rs' & Hr & _). rewrite ?Hreq in Hr. discriminate Hr.
Qed.

Lemma respects_empty (devices : list string) :
  respects (empty_assignments (W:=W) devices).
Proof.
  intros d q t r rs Hq Hin _.
  assert (Hd : In d devices).
  { assert (Hk : In d (dict_keys (empty_assignments (W:=W) devices))).
    { apply dict_get_In_keys. congruence. }
    unfold empty_assignments in Hk. apply fold_dict_set_keys in Hk.
    destruct Hk as [Hk | []]. exact Hk. }
  rewrite (empty_assignments_get devices d Hd) in Hq.
  injection Hq as <-. destruct Hin.
Qed.

Lemma capability_match_returns (tests : list (TestCaseInfo W)) (devices : list string) :
  devices <> [] ->
  exists a' un',
    _capability_match tests devices = Return (mkPlan a' un')
    /\ (forall d, In d (dict_keys a') <-> In d devices)
    /\ Permutation (assigned a' ++ un') tests
    /\ respects a'
    /\ (forall t, In t un' <-> In t tests /\ unmatched devices t).
Proof.
  intros Hne. unfold _capability_match.
  destruct (capability_loop_spec devices tests Hne (empty_assignments devices) []
              (empty_assignments_covers devices))
    as (a' & un' & Hrun & Hk & Hp & Hr & Hu).
  exists a', un'. rewrite Hrun. split; [reflexivity |].
  split; [| split; [| split]].
  - intros d. rewrite Hk. unfold empty_assignments.
    rewrite fold_dict_set_keys. cbn. tauto.
  - rewrite Hp, empty_assignments_assigned. cbn. now rewrite app_nil_r.
  - apply Hr, respects_empty.
  - intros t. rewrite Hu. cbn [In]. tauto.
Qed.
End Capability.

Section PlanProperties.
Context {W : Type}.

(** X1: [plan] never raises, whatever the tests, the devices and the
    strategy name; and unless the strategy is ["duplicate"], every test of
    the input is in the plan exactly once, on a device queue or among the
    unassigned (also when there is no device at all). *)
Theorem plan_accounts_for_every_test :
  forall (tests : list (TestCaseInfo W)) (devices : list string) (strategy : string),
  exists p,
    plan tests devices strategy = Return p
    /\ (strategy <> "duplicate" ->
        Permutation (assigned (assignments p) ++ unassigned p) tests).
Proof.
  intros tests devices strategy. unfold plan.
  destruct devices as [| d ds] eqn:Hdev.
  { eexists. split; [reflexivity |]. intros _. reflexivity. }
  rewrite <- Hdev.
  assert (Hne : devices <> []) by (rewrite Hdev; discriminate).
  assert (Hrr : exists p : ExecutionPlan W,
            _round_robin tests devices = Return p
            /\ (strategy <> "duplicate" ->
                Permutation (assigned (assignments p) ++ unassigned p) tests)).
  { destruct (round_robin_returns tests devices Hne) as (a' & Hrun & _ & Hp & _).
    eexists. split; [exact Hrun |]. intros _. cbn. now rewrite app_nil_r. }
  destruct (String.eqb strategy "round_robin"); [exact Hrr |].
  destruct (String.eqb strategy "capability_match").
  { destruct (capability_match_returns tests devices Hne)
      as (a' & un' & Hrun & _ & Hp & _).
    eexists. split; [exact Hrun |]. intros _. exact Hp. }
  destruct (String.eqb strategy "single_device").
  { rewrite Hdev. eexists. split; [reflexivity |]. intros _.
    cbn. now rewrite !app_nil_r. }
  destruct (String.eqb strategy "duplicate") eqn:E; [| exact Hrr].
  eexists. split; [reflexivity |]. intros Hnd.
  apply String.eqb_eq in E. contradiction.
Qed.

(** The number of indices [k] in [i, i + len) with [k mod n = j]. *)
Fixpoint hits (n j i len : nat) : nat :=
  match len with
  | O => O
  | S len' => ((if (i mod n =? j)%nat then 1 else 0) + hits n j (S i) len')%nat
  end.

Lemma hits_snoc (n j len : nat) :
  forall i, hits n j i (S len)
            = (hits n j i len + (if ((i + len) mod n =? j)%nat then 1 else 0))%nat.
Proof.
  induction len as [| len IH]; intros i.
  - cbn [hits]. rewrite !Nat.add_0_r. destruct (i mod n =? j)%nat; lia.
  - change (hits n j i (S (S len)))
      with ((if (i mod n =? j)%nat then 1 else 0) + hits n j (S i) (S len))%nat.
    rewrite IH. cbn [hits].
    replace (S i + len)%nat with (i + S len)%nat by lia.
    destruct (i mod n =? j)%nat, ((i + S len) mod n =? j)%nat; lia.
Qed.

Lemma mod_succ (n len : nat) :
  (n <> 0)%nat ->
  (S (len mod n) < n /\ S len / n = len / n /\ S len mod n = S (len mod n))%nat
  \/ (S (len mod n) = n /\ S len / n = S (len / n) /\ S len mod n = 0)%nat.
Proof.
  intros Hn.
  pose proof (Nat.div_mod_eq len n) as Hdm.
  pose proof (Nat.mod_upper_bound len n Hn) as Hlt.
  destruct (Nat.eq_dec (S (len mod n)) n) as [Heq | Hneq].
  - right. split; [exact Heq |].
    assert (H : (S len = n * S (len / n) + 0)%nat) by nia.
    split.
    + symmetry. apply (Nat.div_unique (S len) n (S (len / n)) 0); lia.
    + symmetry. apply (Nat.mod_unique (S len) n (S (len / n)) 0); lia.
  - left. split; [lia |].
    assert (H : (S len = n * (len / n) + S (len mod n))%nat) by nia.
    split.
    + symmetry. apply (Nat.div_unique (S len) n (len / n) (S (len mod n))); lia.
    + symmetry. apply (Nat.mod_unique (S len) n (len / n) (S (len mod n))); lia.
Qed.

Lemma hits_closed (n j len : nat) :
  (j < n)%nat ->
  hits n j 0 len = (len / n + (if (j <? len mod n)%nat then 1 else 0))%nat.
Proof.
  intros Hj. assert (Hn : (n <> 0)%nat) by lia.
  induction len as [| len IH].
  - cbn [hits]. rewrite Nat.Div0.div_0_l, Nat.Div0.mod_0_l. reflexivity.
  - rewrite hits_snoc, IH. cbn [Nat.add].
    destruct (mod_succ n len Hn) as [(Hlt & Hd & Hm) | (Heq & Hd & Hm)];
      rewrite Hd, Hm.
    + destruct (Nat.eqb_spec (len mod n) j), (Nat.ltb_spec j (len mod n)),
        (Nat.ltb_spec j (S (len mod n))); lia.
    + destruct (Nat.eqb_spec (len mod n) j), (Nat.ltb_spec j (len mod n)),
        (Nat.ltb_spec j 0); lia.
Qed.

Lemma picks_length (devices : list string) (d : string) (j : nat)
    (tests : list (TestCaseInfo W)) :
  List.NoDup devices ->
  nth_error devices j = Some d ->
  forall i, length (picks devices d i tests) = hits (length devices) j i (length tests).
Proof.
  intros Hnd Hj.
  assert (Hjlt : (j < length devices)%nat) by (apply nth_error_Some; congruence).
  induction tests as [| t rest IH]; intros i; [reflexivity |].
  cbn [picks length hits].
  assert (Hlt : (i mod length devices < length devices)%nat)
    by (apply Nat.mod_upper_bound; lia).
  destruct (nth_error devices (i mod length devices)) as [device |] eqn:E.
  2:{ apply nth_error_None in E. lia. }
  destruct (String.eqb device d) eqn:Ed.
  - apply String.eqb_eq in Ed. subst device.
    assert (Heq : (i mod length devices = j)%nat).
    { apply (proj1 (NoDup_nth_error devices) Hnd); [exact Hlt | congruence]. }
    rewrite Heq, Nat.eqb_refl. cbn [length]. now rewrite IH.
  - apply String.eqb_neq in Ed.
    destruct (Nat.eqb_spec (i mod length devices) j) as [Heq | Hneq].
    + rewrite Heq in E. congruence.
    + now rewrite IH.
Qed.

(** X2: round-robin over distinct devices is balanced: with [t] tests
    and [n] devices, the device at position [j] gets [t / n] tests, and one
    more when [j < t mod n]; so every share is the floor or the ceiling of
    [t / n]. *)
Theorem round_robin_balanced :
  forall (tests : list (TestCaseInfo W)) (devices : list string) (j : nat) (d : string),
    List.NoDup devices ->
    nth_error devices j = Some d ->
    exists p q,
      plan tests devices "round_robin" = Return p
      /\ dict_get d (assignments p) = Some q
      /\ length q
         = (length tests / length devices
            + (if (j <? length tests mod length devices)%nat then 1 else 0))%nat.
Proof.
  intros tests devices j d Hnd Hj.
  assert (Hin : In d devices) by (eapply nth_error_In; eassumption).
  assert (Hne : devices <> []) by (intros ->; destruct Hin).
  destruct (round_robin_returns tests devices Hne) as (a' & Hrun & _ & _ & Hq).
  exists (mkPlan a' []), (picks devices d 0 (sorted_reverse Z.ltb priority tests)).
  split; [| split].
  - unfold plan. destruct devices; [congruence | exact Hrun].
  - now apply Hq.
  - rewrite (picks_length devices d j _ Hnd Hj).
    rewrite (Permutation_length (sorted_reverse_perm Z.ltb priority tests)).
    apply hits_closed. apply nth_error_Some. congruence.
Qed.

Lemma picks_In (devices : list string) (d : string) (tests : list (TestCaseInfo W)) :
  forall i x, In x (picks devices d i tests) -> In x tests.
Proof.
  induction tests as [| t rest IH]; intros i x Hx; [exact Hx |].
  cbn [picks] in Hx.
  destruct (nth_error devices (i mod length devices)) as [device |].
  - destruct (String.eqb device d).
    + destruct Hx as [<- | Hx]; [now left | right; eauto].
    + right; eauto.
  - right; eauto.
Qed.

Lemma picks_sorted (R : TestCaseInfo W -> TestCaseInfo W -> Prop)
    (devices : list string) (d : string) (tests : list (TestCaseInfo W)) :
  StronglySorted R tests ->
  forall i, StronglySorted R (picks devices d i tests).
Proof.
  induction 1 as [| t rest Hs IH Hall]; intros i; cbn [picks]; [constructor |].
  destruct (nth_error devices (i mod length devices)) as [device |]; [| apply IH].
  destruct (String.eqb device d); [| apply IH].
  constructor; [apply IH |].
  apply List.Forall_forall. intros x Hx.
  apply (proj1 (List.Forall_forall _ _) Hall). eapply picks_In; eassumption.
Qed.

(** X3: in a round-robin plan every device queue is in descending
    priority order: no test comes after a test of lower priority. *)
Theorem round_robin_queues_by_priority :
  forall (tests : list (TestCaseInfo W)) (devices : list string) (d : string),
    In d devices ->
    exists p q,
      plan tests devices "round_robin" = Return p
      /\ dict_get d (assignments p) = Some q
      /\ StronglySorted (fun x y => priority y <= priority x) q.
Proof.
  intros tests devices d Hin.
  assert (Hne : devices <> []) by (intros ->; destruct Hin).
  destruct (round_robin_returns tests devices Hne) as (a' & Hrun & _ & _ & Hq).
  exists (mkPlan a' []), (picks devices d 0 (sorted_reverse Z.ltb priority tests)).
  split; [| split].
  - unfold plan. destruct devices; [congruence | exact Hrun].
  - now apply Hq.
  - apply picks_sorted. apply Sorted_StronglySorted.
    + intros x y z Hxy Hyz. lia.
    + apply (Sorted_weaken (desc Z.ltb priority)).
      * intros x y Hxy. now apply Z.ltb_ge.
      * apply (sorted_reverse_sorted Z.ltb priority Zltb_asym).
Qed.

(** X4: a capability-match plan puts a test that names required devices
    only on a device it names, and leaves unassigned exactly the tests that
    name devices none of which is available. *)
Theorem capability_match_respects_requirements :
  forall (tests : list (TestCaseInfo W)) (devices : list string),
    devices <> [] ->
    exists p,
      plan tests devices "capability_match" = Return p
      /\ (forall d q t r rs,
            dict_get d (assignments p) = Some q -> In t q ->
            Types.devices t = Some (r :: rs) ->
            In d (r :: rs) /\ In d devices)
      /\ (forall t, In t (unassigned p) <-> In t tests /\ unmatched devices t).
Proof.
  intros tests devices Hne.
  destruct (capability_match_returns tests devices Hne)
    as (a' & un' & Hrun & Hk & _ & Hr & Hu).
  exists (mkPlan a' un'). split; [| split].
  - unfold plan. destruct devices; [congruence | exact Hrun].
  - intros d q t r rs Hq Hin Hreq. split.
    + now apply (Hr d q t r rs).
    + apply Hk. apply dict_get_In_keys. cbn in Hq. congruence.
  - exact Hu.
Qed.

(** X5: a duplicate plan gives every device the whole test list, in the
    order given, has a queue for the listed devices only and leaves nothing
    unassigned. *)
Theorem duplicate_gives_every_device_all_tests :
  forall (tests : list (TestCaseInfo W)) (devices : list string),
    devices <> [] ->
    exists p,
      plan tests devices "duplicate" = Return p
      /\ unassigned p = []
      /\ (forall d, In d devices -> dict_get d (assignments p) = Some tests)
      /\ (forall d, In d (dict_keys (assignments p)) <-> In d devices).
Proof.
  intros tests devices Hne. eexists. split; [| split; [| split]].
  - unfold plan. destruct devices; [congruence | reflexivity].
  - reflexivity.
  - intros d Hd. cbn. unfold all_assignments. rewrite fold_dict_set_get.
    apply existsb_eqb_In in Hd. now rewrite Hd.
  - intros d. unfold _duplicate_all, all_assignments. cbn [assignments].
    rewrite fold_dict_set_keys. cbn. tauto.
Qed.
End PlanProperties.

Definition needs (n : string) (p : Z) (req : list string) : TestCaseInfo unit :=
  mkTestCaseInfo n noop [] (Some req) 300%Q 0 p "".

Lemma plan_accounts_for_every_test_witness :
  exists p,
    plan [t1; needs "tX" 3 ["Z"]; t2] ["A"; "B"] "capability_match" = Return p
    /\ Permutation (assigned (assignments p) ++ unassigned p)
         [t1; needs "tX" 3 ["Z"]; t2].
Proof.
  destruct (plan_accounts_for_every_test [t1; needs "tX" 3 ["Z"]; t2] ["A"; "B"]
              "capability_match") as (p & Hp & Hperm).
  exists p. split; [exact Hp |]. apply Hperm. discriminate.
Defined.

Lemma round_robin_balanced_witness :
  exists p q,
    plan [t1; t2; t3] ["A"; "B"] "round_robin" = Return p
    /\ dict_get "A" (assignments p) = Some q
    /\ length q = 2%nat.
Proof.
  apply (round_robin_balanced [t1; t2; t3] ["A"; "B"] 0 "A").
  - repeat constructor; cbn; intuition discriminate.
  - reflexivity.
Defined.

Lemma round_robin_queues_by_priority_witness :
  exists p q,
    plan [t1; t2; t3] ["A"; "B"] "round_robin" = Return p
    /\ dict_get "A" (assignments p) = Some q
    /\ StronglySorted (fun x y => priority y <= priority x) q.
Proof.
  apply (round_robin_queues_by_priority [t1; t2; t3] ["A"; "B"] "A").
  now left.
Defined.

Lemma capability_match_respects_requirements_witness :
  exists p,
    plan [needs "tX" 0 ["B"; "Z"]; needs "tY" 0 ["Z"]] ["A"; "B"; "C"]
      "capability_match" = Return p
    /\ (forall d q t r rs,
          dict_get d (assignments p) = Some q -> In t q ->
          Types.devices t = Some (r :: rs) ->
          In d (r :: rs) /\ In d ["A"; "B"; "C"])
    /\ (forall t, In t (unassigned p) <->
          In t [needs "tX" 0 ["B"; "Z"]; needs "tY" 0 ["Z"]]
          /\ unmatched ["A"; "B"; "C"] t).
Proof.
  apply (capability_match_respects_requirements
           [needs "tX" 0 ["B"; "Z"]; needs "tY" 0 ["Z"]] ["A"; "B"; "C"]).
  discriminate.
Defined.

Lemma duplicate_gives_every_device_all_tests_witness :
  exists p,
    plan [t1; t2; t3] ["A"; "B"] "duplicate" = Return p
    /\ unassigned p = []
    /\ (forall d, In d ["A"; "B"] -> dict_get d (assignments p) = Some [t1; t2; t3])
    /\ (forall d, In d (dict_keys (assignments p)) <-> In d ["A"; "B"]).
Proof.
  apply (duplicate_gives_every_device_all_tests [t1; t2; t3] ["A"; "B"]).
  discriminate.
Defined.

End PlannerFacts.


(** ** Further properties of sorting, the runner and the decorator *)

Module SortFacts.
Import Py.

Section Generic.
Context {A K : Type} (ltk : K -> K -> bool) (key : A -> K).

(** Sorting a list that is already in descending order changes nothing. *)
Lemma sorted_reverse_fixed (l : list A) :
  Sorted (desc ltk key) l -> sorted_reverse ltk key l = l.
Proof.
  induction 1 as [| x l Hs IH Hhd]; [reflexivity |].
  cbn [sorted_reverse]. rewrite IH.
  destruct Hhd as [| y l' Hxy]; [reflexivity |].
  cbn [insert_desc]. unfold desc in Hxy. now rewrite Hxy.
Qed.

Lemma filter_all (p : A -> bool) (l : list A) :
  (forall x, In x l -> p x = true) -> List.filter p l = l.
Proof.
  induction l as [| x l IH]; intros H; [reflexivity |].
  cbn. rewrite (H x (or_introl eq_refl)). f_equal. apply IH.
  intros y Hy. apply H. now right.
Qed.
End Generic.

Section IntegerKeys.
Context {A : Type} (key : A -> Z).

Lemma sorted_reverse_idempotent (l : list A) :
  sorted_reverse Z.ltb key (sorted_reverse Z.ltb key l) = sorted_reverse Z.ltb key l.
Proof.
  apply sorted_reverse_fixed. apply sorted_reverse_sorted. exact Zltb_asym.
Qed.

Lemma insert_desc_same_key (k : Z) (x : A) (l : list A) :
  List.filter (fun y => key y =? k) (insert_desc Z.ltb key x l)
  = if key x =? k then x :: List.filter (fun y => key y =? k) l
    else List.filter (fun y => key y =? k) l.
Proof.
  induction l as [| y l IH]; cbn [insert_desc].
  - cbn. now destruct (key x =? k).
  - destruct (key x <? key y) eqn:Hlt.
    + cbn [List.filter]. rewrite IH.
      destruct (key x =? k) eqn:Hx; [| reflexivity].
      apply Z.eqb_eq in Hx. apply Z.ltb_lt in Hlt.
      destruct (Z.eqb_spec (key y) k); [lia | reflexivity].
    + cbn [List.filter]. now destruct (key x =? k).
Qed.

(** The sort is stable: tests of equal key keep the order of the input. *)
Lemma sorted_reverse_stable (k : Z) (l : list A) :
  List.filter (fun y => key y =? k) (sorted_reverse Z.ltb key l)
  = List.filter (fun y => key y =? k) l.
Proof.
  induction l as [| x l IH]; [reflexivity |].
  cbn [sorted_reverse]. rewrite insert_desc_same_key, IH. reflexivity.
Qed.
End IntegerKeys.

End SortFacts.

Module RunnerFacts.
Import Py Types Events Runner SortFacts.

Section SingleRun.
Context {W : Type}.
Variable repr_float : Q -> string.
Variable test : TestCaseInfo W.
Variable serial : string.

Lemma attempt_result_serial (b : Behaviour) (r : TestResult) :
  attempt_result repr_float test serial b = Return r -> device_serial r = serial.
Proof.
  unfold attempt_result.
  destruct b as [[| r0] | e |]; try (intros [= <-]; reflexivity).
  destruct e; cbn; try (intros [= <-]; reflexivity); discriminate.
Qed.

(** A result the runner builds itself is [PASSED] or [ERROR]. *)
Lemma attempt_result_status (b : Behaviour) (r : TestResult) :
  (forall r0, b <> Returns (RTestResult r0)) ->
  attempt_result repr_float test serial b = Return r ->
  status r = PASSED \/ status r = ERROR.
Proof.
  intros Hb. unfold attempt_result.
  destruct b as [[| r0] | e |]; try (intros [= <-]; cbn; auto).
  - now contradiction (Hb r0).
  - destruct e; cbn; try (intros [= <-]; cbn; auto); discriminate.
Qed.

Lemma attempts_invariant (P : TestResult -> Prop) (n : nat) :
  (forall w r,
      attempt_result repr_float test serial (fst (fn_call (func test) w)) = Return r ->
      P r) ->
  forall last w calls r w' calls',
    (forall r0, last = Some r0 -> P r0) ->
    attempts repr_float test serial n last w calls = (Return (Some r), w', calls') ->
    P r.
Proof.
  intros Hstep. induction n as [| n IH]; intros last w calls r w' calls' Hlast Hrun.
  - cbn in Hrun. injection Hrun as -> _ _. now apply Hlast.
  - cbn [attempts] in Hrun. specialize (Hstep w).
    destruct (fn_call (func test) w) as [b w1]. cbn [fst] in Hstep.
    destruct (attempt_result repr_float test serial b) as [r1 | e];
      [| discriminate Hrun].
    destruct (TestStatus_eqb (status r1) PASSED).
    + injection Hrun as <- _ _. now apply Hstep.
    + apply (IH (Some r1) w1 (S calls) r w' calls'); [| exact Hrun].
      intros r0 [= <-]. now apply Hstep.
Qed.

Lemma run_single_serial (w : W) (r : TestResult) :
  returned (_run_single repr_float test serial w) = Return r ->
  device_serial r = serial.
Proof.
  unfold _run_single.
  destruct (attempts repr_float test serial (Z.to_nat (retry test + 1)) None w 0)
    as [[[last | e] w'] calls] eqn:Hrun; cbn [returned bind]; [| discriminate].
  intros [= <-]. destruct last as [r |]; [| reflexivity].
  refine (attempts_invariant (fun r => device_serial r = serial) _ _
            None w 0%nat r w' calls _ Hrun).
  - intros w0 r0. apply attempt_result_serial.
  - discriminate.
Qed.

(** X6: every result [_run_single] returns carries the serial it was
    given; and for a test function that never returns a TestResult object
    of its own, the status is [PASSED] or [ERROR], never [FAILED]. *)
Theorem run_single_stamps_serial :
  forall (w : W) (r : TestResult),
    returned (_run_single repr_float test serial w) = Return r ->
    device_serial r = serial
    /\ ((forall w0 r0, fst (fn_call (func test) w0) <> Returns (RTestResult r0)) ->
        status r = PASSED \/ status r = ERROR).
Proof.
  intros w r. unfold _run_single.
  destruct (attempts repr_float test serial (Z.to_nat (retry test + 1)) None w 0)
    as [[[last | e] w'] calls] eqn:Hrun; cbn [returned bind]; [| discriminate].
  intros [= <-]. destruct last as [r |]; [| cbn; auto].
  split.
  - refine (attempts_invariant (fun r => device_serial r = serial) _ _
              None w 0%nat r w' calls _ Hrun).
    + intros w0 r0. apply attempt_result_serial.
    + discriminate.
  - intros Hplain.
    refine (attempts_invariant (fun r => status r = PASSED \/ status r = ERROR) _ _
              None w 0%nat r w' calls _ Hrun).
    + intros w0 r0. apply attempt_result_status. intros r1. apply Hplain.
    + discriminate.
Qed.

(** X7: with a negative retry count the loop body never runs: the test
    function is not called at all and the result is the fallback [ERROR]
    with message "Unknown error". *)
Theorem run_single_negative_retry :
  forall (w : W),
    retry test < 0 ->
    _run_single repr_float test serial w
    = mkOutcome (Return (TestResult_new (tc_name test) ERROR serial (Some "Unknown error")))
        w 0%nat.
Proof.
  intros w Hneg. unfold _run_single.
  replace (Z.to_nat (retry test + 1)) with 0%nat by lia. reflexivity.
Qed.

Lemma attempts_raise (k : nat) :
  forall (n : nat) (last : option TestResult) (w : W) (calls : nat) (e : exn),
    (k < n)%nat ->
    (forall j, (j < k)%nat -> non_pass (attempt repr_float test serial w j)) ->
    attempt repr_float test serial w k = Raise e ->
    attempts repr_float test serial n last w calls
    = (Raise e, world_after (func test) w (S k), (calls + S k)%nat).
Proof.
  induction k as [| k IH]; intros n last w calls e Hn Hfail Hk.
  - destruct n as [| n]; [lia |].
    cbn [attempts]. unfold attempt in Hk. cbn [world_after] in Hk.
    destruct (fn_call (func test) w) as [b w'] eqn:Hcall.
    cbn [fst] in Hk. rewrite Hk. cbn [world_after]. rewrite Hcall. cbn [snd].
    now replace (calls + 1)%nat with (S calls) by lia.
  - destruct n as [| n]; [lia |].
    cbn [attempts].
    destruct (Hfail 0%nat ltac:(lia)) as (tr0 & H0 & Hnp).
    unfold attempt in H0. cbn [world_after] in H0.
    rewrite world_after_shift.
    destruct (fn_call (func test) w) as [b w'] eqn:Hcall.
    cbn [fst] in H0. cbn [snd]. rewrite H0.
    destruct (TestStatus_eqb (status tr0) PASSED) eqn:E.
    { destruct (status tr0); try discriminate E. now contradiction Hnp. }
    rewrite (IH n (Some tr0) w' (S calls) e).
    + f_equal. lia.
    + lia.
    + intros j Hj. specialize (Hfail (S j) ltac:(lia)).
      rewrite attempt_shift, Hcall in Hfail. exact Hfail.
    + rewrite attempt_shift, Hcall in Hk. exact Hk.
Qed.

(** X8: an exception outside the [Exception] hierarchy is not turned
    into a result: when attempt [k] raises one after [k] non-passing
    attempts, [_run_single] raises it and makes no further attempt. *)
Theorem run_single_propagates :
  forall (w : W) (k : nat) (e : exn),
    Z.of_nat k <= retry test ->
    (forall j, (j < k)%nat -> non_pass (attempt repr_float test serial w j)) ->
    attempt repr_float test serial w k = Raise e ->
    is_Exception e = false
    /\ _run_single repr_float test serial w
       = mkOutcome (Raise e) (world_after (func test) w (S k)) (S k).
Proof.
  intros w k e Hk Hfail Hraise. split.
  - unfold attempt, attempt_result in Hraise.
    destruct (fst (fn_call (func test) (world_after (func test) w k)))
      as [[| r0] | e0 |]; try discriminate Hraise.
    destruct e0; cbn in Hraise; try discriminate Hraise.
    now injection Hraise as <-.
  - unfold _run_single.
    rewrite (attempts_raise k _ None w 0%nat e); trivial. lia.
Qed.
End SingleRun.

Section WholeRun.
Context {W : Type}.
Variable repr_float : Q -> string.

(** The events of the tests from index [i] on, given their results: for
    each test its [test.started], then its [test.completed]. *)
Fixpoint test_events (i : nat) (tests : list (TestCaseInfo W))
    (results : list TestResult) : list Event :=
  match tests, results with
  | test :: tests', result :: results' =>
      mkEvent "test.started" "runner"
        [("name", DStr (tc_name test)); ("index", DInt (Z.of_nat i))]
      :: mkEvent "test.completed" "runner"
           [("name", DStr (tc_name test));
            ("status", DStr (status_value (status result)));
            ("duration", DNum (duration_ms result))]
      :: test_events (S i) tests' results'
  | _, _ => []
  end.

Lemma run_loop_events (serial : string) (total : nat) (tests : list (TestCaseInfo W)) :
  forall i results w bus rs w' bus',
    run_loop repr_float serial total i tests results w bus = (Return rs, w', bus') ->
    exists new,
      rs = results ++ new
      /\ length new = length tests
      /\ Forall (fun r => device_serial r = serial) new
      /\ bus' = bus ++ test_events i tests new.
Proof.
  induction tests as [| test rest IH]; intros i results w bus rs w' bus' Hrun.
  - cbn in Hrun. injection Hrun as <- _ <-. exists [].
    rewrite !app_nil_r. repeat split. constructor.
  - cbn [run_loop] in Hrun.
    destruct (returned (_run_single repr_float test serial w)) as [result | e] eqn:Hres;
      [| discriminate Hrun].
    apply IH in Hrun. destruct Hrun as (new & -> & Hlen & Hser & ->).
    exists (result :: new). split; [now rewrite <- app_assoc |].
    split; [cbn; lia |]. split.
    + constructor; [| exact Hser].
      now apply (run_single_serial repr_float test serial w result).
    + unfold emit. cbn [test_events]. now rewrite <- !app_assoc.
Qed.

Lemma run_loop_spec (serial : string) (total : nat) (tests : list (TestCaseInfo W)) :
  forall i results w bus rs w' bus',
    run_loop repr_float serial total i tests results w bus = (Return rs, w', bus') ->
    length rs = (length results + length tests)%nat
    /\ (Forall (fun r => device_serial r = serial) results ->
        Forall (fun r => device_serial r = serial) rs).
Proof.
  intros i results w bus rs w' bus' Hrun.
  apply run_loop_events in Hrun. destruct Hrun as (new & -> & Hlen & Hser & _).
  rewrite length_app. split; [lia |].
  intros Hall. apply Forall_app. now split.
Qed.

(** X9: when [run] returns, it returns one result per test, each with
    the serial of the device it ran on, and the events it has emitted are,
    in this order: [run.started] with the number of tests and the serial;
    for each test in turn [test.started] with its name and index and
    [test.completed] with its name, the status and the duration of its
    result; [run.completed] with the number of results and how many of them
    passed, failed and ended in error. *)
Theorem run_one_result_per_test :
  forall (tests : list (TestCaseInfo W)) (serial : string) (w : W) (bus : list Event)
         (results : list TestResult) (w' : W) (bus' : list Event),
    run repr_float tests serial w bus = (Return results, w', bus') ->
    length results = length tests
    /\ Forall (fun r => device_serial r = serial) results
    /\ bus'
       = bus
         ++ [mkEvent "run.started" "runner"
               [("total", DInt (Z.of_nat (length tests))); ("device", DStr serial)]]
         ++ test_events 0 tests results
         ++ [mkEvent "run.completed" "runner"
               [("total", DInt (Z.of_nat (length results)));
                ("passed",
                 DInt (Z.of_nat (length (List.filter
                   (fun r => TestStatus_eqb (status r) PASSED) results))));
                ("failed",
                 DInt (Z.of_nat (length (List.filter
                   (fun r => TestStatus_eqb (status r) FAILED) results))));
                ("error",
                 DInt (Z.of_nat (length (List.filter
                   (fun r => TestStatus_eqb (status r) ERROR) results))))]].
Proof.
  intros tests serial w bus results w' bus' Hrun. unfold run in Hrun.
  destruct (run_loop repr_float serial (length tests) 0 tests [] w
              (emit bus (mkEvent "run.started" "runner"
                 [("total", DInt (Z.of_nat (length tests))); ("device", DStr serial)])))
    as [[[rs | e] w1] bus1] eqn:Hloop; [| discriminate Hrun].
  injection Hrun as <- _ <-.
  apply run_loop_events in Hloop. destruct Hloop as (new & -> & Hlen & Hser & ->).
  cbn [app]. split; [exact Hlen |]. split; [exact Hser |].
  unfold emit, count_status. now rewrite <- !app_assoc.
Qed.
End WholeRun.

Definition aborts : handler nat :=
  mkHandler "t" None
    (fun w => if (w <? 1)%nat then (Raises (OtherException "ValueError" "bad"), S w)
              else (Raises (BaseOnly "KeyboardInterrupt" ""), S w)).
Definition aborting_test : TestCaseInfo nat :=
  mkTestCaseInfo "t" aborts [] None 300%Q 3 0 "".
Definition hopeless_test : TestCaseInfo nat :=
  mkTestCaseInfo "t" flaky [] None 300%Q (-1) 0 "".

Lemma run_single_stamps_serial_witness :
  exists r,
    returned (_run_single repr_300 flaky_test "A" 0%nat) = Return r
    /\ device_serial r = "A".
Proof.
  eexists. split; [reflexivity |].
  apply (run_single_stamps_serial repr_300 flaky_test "A" 0%nat). reflexivity.
Defined.

Lemma run_single_negative_retry_witness :
  _run_single repr_300 hopeless_test "A" 0%nat
  = mkOutcome (Return (TestResult_new "t" ERROR "A" (Some "Unknown error"))) 0%nat 0%nat.
Proof.
  apply (run_single_negative_retry repr_300 hopeless_test "A" 0%nat).
  reflexivity.
Defined.

Lemma run_single_propagates_witness :
  is_Exception (BaseOnly "KeyboardInterrupt" "") = false
  /\ _run_single repr_300 aborting_test "A" 0%nat
     = mkOutcome (Raise (BaseOnly "KeyboardInterrupt" "")) 2%nat 2%nat.
Proof.
  apply (run_single_propagates repr_300 aborting_test "A" 0%nat 1%nat).
  - vm_compute. discriminate.
  - intros j Hj. destruct j as [| j]; [| lia].
    eexists. split; [reflexivity | discriminate].
  - reflexivity.
Defined.

Lemma run_one_result_per_test_witness :
  exists results w' bus',
    run repr_300 [flaky_test; flaky_test] "A" 0%nat [] = (Return results, w', bus')
    /\ length results = 2%nat
    /\ Forall (fun r => device_serial r = "A") results
    /\ List.map ev_type bus'
       = ["run.started"; "test.started"; "test.completed"; "test.started";
          "test.completed"; "run.completed"].
Proof.
  eexists _, _, _. split; [reflexivity |].
  destruct (run_one_result_per_test repr_300 [flaky_test; flaky_test] "A" 0%nat []
              _ _ _ eq_refl) as (Hlen & Hser & Hbus).
  split; [exact Hlen |]. split; [exact Hser |]. reflexivity.
Defined.

End RunnerFacts.


Module FilterFacts.
Import Py Types Runner SortFacts.

Section Filter.
Context {W : Type}.
Implicit Types (l : list (TestCaseInfo W)) (t : TestCaseInfo W).

(** The test passes the filters that are in force. *)
Definition keeps (tags names : option (list string)) t : bool :=
  (if truthy tags
   then existsb (fun tag => str_in tag (Types.tags t)) (default [] tags)
   else true)
  && (if truthy names then str_in (tc_name t) (default [] names) else true).

Lemma filter_twice (p q : TestCaseInfo W -> bool) l :
  List.filter q (List.filter p l) = List.filter (fun x => p x && q x) l.
Proof.
  induction l as [| x l IH]; [reflexivity |].
  cbn. destruct (p x); cbn; [destruct (q x) |]; now rewrite IH.
Qed.

Lemma selection_keeps (tags names : option (list string)) l :
  selection tags names l = List.filter (keeps tags names) l.
Proof.
  unfold selection, keeps, by_tags, by_names.
  destruct tags as [[| x xs] |], names as [[| y ys] |]; cbn [truthy default];
    rewrite ?filter_twice;
    try (symmetry; apply filter_all; reflexivity);
    apply filter_ext; intros t; now rewrite ?andb_true_r.
Qed.

Lemma lookup_alloc (st : list (list (TestCaseInfo W))) l :
  (st ++ [l]) !! length st = Some l.
Proof. rewrite lookup_app_r by lia. now rewrite Nat.sub_diag. Qed.

(** What the list returned by [filter_tests] holds. *)
Lemma filter_tests_content (st : list (list (TestCaseInfo W))) (tests : nat) l
    (tags names : option (list string)) :
  st !! tests = Some l ->
  exists r st',
    filter_tests tests tags names st = Some (r, st')
    /\ st' !! r
       = Some (sorted_reverse Z.ltb priority (List.filter (keeps tags names) l)).
Proof.
  intros Hl. rewrite <- selection_keeps.
  assert (Hlt : (tests < length st)%nat) by (apply lookup_lt_is_Some; eauto).
  unfold filter_tests.
  destruct (truthy tags) eqn:Ht.
  - destruct (comprehension_truthy tags by_tags tests st l Ht Hl) as (a & -> & ->).
    pose proof (lookup_alloc st (by_tags a l)) as H1.
    destruct (truthy names) eqn:Hn.
    + destruct (comprehension_truthy names by_names (length st) _ _ Hn H1)
        as (b & -> & ->).
      unfold sort_in_place. rewrite lookup_alloc.
      eexists _, _. split; [reflexivity |].
      rewrite list_lookup_insert_eq by (rewrite !length_app; cbn; lia).
      rewrite selection_cases, Ht, Hn. reflexivity.
    + rewrite comprehension_falsy by assumption.
      unfold sort_in_place. rewrite H1.
      eexists _, _. split; [reflexivity |].
      rewrite list_lookup_insert_eq by (rewrite length_app; cbn; lia).
      rewrite selection_cases, Ht, Hn. reflexivity.
  - rewrite comprehension_falsy by assumption.
    destruct (truthy names) eqn:Hn.
    + destruct (comprehension_truthy names by_names tests st l Hn Hl) as (b & -> & ->).
      unfold sort_in_place. rewrite lookup_alloc.
      eexists _, _. split; [reflexivity |].
      rewrite list_lookup_insert_eq by (rewrite length_app; cbn; lia).
      rewrite selection_cases, Ht, Hn. reflexivity.
    + rewrite comprehension_falsy by assumption.
      unfold sort_in_place. rewrite Hl.
      eexists _, _. split; [reflexivity |].
      rewrite list_lookup_insert_eq by lia.
      rewrite selection_cases, Ht, Hn. reflexivity.
Qed.

Lemma keeps_spec (tags names : option (list string)) t :
  keeps tags names t = true <->
  (forall ts, tags = Some ts -> ts <> [] ->
     exists tag, In tag ts /\ In tag (Types.tags t))
  /\ (forall ns, names = Some ns -> ns <> [] -> In (tc_name t) ns).
Proof.
  unfold keeps. rewrite andb_true_iff.
  assert (Htag : forall ts,
            existsb (fun tag => str_in tag (Types.tags t)) ts = true
            <-> exists tag, In tag ts /\ In tag (Types.tags t)).
  { intros ts. rewrite existsb_exists. unfold str_in.
    split; intros (tag & H1 & H2); exists tag; split; trivial;
      now apply PlannerFacts.existsb_eqb_In. }
  assert (Hname : forall ns, str_in (tc_name t) ns = true <-> In (tc_name t) ns).
  { intros ns. unfold str_in. apply PlannerFacts.existsb_eqb_In. }
  split.
  - intros [H1 H2]. split.
    + intros ts -> Hne. destruct ts as [| x xs]; [congruence |].
      now apply Htag.
    + intros ns -> Hne. destruct ns as [| x xs]; [congruence |].
      now apply Hname.
  - intros [H1 H2]. split.
    + destruct tags as [[| x xs] |]; cbn [truthy default]; trivial.
      apply Htag. now apply (H1 (x :: xs)).
    + destruct names as [[| x xs] |]; cbn [truthy default]; trivial.
      apply Hname. now apply (H2 (x :: xs)).
Qed.

(** X10: [filter_tests] returns exactly the tests of the input that
    carry at least one of the given tags (when tags are given) and whose
    name is among the given names (when names are given), in descending
    priority order, tests of equal priority in the order of the input. *)
Theorem filter_tests_selects_and_orders :
  forall (st : list (list (TestCaseInfo W))) (tests : nat) l
         (tags names : option (list string)),
    st !! tests = Some l ->
    exists r st' out,
      filter_tests tests tags names st = Some (r, st')
      /\ st' !! r = Some out
      /\ (forall t, In t out <->
            In t l
            /\ (forall ts, tags = Some ts -> ts <> [] ->
                  exists tag, In tag ts /\ In tag (Types.tags t))
            /\ (forall ns, names = Some ns -> ns <> [] -> In (tc_name t) ns))
      /\ Sorted (fun x y => priority y <= priority x) out
      /\ (forall p, List.filter (fun t => priority t =? p) out
                    = List.filter (fun t => priority t =? p)
                        (List.filter (keeps tags names) l)).
Proof.
  intros st tests l tags names Hl.
  destruct (filter_tests_content st tests l tags names Hl) as (r & st' & Hf & Hout).
  eexists r, st', _. split; [exact Hf |]. split; [exact Hout |].
  split; [| split].
  - intros t. rewrite <- keeps_spec.
    rewrite <- (filter_In (keeps tags names) t l). split.
    + apply Permutation_in. apply sorted_reverse_perm.
    + apply Permutation_in. symmetry. apply sorted_reverse_perm.
  - apply (Sorted_weaken (desc Z.ltb priority)).
    + intros x y Hxy. now apply Z.ltb_ge.
    + apply (sorted_reverse_sorted Z.ltb priority Zltb_asym).
  - intros p. apply sorted_reverse_stable.
Qed.

(** X11: filtering is idempotent: calling [filter_tests] with the same
    tags and names on the list a first call returned gives a list with the
    same tests in the same order. *)
Theorem filter_tests_idempotent :
  forall (st st' : list (list (TestCaseInfo W))) (tests r : nat) l
         (tags names : option (list string)),
    st !! tests = Some l ->
    filter_tests tests tags names st = Some (r, st') ->
    exists r2 st2,
      filter_tests r tags names st' = Some (r2, st2)
      /\ st2 !! r2 = st' !! r.
Proof.
  intros st st' tests r l tags names Hl Hfirst.
  destruct (filter_tests_content st tests l tags names Hl) as (r0 & st0 & Hf & Hout).
  rewrite Hfirst in Hf. injection Hf as <- <-.
  set (out := sorted_reverse Z.ltb priority (List.filter (keeps tags names) l)) in *.
  destruct (filter_tests_content st' r out tags names Hout) as (r2 & st2 & Hf2 & Hout2).
  exists r2, st2. split; [exact Hf2 |]. rewrite Hout2, Hout. f_equal.
  rewrite (filter_all (keeps tags names) out).
  - apply sorted_reverse_idempotent.
  - intros t Ht. unfold out in Ht.
    apply (Permutation_in _ (sorted_reverse_perm Z.ltb priority _)) in Ht.
    apply filter_In in Ht. tauto.
Qed.
End Filter.

Lemma filter_tests_selects_and_orders_witness :
  exists r st' out,
    filter_tests 0%nat (Some ["smoke"]) None [discovered] = Some (r, st')
    /\ st' !! r = Some out
    /\ (forall t, In t out <->
          In t discovered
          /\ (forall ts, Some ["smoke"] = Some ts -> ts <> [] ->
                exists tag, In tag ts /\ In tag (Types.tags t))
          /\ (forall ns, @None (list string) = Some ns -> ns <> [] -> In (tc_name t) ns))
    /\ Sorted (fun x y => priority y <= priority x) out
    /\ (forall p, List.filter (fun t => priority t =? p) out
                  = List.filter (fun t => priority t =? p)
                      (List.filter (keeps (Some ["smoke"]) None) discovered)).
Proof.
  apply (filter_tests_selects_and_orders [discovered] 0%nat discovered).
  reflexivity.
Defined.

Lemma filter_tests_idempotent_witness :
  exists r st' r2 st2,
    filter_tests 0%nat (Some ["smoke"]) None [discovered] = Some (r, st')
    /\ filter_tests r (Some ["smoke"]) None st' = Some (r2, st2)
    /\ st2 !! r2 = st' !! r.
Proof.
  destruct (filter_tests 0%nat (Some ["smoke"]) None [discovered])
    as [[r st'] |] eqn:Hfirst; [| vm_compute in Hfirst; discriminate Hfirst].
  destruct (filter_tests_idempotent [discovered] st' 0%nat r discovered
              (Some ["smoke"]) None eq_refl Hfirst) as (r2 & st2 & H2 & Heq).
  exists r, st', r2, st2. auto.
Defined.

End FilterFacts.

Module DecoratorFacts.
Import Py Types Runner Decorators.

Section Wrapper.
Context {W : Type}.
Variable monotonic : W -> spec_float.
Variable repr_float : Q -> string.
Variable args : test_case_args.
Variable f : handler W.

(** The wrapper leaves the world as the function it wraps leaves it. *)
Lemma wrapper_world (w : W) :
  snd (fn_call (wrapper monotonic args f) w) = snd (fn_call f w).
Proof.
  cbn [wrapper fn_call]. destruct (fn_call f w) as [b w'].
  destruct b as [v | e |]; [reflexivity | | reflexivity].
  destruct e; try reflexivity.
Qed.

Lemma wrapper_world_after (w : W) (k : nat) :
  world_after (wrapper monotonic args f) w k = world_after f w k.
Proof.
  induction k as [| k IH]; [reflexivity |].
  cbn [world_after]. now rewrite IH, wrapper_world.
Qed.

(** A call the runner does not take for final unless it is the last one
    allowed: the function raised an [Exception], or overran. *)
Definition fails_softly (b : Behaviour) : Prop :=
  match b with
  | Returns _ => False
  | Raises e => is_Exception e = true
  | Overruns => True
  end.

Lemma wrapper_soft_failure (info : TestCaseInfo W) (serial : string) (w : W) (k : nat) :
  func info = wrapper monotonic args f ->
  fails_softly (fst (fn_call f (world_after f w k))) ->
  non_pass (attempt repr_float info serial w k).
Proof.
  intros Hfunc Hsoft. unfold attempt. rewrite Hfunc, wrapper_world_after.
  cbn [wrapper fn_call]. destruct (fn_call f (world_after f w k)) as [b w'].
  cbn [fst] in Hsoft. destruct b as [v | e |]; [contradiction | |].
  - destruct e; cbn in Hsoft; try discriminate Hsoft;
      (eexists; split; [reflexivity | discriminate]).
  - eexists. split; [reflexivity | discriminate].
Qed.

(** X12: a test whose [func] is the wrapper the decorator returns is
    reported from what the wrapper measured, whatever the retry count.  If
    the calls before call [k] raised an Exception or overran and call [k],
    within the retry count, returns, the report is [PASSED]; if call [k] is
    the last one allowed, the report is [FAILED] with the assertion's
    message when it raises an AssertionError and [ERROR] with
    "Class: message" when it raises any other Exception.  In each case the
    duration is the float product, by 1000, of the float difference of the
    clock readings after and before that call, the name is the wrapper's,
    and the runner stamps the serial.  A last call that overruns is
    reported by the runner itself as timed out. *)
Theorem run_single_through_wrapper :
  forall (info : TestCaseInfo W) (serial : string) (w : W) (k : nat),
    func info = wrapper monotonic args f ->
    Z.of_nat k <= retry info ->
    (forall j, (j < k)%nat -> fails_softly (fst (fn_call f (world_after f w j)))) ->
    let before := world_after f w k in
    let after := world_after f w (S k) in
    let duration :=
      float_mul (float_sub (monotonic after) (monotonic before)) (float_of_int 1000) in
    let reported s e :=
      returned (_run_single repr_float info serial w)
      = Return (mkTestResult (test_name args f) s duration serial e [] [] []) in
    match fst (fn_call f before) with
    | Returns _ => reported PASSED None
    | Raises (AssertionError msg) =>
        Z.of_nat k = retry info -> reported FAILED (Some msg)
    | Raises e =>
        is_Exception e = true -> Z.of_nat k = retry info ->
        reported ERROR (Some (type_name e +:+ ": " +:+ str e))
    | Overruns =>
        Z.of_nat k = retry info ->
        returned (_run_single repr_float info serial w)
        = Return (TestResult_new (tc_name info) ERROR serial
                    (Some ("Test timed out after " +:+ repr_float (timeout info)
                           +:+ "s")))
    end.
Proof.
  intros info serial w k Hfunc Hk Hsoft. cbv zeta.
  assert (Hearlier : forall j, (j < k)%nat ->
            non_pass (attempt repr_float info serial w j)).
  { intros j Hj. apply wrapper_soft_failure; [exact Hfunc | now apply Hsoft]. }
  assert (Hatt : attempt repr_float info serial w k
                 = attempt_result repr_float info serial
                     (fst (fn_call (wrapper monotonic args f) (world_after f w k)))).
  { unfold attempt. now rewrite Hfunc, wrapper_world_after. }
  assert (Hlast : Z.of_nat k = retry info ->
            fails_softly (fst (fn_call f (world_after f w k))) ->
            forall tr, attempt repr_float info serial w k = Return tr ->
            returned (_run_single repr_float info serial w) = Return tr).
  { intros Hlastk Hsoftk tr Htr. unfold _run_single.
    replace (Z.to_nat (retry info + 1)) with (S k) by lia.
    destruct (attempts_all_non_pass repr_float info serial k None w 0%nat)
      as (tr' & Htr' & Hloop).
    { intros j Hj. destruct (Nat.eq_dec j k) as [-> | Hne].
      - now apply wrapper_soft_failure.
      - apply Hearlier. lia. }
    rewrite Hloop. cbn. congruence. }
  cbn [world_after]. cbn [wrapper fn_call] in Hatt.
  destruct (fn_call f (world_after f w k)) as [b w'] eqn:Hcall.
  cbn [fst snd] in *. destruct b as [v | e |].
  - unfold _run_single.
    rewrite (attempts_first_pass repr_float info serial k _ None w 0%nat
               (mkTestResult (test_name args f) PASSED
                  (float_mul (float_sub (monotonic w') (monotonic (world_after f w k)))
                     (float_of_int 1000)) serial None [] [] []));
      [reflexivity | lia | exact Hearlier | exact Hatt | reflexivity].
  - destruct e; try (intros Hexc Hlastk; apply (Hlast Hlastk Hexc); exact Hatt);
      try (intros Hlastk; apply (Hlast Hlastk eq_refl); exact Hatt).
    discriminate.
  - intros Hlastk. apply (Hlast Hlastk I). exact Hatt.
Qed.
End Wrapper.

Section Registry.
Context {W : Type}.
Variable monotonic : W -> spec_float.

(** X13: registering a second test under a name already in the registry
    replaces the first: the name now maps to the second test, the registry
    keeps its keys in the same order, and every other name maps to what it
    mapped to before. *)
Theorem test_case_last_registration_wins :
  forall (args1 args2 : test_case_args) (f1 f2 : handler W)
         (registry : list (string * TestCaseInfo W)),
    test_name args1 f1 = test_name args2 f2 ->
    let registry1 := fst (test_case monotonic args1 f1 registry) in
    let registry2 := fst (test_case monotonic args2 f2 registry1) in
    dict_get (test_name args2 f2) registry2 = Some (registered_info args2 f2)
    /\ dict_keys registry2 = dict_keys registry1
    /\ (forall k, k <> test_name args2 f2 -> dict_get k registry2 = dict_get k registry).
Proof.
  intros args1 args2 f1 f2 registry Hname. cbv zeta. unfold test_case. cbn [fst].
  split; [apply dict_get_set_same |]. split.
  - rewrite PlannerFacts.dict_keys_set.
    assert (H : existsb (String.eqb (test_name args2 f2))
                  (dict_keys (dict_set (test_name args1 f1) (registered_info args1 f1)
                                registry)) = true).
    { apply PlannerFacts.existsb_eqb_In, PlannerFacts.dict_get_In_keys.
      rewrite Hname, dict_get_set_same. discriminate. }
    now rewrite H.
  - intros k Hk.
    rewrite PlannerFacts.dict_get_set_other by congruence.
    rewrite PlannerFacts.dict_get_set_other by congruence.
    reflexivity.
Qed.
End Registry.

(** A clock that reads the number of calls made so far, in seconds. *)
Definition ticking (w : nat) : spec_float := float_of_int (Z.of_nat w).
Definition flaky_args : test_case_args := mkArgs (Some "t") None None 300%Q 2 0 "".
Definition wrapped_flaky : TestCaseInfo nat :=
  mkTestCaseInfo "t" (wrapper ticking flaky_args flaky) [] None 300%Q 2 0 "".

Lemma run_single_through_wrapper_witness :
  returned (_run_single repr_300 wrapped_flaky "A" 0%nat)
  = Return (mkTestResult "t" PASSED (float_of_int 1000) "A" None [] [] []).
Proof.
  refine (run_single_through_wrapper ticking repr_300 flaky_args flaky
            wrapped_flaky "A" 0%nat 2%nat eq_refl _ _).
  - cbn. lia.
  - intros j Hj. destruct j as [| [| j]]; [reflexivity | reflexivity | lia].
Defined.

Definition login_again : handler unit :=
  mkHandler "test_login_v2" None (fun w => (Returns RNone, w)).

Lemma test_case_last_registration_wins_witness :
  let registry1 := fst (test_case frozen_clock login_args login_fails []) in
  let registry2 := fst (test_case frozen_clock login_args login_again registry1) in
  dict_get "Login Flow Test" registry2 = Some (registered_info login_args login_again)
  /\ dict_keys registry2 = dict_keys registry1
  /\ (forall k, k <> "Login Flow Test" -> dict_get k registry2 = dict_get k []).
Proof.
  apply (test_case_last_registration_wins frozen_clock login_args login_args
           login_fails login_again []).
  reflexivity.
Defined.

End DecoratorFacts.


(** ** Further properties of the message codec *)

Module ProtocolFacts.
Import Py Protocol.

Section FilteredDict.
Context {V : Type} (p : V -> bool).

Lemma filter_keys_In (d : list (string * V)) (k : string) :
  In k (dict_keys (List.filter (fun kv => p (snd kv)) d)) -> In k (dict_keys d).
Proof.
  unfold dict_keys. induction d as [| [k0 v0] d IH]; cbn; [tauto |].
  destruct (p v0); cbn; intuition.
Qed.

Lemma filter_keys_NoDup (d : list (string * V)) :
  List.NoDup (dict_keys d) ->
  List.NoDup (dict_keys (List.filter (fun kv => p (snd kv)) d)).
Proof.
  induction d as [| [k0 v0] d IH]; cbn; [trivial |].
  intros Hnd. inversion Hnd as [| ? ? Hnotin Hrest]; subst.
  destruct (p v0); cbn; [| now apply IH].
  constructor; [| now apply IH].
  intros Hin. apply Hnotin. now apply filter_keys_In.
Qed.

Lemma dict_get_filter_value (d : list (string * V)) (k : string) :
  List.NoDup (dict_keys d) ->
  dict_get k (List.filter (fun kv => p (snd kv)) d)
  = match dict_get k d with
    | Some v => if p v then Some v else None
    | None => None
    end.
Proof.
  induction d as [| [k0 v0] d IH]; cbn; [reflexivity |].
  intros Hnd. inversion Hnd as [| ? ? Hnotin Hrest]; subst.
  destruct (String.eqb k k0) eqn:E.
  - apply String.eqb_eq in E. subst k0.
    destruct (p v0) eqn:Hp; cbn.
    + now rewrite String.eqb_refl.
    + rewrite (IH Hrest).
      destruct (dict_get k d) eqn:Hk; [| reflexivity].
      exfalso. apply Hnotin. apply PlannerFacts.dict_get_In_keys. congruence.
  - destruct (p v0); cbn; [rewrite E |]; now apply IH.
Qed.
End FilteredDict.

Lemma asdict_keys (m : Message) : dict_keys (asdict m) = __dataclass_fields__.
Proof. reflexivity. Qed.

Lemma fields_NoDup : List.NoDup __dataclass_fields__.
Proof.
  unfold __dataclass_fields__.
  repeat (constructor; [cbn; intuition discriminate |]). constructor.
Qed.

(** X14: the encoded frame holds a field exactly when the message has
    it set: no field is written as null, no key appears twice, and no key
    outside the eight envelope fields is written. *)
Theorem to_json_writes_only_set_fields :
  forall (m : Message),
  exists d,
    to_json m = VDict d
    /\ (forall k v, dict_get k d = Some v <->
          dict_get k (asdict m) = Some v /\ v <> VNone)
    /\ List.NoDup (dict_keys d)
    /\ (forall k, In k (dict_keys d) -> is_field k = true).
Proof.
  intros m. eexists. split; [reflexivity |].
  assert (Hnd : List.NoDup (dict_keys (asdict m)))
    by (rewrite asdict_keys; apply fields_NoDup).
  split; [| split].
  - intros k v. rewrite (dict_get_filter_value is_not_None _ k Hnd).
    destruct (dict_get k (asdict m)) as [v0 |]; [| split; [discriminate | tauto]].
    destruct v0; cbn; split;
      try discriminate; try (intros [= <-]; split; [reflexivity | discriminate]);
      try (intros [[= <-] H]; reflexivity); intros [[= <-] H]; congruence.
  - now apply filter_keys_NoDup.
  - intros k Hk. apply (filter_keys_In is_not_None) in Hk.
    rewrite asdict_keys in Hk. unfold is_field.
    now apply PlannerFacts.existsb_eqb_In.
Qed.

(** X15: a key of the frame that is not an envelope field has no effect
    on the decoded message. *)
Theorem from_json_ignores_unknown_fields :
  forall (uuid : string) (now : Z) (data1 data2 : list (string * value))
         (k : string) (v : value),
    is_field k = false ->
    from_json uuid now (VDict (data1 ++ (k, v) :: data2))
    = from_json uuid now (VDict (data1 ++ data2)).
Proof.
  intros uuid now data1 data2 k v Hk. unfold from_json.
  rewrite !List.filter_app. cbn [List.filter fst]. now rewrite Hk.
Qed.





(** No float anywhere in the value is a NaN, the one value that is not
    equal to itself for [==]. *)
Fixpoint nan_free (v : value) : bool :=
  match v with
  | VFloat S754_nan => false
  | VList l => forallb nan_free l
  | VDict d => forallb (fun kv => nan_free (snd kv)) d
  | _ => true
  end.

Lemma nan_free_get (k : string) (d : list (string * value)) (v : value) :
  forallb (fun kv => nan_free (snd kv)) d = true ->
  dict_get k d = Some v -> nan_free v = true.
Proof.
  induction d as [| [k' v'] d IH]; [discriminate |].
  cbn [forallb snd dict_get]. intros Hall. apply andb_true_iff in Hall.
  destruct Hall as [Hv Hrest].
  destruct (String.eqb k k'); [now intros [= <-] | now apply IH].
Qed.

Lemma nan_free_filter (p : string * value -> bool) (d : list (string * value)) :
  forallb (fun kv => nan_free (snd kv)) d = true ->
  forallb (fun kv => nan_free (snd kv)) (List.filter p d) = true.
Proof.
  induction d as [| kv d IH]; [reflexivity |].
  cbn [forallb List.filter]. intros Hall. apply andb_true_iff in Hall.
  destruct Hall as [Hv Hrest]. destruct (p kv); cbn [forallb]; [| now apply IH].
  rewrite Hv. now apply IH.
Qed.

(** X17: once decoded, a frame is stable: encoding the decoded message
    and decoding it again, under any other uuid and clock, gives the same
    message.  The frame must not carry an explicit null for [id] or [type],
    its timestamp, if it has one, must be an int, no float in it may be a
    NaN, and the clock must not read 0 when it is first decoded.  The
    encoding of the decoded message then holds no NaN either, so that the
    two messages are the same for [==] as well. *)
Theorem from_json_is_stable :
  forall (uuid uuid' : string) (now now' : Z) (data : list (string * value))
         (m : Message),
    now <> 0 ->
    dict_get "id" data <> Some VNone ->
    dict_get "type" data <> Some VNone ->
    (dict_get "timestamp" data = None
     \/ exists z, dict_get "timestamp" data = Some (VInt z)) ->
    nan_free (VDict data) = true ->
    from_json uuid now (VDict data) = Return m ->
    from_json uuid' now' (to_json m) = Return m
    /\ nan_free (to_json m) = true.
Proof.
  intros uuid uuid' now now' data m Hnow Hid Hty Hts Hnan Hdec.
  injection Hdec as <-.
  assert (Hts' : dict_get "timestamp" data <> Some VNone).
  { destruct Hts as [-> | [z ->]]; discriminate. }
  assert (Hnn : forall k dflt,
            is_field k = true -> dflt <> VNone -> dict_get k data <> Some VNone ->
            is_not_None
              match dict_get k (List.filter (fun kv => is_field (fst kv)) data) with
              | Some v => v
              | None => dflt
              end = true).
  { intros k dflt Hk Hd Hn. rewrite dict_get_filter_field by exact Hk.
    destruct (dict_get k data) as [v |].
    - destruct v; try reflexivity. congruence.
    - destruct dflt; try reflexivity. congruence. }
  split.
  - apply from_json_to_json.
    + cbn [id Message_init]. now apply Hnn.
    + cbn [type Message_init]. now apply Hnn.
    + cbn [timestamp Message_init].
      set (ts := match dict_get "timestamp" _ with Some v => v | None => VInt 0 end).
      destruct (py_eq_zero ts) eqn:E; [reflexivity |].
      subst ts. now apply Hnn.
    + now apply Message_init_timestamp.
  - cbn [nan_free] in Hnan. unfold to_json. cbn [nan_free].
    apply nan_free_filter.
    assert (Hfield : forall k dflt,
              nan_free dflt = true ->
              nan_free
                match dict_get k (List.filter (fun kv => is_field (fst kv)) data) with
                | Some v => v
                | None => dflt
                end = true).
    { intros k dflt Hd.
      destruct (dict_get k (List.filter _ data)) as [v |] eqn:Hk; [| exact Hd].
      apply (nan_free_get k (List.filter (fun kv => is_field (fst kv)) data));
        [now apply nan_free_filter | exact Hk]. }
    unfold Message_init, asdict.
    cbn [id type method params result error metadata timestamp forallb snd].
    rewrite !Hfield by reflexivity. cbn [andb].
    set (ts := match dict_get "timestamp" _ with Some v => v | None => VInt 0 end).
    assert (Hnts : nan_free ts = true) by (subst ts; now apply Hfield).
    destruct (py_eq_zero ts); [reflexivity | now rewrite Hnts].
Qed.

Lemma from_json_ignores_unknown_fields_witness :
  from_json "u" 5 (VDict ([("id", VStr "x")] ++ ("traceId", VInt 7) :: [("type", VStr "event")]))
  = from_json "u" 5 (VDict ([("id", VStr "x")] ++ [("type", VStr "event")])).
Proof.
  apply (from_json_ignores_unknown_fields "u" 5 [("id", VStr "x")]
           [("type", VStr "event")] "traceId" (VInt 7)).
  reflexivity.
Defined.

(** The double nearest to 0.009; in doubles the product with 1000 is 9.0,
    one more than the whole part of the exact product. *)
Definition nine_ms : spec_float := S754_finite false 5188146770730811 (-59).

Example nine_ms_is_9_over_1000 :
  float_div (float_of_int 9) (float_of_int 1000) = nine_ms.
Proof. vm_compute. reflexivity. Qed.




Lemma from_json_is_stable_witness :
  exists m,
    from_json "u1" 1700000000000 (VDict [("type", VStr "event"); ("timestamp", VInt 0)])
    = Return m
    /\ from_json "u2" 1700000099999 (to_json m) = Return m
    /\ nan_free (to_json m) = true.
Proof.
  eexists. split; [reflexivity |].
  apply (from_json_is_stable "u1" "u2" 1700000000000 1700000099999
           [("type", VStr "event"); ("timestamp", VInt 0)]);
    try discriminate; try reflexivity.
  right. now exists 0.
Defined.

End ProtocolFacts.


(** ** Further properties of the device client *)

Module ClientFacts.
Import Py Config Client.

Lemma listen_step_slot (rid : string) (fut : nat) (i : incoming) (c c' : DeviceClient) :
  _pending c !! rid = Some fut ->
  ~ is_response_for rid i ->
  listen_control_step i c = Return c' ->
  _pending c' !! rid = Some fut.
Proof.
  intros Hslot Hnot Hstep. unfold listen_control_step in Hstep.
  destruct (Protocol.from_json (in_uuid i) (in_now i) (in_frame i)) as [msg | e] eqn:Hdec;
    [| discriminate Hstep].
  cbn [bind] in Hstep.
  destruct (Protocol.value_is_str (Protocol.type msg) "response") eqn:Hty.
  2:{ now injection Hstep as <-. }
  apply value_is_str_true in Hty.
  destruct (Protocol.id msg) as [| b | z | f | s | l | d] eqn:Hid; cbn in Hstep;
    try discriminate Hstep;
    try (injection Hstep as <-; now rewrite set_pending_same).
  assert (Hne : s <> rid).
  { intros ->. apply Hnot. now exists msg. }
  assert (Hkept : delete s (_pending c) !! rid = Some fut)
    by now rewrite lookup_delete_ne.
  destruct (_pending c !! s) as [f |].
  - destruct (futures c !! f) as [[| | |] |]; now injection Hstep as <-.
  - now injection Hstep as <-.
Qed.

Lemma listen_slot (rid : string) (fut : nat) (frames : list incoming) :
  forall c c',
    _pending c !! rid = Some fut ->
    (forall i, In i frames -> ~ is_response_for rid i) ->
    listen_control frames c = Return c' ->
    _pending c' !! rid = Some fut.
Proof.
  induction frames as [| i rest IH]; intros c c' Hslot Hnone Hrun; cbn in Hrun.
  - now injection Hrun as <-.
  - destruct (listen_control_step i c) as [c1 |] eqn:Hstep; [| discriminate Hrun].
    cbn [bind] in Hrun. apply (IH c1 c'); trivial.
    + apply (listen_step_slot rid fut i c c1); trivial. apply Hnone. now left.
    + intros j Hj. apply Hnone. now right.
Qed.

(** X18: a response is matched to its request by id.  Whatever other
    frames the listener handles first, when the response carrying the id of
    a request is handled, the slot leaves the table and the waiting [send]
    gets that very message and leaves the client as it is.  It returns the
    message when its error is [None].  It raises AutoTestError otherwise:
    with the values the error dict holds under ["message"] and ["code"],
    passed on as they are whatever their type ("Unknown error" and 0 where
    the key is missing), or with "" and 0 when the error is empty or
    otherwise falsy; an error that is truthy and not a dict has no [get],
    which is an AttributeError. *)
Theorem send_receives_its_response :
  forall (repr_float : spec_float -> string) (py_repr : value -> string)
         (uuid : string) (now : Z) (method : string)
         (params : value) (timeout : option spec_float) (frames : list incoming)
         (c c1 c2 : DeviceClient) (a : awaiting) (i : incoming)
         (msg : Protocol.Message),
    table_ok c ->
    send_begin uuid now (Return tt) method params timeout c = (Return a, c1) ->
    (forall j, In j frames -> ~ is_response_for (aw_id a) j) ->
    listen_control frames c1 = Return c2 ->
    Protocol.from_json (in_uuid i) (in_now i) (in_frame i) = Return msg ->
    Protocol.type msg = VStr "response" ->
    Protocol.id msg = VStr (aw_id a) ->
    exists c3,
      listen_control_step i c2 = Return c3
      /\ _pending c3 !! aw_id a = None
      /\ snd (send_finish repr_float py_repr a c3) = c3
      /\ fst (send_finish repr_float py_repr a c3)
         = match Protocol.error msg with
           | VNone => Return msg
           | VDict ((k, v) :: d) =>
               let message := match dict_get "message" ((k, v) :: d) with
                              | Some m => m
                              | None => VStr "Unknown error"
                              end in
               let code := match dict_get "code" ((k, v) :: d) with
                           | Some m => m
                           | None => VInt 0
                           end in
               Raise (AutoTestError message code (str_value py_repr message))
           | VDict [] | VBool false | VInt 0 | VFloat (S754_zero _)
           | VStr EmptyString | VList [] =>
               Raise (AutoTestError (VStr "") (VInt 0) "")
           | v => Raise (no_attribute v "get")
           end.
Proof.
  intros repr_float py_repr uuid now method params timeout frames c c1 c2 a i msg
         Hok Hsend Hnone Hrun Hdec Hty Hmid.
  destruct (send_begin_waiting uuid now method params timeout c c1 a Hok Hsend)
    as (Hid & req & _ & Hw1).
  assert (Hslot1 : _pending c1 !! uuid = Some (aw_future a)).
  { unfold send_begin in Hsend. destruct (_control_ws c); [| discriminate Hsend].
    destruct (Protocol.request uuid now method params _); [| discriminate Hsend].
    injection Hsend as <- <-. cbn. apply lookup_insert_eq. }
  rewrite Hid in *.
  pose proof (listen_waiting uuid (aw_future a) _ frames c1 c2 Hw1 Hnone Hrun)
    as (Hfut & _ & _).
  pose proof (listen_slot uuid (aw_future a) frames c1 c2 Hslot1 Hnone Hrun) as Hslot.
  unfold listen_control_step. rewrite Hdec. cbn [bind].
  rewrite Hty, value_is_str_refl, Hmid. cbn [pop_pending bind].
  rewrite Hslot. cbn [futures set_pending]. rewrite Hfut.
  eexists. split; [reflexivity |].
  assert (Hlt : (aw_future a < length (futures c2))%nat)
    by (apply lookup_lt_is_Some; eauto).
  split; [cbn; apply lookup_delete_eq |].
  unfold send_finish. cbn [futures set_futures].
  rewrite list_lookup_insert_eq by exact Hlt.
  unfold Protocol.is_success, Protocol.error_message, Protocol.error_code,
    Protocol.error_get.
  rewrite Hty, value_is_str_refl.
  split.
  - now destruct (Protocol.is_not_None (Protocol.error msg)).
  - destruct (Protocol.error msg)
      as [| [|] | [| p | p] | [s | s | | s m e] | [| ch st] | [| x l] | [| [k v] d]];
      reflexivity.
Qed.

Lemma listener_step_keeps (i : incoming) (c c' : DeviceClient) :
  listen_control_step i c = Return c' ->
  control_out c' = control_out c
  /\ notified c' = notified c
  /\ length (futures c') = length (futures c)
  /\ (forall fut f, futures c !! fut = Some f -> done f = true ->
        futures c' !! fut = Some f)
  /\ (forall k f, _pending c' !! k = Some f -> _pending c !! k = Some f).
Proof.
  intros Hstep. unfold listen_control_step in Hstep.
  destruct (Protocol.from_json (in_uuid i) (in_now i) (in_frame i)) as [msg | e];
    [| discriminate Hstep].
  cbn [bind] in Hstep.
  destruct (Protocol.value_is_str (Protocol.type msg) "response").
  2:{ injection Hstep as <-. now repeat split. }
  destruct (Protocol.id msg) as [| b | z | f | s | l | d]; cbn in Hstep;
    try discriminate Hstep;
    try (injection Hstep as <-; rewrite set_pending_same; now repeat split).
  assert (Hsub : forall k f, delete s (_pending c) !! k = Some f ->
                   _pending c !! k = Some f).
  { intros k f Hk. now apply lookup_delete_Some in Hk. }
  destruct (_pending c !! s) as [f |].
  - destruct (futures c !! f) as [[| | |] |] eqn:Hf;
      injection Hstep as <-; cbn; repeat split; trivial.
    + apply length_insert.
    + intros fut g Hg Hdone.
      destruct (decide (f = fut)) as [-> | Hne].
      * rewrite Hf in Hg. injection Hg as <-. discriminate Hdone.
      * now rewrite list_lookup_insert_ne.
  - injection Hstep as <-. cbn. now repeat split.
Qed.

(** X19: handling frames on the control channel never writes to the
    socket, never calls an event subscriber, never adds a slot to the
    pending table and never changes a future that is already done: a
    request is completed at most once. *)
Theorem listener_completes_at_most_once :
  forall (frames : list incoming) (c c' : DeviceClient),
    listen_control frames c = Return c' ->
    control_out c' = control_out c
    /\ notified c' = notified c
    /\ length (futures c') = length (futures c)
    /\ (forall fut f, futures c !! fut = Some f -> done f = true ->
          futures c' !! fut = Some f)
    /\ (forall k f, _pending c' !! k = Some f -> _pending c !! k = Some f).
Proof.
  induction frames as [| i rest IH]; intros c c' Hrun; cbn in Hrun.
  - injection Hrun as <-. now repeat split.
  - destruct (listen_control_step i c) as [c1 |] eqn:Hstep; [| discriminate Hrun].
    cbn [bind] in Hrun.
    destruct (listener_step_keeps i c c1 Hstep) as (H1 & H2 & H3 & H4 & H5).
    destruct (IH c1 c' Hrun) as (G1 & G2 & G3 & G4 & G5).
    split; [congruence |]. split; [congruence |]. split; [congruence |].
    split; eauto.
Qed.

Definition fail_step (kv : string * nat) (fs : list future) : list future :=
  match fs !! snd kv with
  | Some FPending => <[snd kv := FException (ConnectionError "Disconnected")]> fs
  | _ => fs
  end.

Lemma fail_step_done (kv : string * nat) (fs : list future) (g : nat) (f : future) :
  fs !! g = Some f -> done f = true -> fail_step kv fs !! g = Some f.
Proof.
  intros Hg Hdone. unfold fail_step.
  destruct (fs !! snd kv) as [[| | |] |] eqn:E; trivial.
  destruct (decide (snd kv = g)) as [Heq | Hne].
  - rewrite Heq, Hg in E. injection E as ->. discriminate Hdone.
  - now rewrite list_lookup_insert_ne.
Qed.

Lemma fold_fail_done (kvs : list (string * nat)) (fs : list future) (g : nat) (f : future) :
  fs !! g = Some f -> done f = true ->
  fold_right fail_step fs kvs !! g = Some f.
Proof.
  intros Hg Hdone. induction kvs as [| kv kvs IH]; [exact Hg |].
  cbn [fold_right]. now apply fail_step_done.
Qed.

Lemma fold_fail_pending (kvs : list (string * nat)) (fs : list future) (g : nat) :
  fs !! g = Some FPending ->
  fold_right fail_step fs kvs !! g = Some FPending
  \/ fold_right fail_step fs kvs !! g
     = Some (FException (ConnectionError "Disconnected")).
Proof.
  intros Hg. induction kvs as [| kv kvs IH]; [now left |].
  cbn [fold_right]. set (fs0 := fold_right fail_step fs kvs) in *.
  unfold fail_step.
  destruct (fs0 !! snd kv) as [[| | |] |] eqn:E; trivial.
  destruct (decide (snd kv = g)) as [Heq | Hne].
  - right. rewrite <- Heq. apply list_lookup_insert_eq.
    apply lookup_lt_is_Some. eauto.
  - now rewrite list_lookup_insert_ne.
Qed.

Lemma fold_fail_listed (kvs : list (string * nat)) (fs : list future) (k : string) (g : nat) :
  In (k, g) kvs ->
  fs !! g = Some FPending ->
  fold_right fail_step fs kvs !! g
  = Some (FException (ConnectionError "Disconnected")).
Proof.
  intros Hin Hg. induction kvs as [| kv kvs IH]; [destruct Hin |].
  cbn [fold_right]. set (fs0 := fold_right fail_step fs kvs) in *.
  destruct Hin as [-> | Hin].
  - unfold fail_step. cbn [snd].
    destruct (fold_fail_pending kvs fs g Hg) as [H | H]; fold fs0 in H; rewrite H.
    + apply list_lookup_insert_eq. apply lookup_lt_is_Some. eauto.
    + exact H.
  - specialize (IH Hin). now apply fail_step_done.
Qed.

(** X20: [disconnect] fails every request still waiting: the table is
    emptied, the client is no longer connected, the future of each slot
    that was pending holds the error "Disconnected", so the [send] waiting
    on it raises that connection error; futures already done are left as
    they were. *)
Theorem disconnect_fails_pending_requests :
  forall (repr_float : spec_float -> string) (py_repr : value -> string)
         (c : DeviceClient) (a : awaiting),
    _pending c !! aw_id a = Some (aw_future a) ->
    futures c !! aw_future a = Some FPending ->
    _pending (disconnect c) = ∅
    /\ is_connected (disconnect c) = false
    /\ send_finish repr_float py_repr a (disconnect c)
       = (Raise (ConnectionError "Disconnected"), disconnect c)
    /\ (forall g f, futures c !! g = Some f -> done f = true ->
          futures (disconnect c) !! g = Some f).
Proof.
  intros repr_float py_repr c a Hslot Hfut.
  split; [reflexivity |]. split; [reflexivity |].
  assert (Hfold : futures (disconnect c)
                  = fold_right fail_step (futures c) (map_to_list (_pending c)))
    by reflexivity.
  split.
  - unfold send_finish. rewrite Hfold.
    rewrite (fold_fail_listed _ _ (aw_id a) (aw_future a)); trivial.
    apply list_elem_of_In. now apply elem_of_map_to_list.
  - intros g f Hg Hdone. rewrite Hfold. now apply fold_fail_done.
Qed.

(** The agent's answer to a request it cannot serve; the code is a string
    here, and is passed on as one. *)
Definition error_frame (rid : string) : value :=
  VDict [("id", VStr rid); ("type", VStr "response");
         ("error", VDict [("code", VStr "E4001"); ("message", VStr "element not found")]);
         ("timestamp", VInt 1700000000500)].

Lemma send_receives_its_response_witness :
  exists a c1 c2 c3,
    send_begin "r-1" 1700000000000 (Return tt) "device.info" VNone (Some tenth)
      connected_client = (Return a, c1)
    /\ listen_control early_frames c1 = Return c2
    /\ listen_control_step (mkIncoming "u3" 1700000000500 (error_frame "r-1")) c2
       = Return c3
    /\ _pending c3 !! "r-1" = None
    /\ send_finish repr_tenth repr_json a c3
       = (Raise (AutoTestError (VStr "element not found") (VStr "E4001")
                   "element not found"), c3).
Proof.
  destruct (send_begin "r-1" 1700000000000 (Return tt) "device.info" VNone
              (Some tenth) connected_client) as [ra c1] eqn:Hsend.
  destruct ra as [a | e]; [| vm_compute in Hsend; discriminate Hsend].
  assert (Hid : aw_id a = "r-1").
  { vm_compute in Hsend. now injection Hsend as <- _. }
  destruct (listen_control early_frames c1) as [c2 | e] eqn:Hrun.
  2:{ vm_compute in Hsend. injection Hsend as _ <-. vm_compute in Hrun.
      discriminate Hrun. }
  assert (Hok : table_ok connected_client).
  { intros k f Hk. cbn in Hk. now rewrite lookup_empty in Hk. }
  assert (Hnone : forall i, In i early_frames -> ~ is_response_for (aw_id a) i).
  { rewrite Hid. intros i [<- | [<- | []]] (m & Hdec & Hty & Hmid).
    - injection Hdec as <-. discriminate Hmid.
    - injection Hdec as <-. discriminate Hty. }
  destruct (send_receives_its_response repr_tenth repr_json "r-1" 1700000000000
              "device.info" VNone (Some tenth) early_frames connected_client c1 c2 a
              (mkIncoming "u3" 1700000000500 (error_frame "r-1")) _
              Hok Hsend Hnone Hrun eq_refl eq_refl (f_equal VStr (eq_sym Hid)))
    as (c3 & Hstep & Hgone & Hsame & Hraise).
  exists a, c1, c2, c3.
  rewrite Hid in Hgone.
  split; [reflexivity |]. split; [exact Hrun |]. split; [exact Hstep |].
  split; [exact Hgone |].
  destruct (send_finish repr_tenth repr_json a c3) as [r c4].
  cbn [fst snd] in Hsame, Hraise. now rewrite Hsame, Hraise.
Defined.

Lemma listener_completes_at_most_once_witness :
  exists c',
    listen_control early_frames connected_client = Return c'
    /\ control_out c' = control_out connected_client
    /\ notified c' = notified connected_client.
Proof.
  eexists. split; [reflexivity |].
  destruct (listener_completes_at_most_once early_frames connected_client _ eq_refl)
    as (H1 & H2 & _).
  split; [exact H1 | exact H2].
Defined.

Definition waiting_client : DeviceClient :=
  mkClient "A" "127.0.0.1" (mkDeviceConfig 28900 28901 28902
            (float_of_int 10) (float_of_int 30) (float_of_int 5))
    (Some (mkEndpoint "127.0.0.1" 28900 "/control"))
    (Some (mkEndpoint "127.0.0.1" 28902 "/events"))
    {["r-1" := 0%nat]} [] true true [FPending] [] [].

Lemma disconnect_fails_pending_requests_witness :
  _pending (disconnect waiting_client) = ∅
  /\ is_connected (disconnect waiting_client) = false
  /\ send_finish repr_tenth repr_json (mkAwaiting "r-1" 0 "device.info" tenth)
       (disconnect waiting_client)
     = (Raise (ConnectionError "Disconnected"), disconnect waiting_client).
Proof.
  destruct (disconnect_fails_pending_requests repr_tenth repr_json waiting_client
              (mkAwaiting "r-1" 0 "device.info" tenth)) as (H1 & H2 & H3 & _).
  - cbn. apply lookup_singleton_eq.
  - reflexivity.
  - auto.
Defined.

End ClientFacts.


(** ** Further properties of the device manager *)

Module ManagerFacts.
Import Py Config Manager.

Lemma client_connect_connected (dial : Client.endpoint -> res unit)
    (c c' : Client.DeviceClient) :
  Client.connect dial c = (Return tt, c') ->
  Client.is_connected c' = true /\ Client.serial c' = Client.serial c
  /\ Client.config c' = Client.config c.
Proof.
  unfold Client.connect.
  destruct (dial _) as [[] | e].
  - destruct (dial _) as [[] | e].
    + intros [= <-]. now repeat split.
    + destruct (is_Exception e); discriminate.
  - destruct (is_Exception e); discriminate.
Qed.

(** The three forwards of a port block all succeed. *)
Definition forwards_succeed (env : Env) (serial : string) (m : DeviceManager) : Prop :=
  forall r, In r (rules_before serial (_next_local_port m) (config m) 3) ->
    forward_ok env (fst (fst r)) (snd (fst r)) (snd r) = true.

Lemma forward_loop_succeeds (env : Env) (serial : string) (m : DeviceManager) (h : Host) :
  forwards_succeed env serial m ->
  forward_loop env serial (_next_local_port m) 0 (channel_ports (config m)) h
  = (Return tt,
     mkHost (forwards h ++ rules_before serial (_next_local_port m) (config m) 3)
       (adb_calls h ++
        [AdbForward serial (_next_local_port m + 0) (control_port (config m)) true;
         AdbForward serial (_next_local_port m + 1) (binary_port (config m)) true;
         AdbForward serial (_next_local_port m + 2) (event_port (config m)) true])).
Proof.
  intros Hok. unfold channel_ports. cbn [forward_loop adb_forward].
  change (0 + 1 + 1) with 2. change (0 + 1) with 1.
  pose proof (Hok _ (or_introl eq_refl)) as H0.
  pose proof (Hok _ (or_intror (or_introl eq_refl))) as H1.
  pose proof (Hok _ (or_intror (or_intror (or_introl eq_refl)))) as H2.
  cbn [fst snd] in H0, H1, H2. rewrite H0, H1, H2.
  cbn. now rewrite <- !app_assoc.
Qed.

(** The client [connect] builds for a new connection. *)
Definition new_client (serial : string) (m : DeviceManager) : Client.DeviceClient :=
  Client.DeviceClient_new serial "127.0.0.1"
    (mkDeviceConfig (_next_local_port m) (_next_local_port m + 1)
       (_next_local_port m + 2) (connect_timeout (config m))
       (command_timeout (config m)) (heartbeat_interval Config.default)).

(** X21: when the three forwards and the two socket connections
    succeed, [connect] returns a connected client for the serial, bound to
    the three local ports of the block; the three forward rules are
    installed, the client and the first port of the block are registered
    under the serial, and the port counter has moved on by 3. *)
Theorem connect_installs_and_registers :
  forall (env : Env) (serial : string) (m : DeviceManager) (h : Host),
    not_connected serial m ->
    forwards_succeed env serial m ->
    dial env (Client.mkEndpoint "127.0.0.1" (_next_local_port m) "/control") = Return tt ->
    dial env (Client.mkEndpoint "127.0.0.1" (_next_local_port m + 2) "/events") = Return tt ->
    exists client h',
      connect env serial m h
      = (Return client,
         mkManager (config m) (<[serial := client]> (_clients m))
           (<[serial := _next_local_port m]> (_port_map m)) (_next_local_port m + 3),
         h')
      /\ forwards h' = forwards h ++ rules_before serial (_next_local_port m) (config m) 3
      /\ Client.is_connected client = true
      /\ Client.serial client = serial
      /\ control_port (Client.config client) = _next_local_port m
      /\ binary_port (Client.config client) = _next_local_port m + 1
      /\ event_port (Client.config client) = _next_local_port m + 2.
Proof.
  intros env serial m h Hnc Hfw Hd1 Hd2.
  rewrite connect_not_reused by assumption. cbv zeta. cbn [config].
  rewrite (forward_loop_succeeds env serial m h Hfw).
  unfold Client.connect. cbn [Client.host Client.config Client.DeviceClient_new
                               control_port event_port].
  rewrite Hd1. cbn [Client.set_control_ws Client.host Client.config event_port].
  rewrite Hd2.
  eexists _, _. split; [reflexivity |]. now repeat split.
Qed.

Lemma connect_returns_registered (env : Env) (serial : string) (m m' : DeviceManager)
    (h h' : Host) (client : Client.DeviceClient) :
  connect env serial m h = (Return client, m', h') ->
  _clients m' !! serial = Some client /\ Client.is_connected client = true.
Proof.
  unfold connect.
  destruct (_clients m !! serial) as [c |] eqn:Hc.
  - destruct (Client.is_connected c) eqn:Hconn.
    + intros [= <- <- <-]. now split.
    + destruct (forward_loop _ _ _ _ _ _) as [[[] | e] h1]; [| discriminate].
      destruct (Client.connect _ _) as [[[] | e] c1] eqn:Hcc; [| discriminate].
      intros [= <- <- <-]. cbn. split; [apply lookup_insert_eq |].
      now apply client_connect_connected in Hcc.
  - destruct (forward_loop _ _ _ _ _ _) as [[[] | e] h1]; [| discriminate].
    destruct (Client.connect _ _) as [[[] | e] c1] eqn:Hcc; [| discriminate].
    intros [= <- <- <-]. cbn. split; [apply lookup_insert_eq |].
    now apply client_connect_connected in Hcc.
Qed.

(** X22: [connect] is idempotent per serial: once it has returned a
    client, calling it again for the same serial returns the same client
    and changes nothing: no ADB command is run, no port is allocated. *)
Theorem connect_twice_returns_same_client :
  forall (env env' : Env) (serial : string) (m m' : DeviceManager) (h h' : Host)
         (client : Client.DeviceClient),
    connect env serial m h = (Return client, m', h') ->
    connect env' serial m' h' = (Return client, m', h').
Proof.
  intros env env' serial m m' h h' client Hfirst.
  destruct (connect_returns_registered env serial m m' h h' client Hfirst)
    as [Hreg Hconn].
  unfold connect. now rewrite Hreg, Hconn.
Qed.

(** X23: when the forwards succeed but the control socket cannot be
    opened, [connect] raises the client's connection error; nothing is
    registered, yet the three forward rules stay installed and the port
    block stays consumed. *)
Theorem connect_socket_failure_leaves_forwards :
  forall (env : Env) (serial : string) (m : DeviceManager) (h : Host) (cause : exn),
    not_connected serial m ->
    forwards_succeed env serial m ->
    dial env (Client.mkEndpoint "127.0.0.1" (_next_local_port m) "/control") = Raise cause ->
    is_Exception cause = true ->
    exists h',
      connect env serial m h
      = (Raise (ConnectionError
                  ("Failed to connect to device " +:+ serial +:+ ": " +:+ str cause)),
         mkManager (config m) (_clients m) (_port_map m) (_next_local_port m + 3),
         h')
      /\ forwards h' = forwards h ++ rules_before serial (_next_local_port m) (config m) 3.
Proof.
  intros env serial m h cause Hnc Hfw Hd Hexc.
  rewrite connect_not_reused by assumption. cbv zeta. cbn [config].
  rewrite (forward_loop_succeeds env serial m h Hfw).
  unfold Client.connect. cbn [Client.host Client.config Client.DeviceClient_new
                               control_port event_port].
  rewrite Hd, Hexc.
  eexists. split; reflexivity.
Qed.

Lemma filter_rules_none (serial : string) (port : Z) (l : list (string * Z * Z)) :
  existsb (same_rule serial port) l = false ->
  List.filter (fun r => negb (same_rule serial port r)) l = l.
Proof.
  intros Hnone. apply SortFacts.filter_all. intros r Hr.
  destruct (same_rule serial port r) eqn:E; [| reflexivity].
  assert (H : existsb (same_rule serial port) l = true)
    by (apply existsb_exists; eauto).
  congruence.
Qed.

Lemma same_rule_here (serial : string) (port remote : Z) :
  same_rule serial port (serial, port, remote) = true.
Proof. unfold same_rule. cbn. now rewrite String.eqb_refl, Z.eqb_refl. Qed.

Lemma same_rule_elsewhere (serial : string) (port port' remote : Z) :
  port' <> port -> same_rule serial port (serial, port', remote) = false.
Proof.
  intros Hne. unfold same_rule. cbn. rewrite String.eqb_refl. cbn.
  now apply Z.eqb_neq.
Qed.

(** X24: disconnecting a device that [connect] has just connected
    undoes it: with every removal succeeding, and no rule of this device on
    the ports of the block beforehand, the host's forward table is back to
    what it was before [connect], and the serial has no client and no port
    any more.  The port counter is not taken back. *)
Theorem connect_then_disconnect :
  forall (env env' : Env) (serial : string) (m m' : DeviceManager) (h h' : Host)
         (client : Client.DeviceClient),
    not_connected serial m ->
    _next_local_port m <> 0 ->
    (forall offset, In offset [0; 1; 2] ->
        forward_installed serial (_next_local_port m + offset) h = false
        /\ forward_remove_ok env' serial (_next_local_port m + offset) = true) ->
    connect env serial m h = (Return client, m', h') ->
    let '(m'', h'') := disconnect env' serial m' h' in
    forwards h'' = forwards h
    /\ get_client serial m'' = None
    /\ _port_map m'' !! serial = None
    /\ _next_local_port m'' = _next_local_port m + 3.
Proof.
  intros env env' serial m m' h h' client Hnc Hp Hfree Hconn.
  rewrite connect_not_reused in Hconn by assumption. cbv zeta in Hconn.
  cbn [config] in Hconn.
  destruct (forward_loop env serial (_next_local_port m) 0 (channel_ports (config m)) h)
    as [[[] | e] h1] eqn:Hloop; [| discriminate Hconn].
  destruct (Client.connect _ _) as [[[] | e] c1]; [| discriminate Hconn].
  injection Hconn as <- <- <-.
  assert (Hfw : forwards h1
                = forwards h ++ rules_before serial (_next_local_port m) (config m) 3).
  { revert Hloop. unfold channel_ports. cbn [forward_loop adb_forward].
    change (0 + 1 + 1) with 2. change (0 + 1) with 1.
    destruct (forward_ok env serial (_next_local_port m + 0) _); [| discriminate].
    destruct (forward_ok env serial (_next_local_port m + 1) _); [| discriminate].
    destruct (forward_ok env serial (_next_local_port m + 2) _); [| discriminate].
    intros [= <-]. cbn. now rewrite <- !app_assoc. }
  destruct (Hfree 0 ltac:(cbn; auto)) as [Hf0 Hr0].
  destruct (Hfree 1 ltac:(cbn; auto)) as [Hf1 Hr1].
  destruct (Hfree 2 ltac:(cbn; auto)) as [Hf2 Hr2].
  unfold forward_installed in Hf0, Hf1, Hf2.
  unfold disconnect. cbn [_clients _port_map _next_local_port config].
  rewrite !lookup_insert_eq.
  destruct (_next_local_port m =? 0) eqn:Hz; [apply Z.eqb_eq in Hz; contradiction |].
  cbn [remove_loop adb_forward_remove snd forwards].
  rewrite Hr0, Hr1, Hr2, Hfw. unfold rules_before. cbn [firstn].
  split; [| split; [| split]].
  - rewrite !List.filter_app.
    rewrite (filter_rules_none serial (_next_local_port m + 0)) by exact Hf0.
    rewrite (filter_rules_none serial (_next_local_port m + 1)) by exact Hf1.
    rewrite (filter_rules_none serial (_next_local_port m + 2)) by exact Hf2.
    repeat (cbn [List.filter negb];
            rewrite ?same_rule_here, ?same_rule_elsewhere by lia).
    apply app_nil_r.
  - unfold get_client. cbn. apply lookup_delete_eq.
  - cbn. apply lookup_delete_eq.
  - reflexivity.
Qed.

Lemma connect_keeps_connected (env : Env) (serial : string) (m m' : DeviceManager)
    (h h' : Host) (r : res Client.DeviceClient) (k : string) (c : Client.DeviceClient) :
  connect env serial m h = (r, m', h') ->
  _clients m !! k = Some c -> Client.is_connected c = true ->
  _clients m' !! k = Some c.
Proof.
  intros Hconn Hk Hc. unfold connect in Hconn.
  assert (Hnew : (forall c0, _clients m !! serial = Some c0 ->
                    Client.is_connected c0 = false) ->
                 forall cl, <[serial := cl]> (_clients m) !! k = Some c).
  { intros Hstale cl. destruct (decide (serial = k)) as [-> | Hne].
    - rewrite (Hstale c Hk) in Hc. discriminate Hc.
    - now rewrite lookup_insert_ne. }
  destruct (_clients m !! serial) as [c0 |] eqn:Hs.
  - destruct (Client.is_connected c0) eqn:Hconn0.
    + now injection Hconn as _ <- _.
    + destruct (forward_loop _ _ _ _ _ _) as [[[] | e] h1];
        [| now injection Hconn as _ <- _].
      destruct (Client.connect _ _) as [[[] | e] c1];
        [| now injection Hconn as _ <- _].
      injection Hconn as _ <- _. cbn. apply Hnew. now intros c2 [= <-].
  - destruct (forward_loop _ _ _ _ _ _) as [[[] | e] h1];
      [| now injection Hconn as _ <- _].
    destruct (Client.connect _ _) as [[[] | e] c1];
      [| now injection Hconn as _ <- _].
    injection Hconn as _ <- _. cbn. apply Hnew. discriminate.
Qed.

(** A client of the list is connected and registered under a serial of
    the device list. *)
Definition usable (devices : list AdbDevice) (m : DeviceManager)
    (c : Client.DeviceClient) : Prop :=
  Client.is_connected c = true
  /\ exists d, In d devices /\ get_client (adb_serial d) m = Some c.

Lemma connect_each_usable (env : Env) (all : list AdbDevice) (devices : list AdbDevice) :
  forall clients m h clients' m' h',
    (forall d, In d devices -> In d all) ->
    Forall (usable all m) clients ->
    connect_each env devices clients m h = (Return clients', m', h') ->
    Forall (usable all m') clients'
    /\ (length clients' <= length clients + length devices)%nat.
Proof.
  induction devices as [| device rest IH];
    intros clients m h clients' m' h' Hsub Hall Hrun; cbn [connect_each] in Hrun.
  - injection Hrun as <- <- <-. split; [exact Hall | cbn; lia].
  - destruct (connect env (adb_serial device) m h) as [[r m1] h1] eqn:Hconn.
    assert (Hkeep : Forall (usable all m1) clients).
    { eapply List.Forall_impl; [| exact Hall].
      intros c (Hc & d & Hd & Hget). split; [exact Hc |].
      exists d. split; [exact Hd |]. unfold get_client in *.
      eapply connect_keeps_connected; eassumption. }
    destruct r as [client | e].
    + destruct (connect_returns_registered _ _ _ _ _ _ _ Hconn) as [Hreg Hc].
      destruct (IH (clients ++ [client]) m1 h1 clients' m' h') as [H1 H2]; trivial.
      * intros d Hd. apply Hsub. now right.
      * apply Forall_app. split; [exact Hkeep |].
        constructor; [| constructor]. split; [exact Hc |].
        exists device. split; [apply Hsub; now left | exact Hreg].
      * split; [exact H1 |]. rewrite length_app in H2. cbn [length] in *. lia.
    + destruct (is_Exception e); [| discriminate Hrun].
      destruct (IH clients m1 h1 clients' m' h') as [H1 H2]; trivial.
      * intros d Hd. apply Hsub. now right.
      * split; [exact H1 |]. cbn [length]. lia.
Qed.

(** X25: every client [connect_all] returns is connected and is
    registered in the manager under the serial of a device that ADB lists in
    state ["device"]; there are at most as many clients as such devices. *)
Theorem connect_all_returns_usable_clients :
  forall (env : Env) (m m' : DeviceManager) (h h' : Host)
         (clients : list Client.DeviceClient),
    connect_all env m h = (Return clients, m', h') ->
    let online :=
      List.filter (fun d => String.eqb (adb_state d) "device") (devices_listing env) in
    Forall (usable online m') clients
    /\ (length clients <= length online)%nat.
Proof.
  intros env m m' h h' clients Hall. cbv zeta.
  unfold connect_all, discover, adb_devices in Hall.
  destruct (connect_each_usable env
              (List.filter (fun d => String.eqb (adb_state d) "device") (devices_listing env))
              (List.filter (fun d => String.eqb (adb_state d) "device") (devices_listing env))
              [] m _ clients m' h' (fun d H => H) (List.Forall_nil _) Hall) as [H1 H2].
  split; [exact H1 | exact H2].
Qed.

Definition all_good : Env :=
  mkEnv [mkAdbDevice "A" "device" "Pixel" ""; mkAdbDevice "B" "offline" "" ""]
    (fun _ _ _ => true) (fun _ _ => true) (fun _ => Return tt).

Definition no_agent : Env :=
  mkEnv [mkAdbDevice "A" "device" "Pixel" ""]
    (fun _ _ _ => true) (fun _ _ => true)
    (fun _ => Raise (OtherException "OSError" "connection refused")).

Definition fresh_manager : DeviceManager := DeviceManager_new Config.default.

Lemma fresh_not_connected (serial : string) : not_connected serial fresh_manager.
Proof. intros c Hc. cbn in Hc. now rewrite lookup_empty in Hc. Qed.

Lemma all_good_forwards (serial : string) (m : DeviceManager) :
  forwards_succeed all_good serial m.
Proof. intros r _. reflexivity. Qed.

Lemma all_good_connects :
  exists client m' h',
    connect all_good "A" fresh_manager (mkHost [] []) = (Return client, m', h').
Proof. eexists _, _, _. reflexivity. Qed.

Lemma connect_installs_and_registers_witness :
  exists client h',
    connect all_good "A" fresh_manager (mkHost [] [])
    = (Return client,
       mkManager Config.default (<[ "A" := client ]> ∅) (<[ "A" := 28900 ]> ∅) 28903, h')
    /\ forwards h' = [("A", 28900, 18900); ("A", 28901, 18901); ("A", 28902, 18902)]
    /\ Client.is_connected client = true.
Proof.
  destruct (connect_installs_and_registers all_good "A" fresh_manager (mkHost [] [])
              (fresh_not_connected "A") (all_good_forwards "A" fresh_manager)
              eq_refl eq_refl) as (client & h' & Hc & Hf & Hconn & _).
  exists client, h'. split; [exact Hc |]. split; [exact Hf | exact Hconn].
Defined.

Lemma connect_twice_returns_same_client_witness :
  exists client m' h',
    connect all_good "A" fresh_manager (mkHost [] []) = (Return client, m', h')
    /\ connect no_agent "A" m' h' = (Return client, m', h').
Proof.
  destruct all_good_connects as (client & m' & h' & Hfirst).
  exists client, m', h'. split; [exact Hfirst |].
  exact (connect_twice_returns_same_client all_good no_agent "A" fresh_manager m'
           (mkHost [] []) h' client Hfirst).
Defined.

Lemma connect_socket_failure_leaves_forwards_witness :
  exists h',
    connect no_agent "A" fresh_manager (mkHost [] [])
    = (Raise (ConnectionError "Failed to connect to device A: connection refused"),
       mkManager Config.default ∅ ∅ 28903, h')
    /\ forwards h' = [("A", 28900, 18900); ("A", 28901, 18901); ("A", 28902, 18902)].
Proof.
  apply (connect_socket_failure_leaves_forwards no_agent "A" fresh_manager (mkHost [] [])
           (OtherException "OSError" "connection refused")).
  - apply fresh_not_connected.
  - intros r _. reflexivity.
  - reflexivity.
  - reflexivity.
Defined.

Lemma connect_then_disconnect_witness :
  exists client m' h',
    connect all_good "A" fresh_manager (mkHost [] []) = (Return client, m', h')
    /\ forwards (snd (disconnect all_good "A" m' h')) = []
    /\ get_client "A" (fst (disconnect all_good "A" m' h')) = None.
Proof.
  destruct all_good_connects as (client & m' & h' & Hc).
  exists client, m', h'. split; [exact Hc |].
  pose proof (fun Hp Hfree =>
                connect_then_disconnect all_good all_good "A" fresh_manager m'
                  (mkHost [] []) h' client (fresh_not_connected "A") Hp Hfree Hc) as H.
  specialize (H ltac:(discriminate)).
  specialize (H ltac:(intros offset _; split; reflexivity)).
  destruct (disconnect all_good "A" _ h') as [m'' h''].
  cbn [fst snd]. destruct H as (H1 & H2 & _). split; assumption.
Defined.

Lemma connect_all_returns_usable_clients_witness :
  exists clients m' h',
    connect_all all_good fresh_manager (mkHost [] []) = (Return clients, m', h')
    /\ Forall (usable [mkAdbDevice "A" "device" "Pixel" ""] m') clients
    /\ (length clients <= 1)%nat.
Proof.
  eexists _, _, _. split; [reflexivity |].
  eapply (connect_all_returns_usable_clients all_good fresh_manager _ (mkHost [] [])).
  reflexivity.
Defined.

End ManagerFacts.


(** ** Further properties of the parallel executor *)

Module ExecutorFacts.
Import Py Types Events Executor.

(** Every way the coroutine can end, whatever states it is resumed in,
    gives a result satisfying [P]. *)
Fixpoint ends_with {S A : Type} (P : A -> Prop) (c : coro S A) : Prop :=
  match c with
  | Done a => P a
  | Await _ k => forall s, ends_with P (k s)
  end.

Lemma ends_with_cbind {S A B : Type} (P : A -> Prop) (Q : B -> Prop)
    (c : coro S A) (f : A -> coro S B) :
  ends_with P c -> (forall a, P a -> ends_with Q (f a)) -> ends_with Q (cbind c f).
Proof.
  intros Hc Hf. induction c as [a | next k IH]; cbn in *; [now apply Hf |].
  intros s. now apply IH.
Qed.

Lemma ends_with_any {S A : Type} (c : coro S A) : ends_with (fun _ => True) c.
Proof. induction c as [a | next k IH]; cbn; auto. Qed.

Lemma ends_with_impl {S A : Type} (P Q : A -> Prop) (c : coro S A) :
  (forall a, P a -> Q a) -> ends_with P c -> ends_with Q c.
Proof.
  intros HPQ. induction c as [a | next k IH]; cbn; [apply HPQ |].
  intros Hc s. apply IH, Hc.
Qed.

Section Results.
Context {W : Type}.
Variable repr_float : Q -> string.
Variable body : handler W -> string -> coro W Behaviour.

Definition stamped (serial : string) (r : TestResult) : Prop :=
  device_serial r = serial.

Lemma attempts_coro_stamped (test : TestCaseInfo W) (serial : string) (n : nat) :
  forall last,
    (forall tr, last = Some tr -> stamped serial tr) ->
    ends_with (fun r => forall tr, r = Return (Some tr) -> stamped serial tr)
      (attempts_coro repr_float body test serial n last).
Proof.
  induction n as [| n IH]; intros last Hlast; cbn [attempts_coro ends_with].
  - intros tr [= ->]. now apply Hlast.
  - apply (ends_with_cbind (fun _ => True)); [apply ends_with_any |].
    intros b _.
    destruct (Runner.attempt_result repr_float test serial b) as [r | e] eqn:Hr;
      [| cbn; discriminate].
    apply RunnerFacts.attempt_result_serial in Hr.
    destruct (TestStatus_eqb (status r) PASSED).
    + cbn. now intros tr [= <-].
    + apply IH. now intros tr [= <-].
Qed.

Lemma run_single_coro_stamped (test : TestCaseInfo W) (serial : string) :
  ends_with (fun r => forall tr, r = Return tr -> stamped serial tr)
    (run_single_coro repr_float body test serial).
Proof.
  unfold run_single_coro.
  eapply ends_with_cbind; [apply attempts_coro_stamped; discriminate |].
  intros r Hr. cbn [ends_with]. intros tr.
  destruct r as [[last |] | e]; cbn [bind]; try discriminate.
  - intros [= <-]. now apply Hr.
  - now intros [= <-].
Qed.

Lemma run_loop_coro_results (serial : string) (tests : list (TestCaseInfo W)) :
  forall i results,
    ends_with
      (fun r => forall rs, r = Return rs ->
         exists new, rs = results ++ new /\ length new = length tests
                     /\ Forall (stamped serial) new)
      (run_loop_coro repr_float body serial i tests results).
Proof.
  induction tests as [| test rest IH]; intros i results; cbn [run_loop_coro].
  - cbn. intros rs [= <-]. exists []. rewrite app_nil_r. repeat split. constructor.
  - apply (ends_with_cbind (fun _ => True)); [apply ends_with_any |]. intros _ _.
    eapply ends_with_cbind; [apply run_single_coro_stamped |].
    intros [result | e] Hres; [| cbn; discriminate].
    apply (ends_with_cbind (fun _ => True)); [apply ends_with_any |]. intros _ _.
    eapply ends_with_impl; [| apply IH].
    intros r Hr rs ->.
    destruct (Hr rs eq_refl) as (new & -> & Hlen & Hnew).
    exists (result :: new). split; [now rewrite <- app_assoc |].
    split; [cbn; lia |]. constructor; [now apply Hres | exact Hnew].
Qed.

(** What a worker hands to [gather]: a result for each of its tests, each
    stamped with its serial, or an exception. *)
Definition worker_post (spec : string * list (TestCaseInfo W))
    (r : res (list TestResult)) : Prop :=
  match r with
  | Return rs => length rs = length (snd spec) /\ Forall (stamped (fst spec)) rs
  | Raise _ => True
  end.

Lemma worker_ends (spec : string * list (TestCaseInfo W)) :
  ends_with (worker_post spec)
    (_run_device_worker repr_float body (fst spec) (snd spec)).
Proof.
  destruct spec as [serial tests]. cbn [fst snd].
  unfold _run_device_worker, run_coro.
  assert (Hrun : ends_with
            (fun r => forall rs, r = Return rs ->
               length rs = length tests /\ Forall (stamped serial) rs)
            (cbind (emit_coro (mkEvent "run.started" "runner"
                      [("total", DInt (Z.of_nat (length tests)));
                       ("device", DStr serial)]))
               (fun _ =>
                cbind (run_loop_coro repr_float body serial 0 tests [])
                  (fun r =>
                   match r with
                   | Raise e => Done (Raise e)
                   | Return results =>
                       cbind (emit_coro (mkEvent "run.completed" "runner"
                                [("total", DInt (Z.of_nat (length results)));
                                 ("passed", DInt (Runner.count_status PASSED results));
                                 ("failed", DInt (Runner.count_status FAILED results));
                                 ("error", DInt (Runner.count_status ERROR results))]))
                         (fun _ => Done (Return results))
                   end)))).
  { apply (ends_with_cbind (fun _ => True)); [apply ends_with_any |]. intros _ _.
    eapply ends_with_cbind; [apply run_loop_coro_results |].
    intros [results | e] Hr; [| cbn; discriminate].
    apply (ends_with_cbind (fun _ => True)); [apply ends_with_any |]. intros _ _.
    cbn. intros rs [= <-].
    destruct (Hr results eq_refl) as (new & -> & Hlen & Hnew). now split. }
  eapply ends_with_cbind; [exact Hrun |].
  intros [results | e] Hr; cbn [ends_with worker_post fst snd]; [now apply Hr |].
  destruct (is_Exception e); cbn [ends_with worker_post fst snd]; [| trivial].
  split; [apply length_map |].
  apply List.Forall_forall. intros r Hin. apply in_map_iff in Hin.
  destruct Hin as (t & <- & _). reflexivity.
Qed.

(** *** The invariant of the loop: whatever the schedule *)

Definition task_ok (spec : string * list (TestCaseInfo W)) (t : task W) : Prop :=
  match t with
  | Acquiring c | Running c => ends_with (worker_post spec) c
  | Finished r => worker_post spec r
  end.

Lemma resume_ok (specs : list (string * list (TestCaseInfo W))) (i : nat)
    (l : loop_state W) :
  Forall2 task_ok specs (tasks l) -> Forall2 task_ok specs (tasks (resume i l)).
Proof.
  intros Hall. unfold resume.
  destruct (tasks l !! i) as [t |] eqn:Ht; [| exact Hall].
  destruct (Forall2_lookup_r _ _ _ _ _ Hall Ht) as (spec & Hspec & Hok).
  assert (Hset : forall t', task_ok spec t' ->
            Forall2 task_ok specs (<[i := t']> (tasks l))).
  { intros t' Ht'. rewrite <- (list_insert_id specs i spec Hspec).
    now apply Forall2_insert. }
  destruct t as [c | c | r]; [| | exact Hall].
  - destruct (0 <? permits l); [| exact Hall]. cbn [tasks]. now apply Hset.
  - destruct c as [r | next k]; cbn [tasks]; apply Hset; cbn in Hok |- *;
      [exact Hok | apply Hok].
Qed.

Lemma run_schedule_ok (specs : list (string * list (TestCaseInfo W)))
    (schedule : list nat) :
  forall l : loop_state W,
    Forall2 task_ok specs (tasks l) ->
    Forall2 task_ok specs (tasks (run_schedule schedule l)).
Proof.
  induction schedule as [| i schedule IH]; intros l Hall; [exact Hall |].
  cbn [run_schedule fold_left]. apply IH. now apply resume_ok.
Qed.

Lemma all_results_ok (specs : list (string * list (TestCaseInfo W))) (ts : list (task W)) :
  Forall2 task_ok specs ts ->
  forall rs, all_results ts = Some rs -> Forall2 worker_post specs rs.
Proof.
  induction 1 as [| spec t specs ts Hok _ IH]; intros rs Hrs; cbn in Hrs.
  - injection Hrs as <-. constructor.
  - destruct t as [c | c | r]; try discriminate Hrs.
    destruct (all_results ts) as [rs' |]; [| discriminate Hrs].
    injection Hrs as <-. constructor; [exact Hok | now apply IH].
Qed.

Lemma gather_ok (max_workers : Z) (schedule : list nat)
    (specs : list (string * list (TestCaseInfo W))) (s s' : shared W)
    (rs : list (res (list TestResult))) :
  gather repr_float body max_workers schedule specs s = Some (rs, s') ->
  Forall2 worker_post specs rs.
Proof.
  unfold gather.
  set (l := run_schedule schedule _).
  destruct (all_results (tasks l)) as [rs' |] eqn:Hall; [| discriminate].
  intros [= <- _]. apply (all_results_ok specs (tasks l)); [| exact Hall].
  apply run_schedule_ok. cbn [tasks].
  clear. induction specs as [| spec specs IH]; cbn [List.map]; constructor;
    [apply worker_ends | exact IH].
Qed.

(** Each task runs on the client registered under some serial. *)
Definition on_registered_client (m : Manager.DeviceManager) (serial : string) : Prop :=
  exists s c, Manager.get_client s m = Some c /\ serial = Client.serial c.

Lemma make_tasks_spec (a : list (string * list (TestCaseInfo W)))
    (m : Manager.DeviceManager) :
  Forall (fun task => on_registered_client m (fst task)) (make_tasks a m)
  /\ (length (concat (List.map snd (make_tasks a m)))
      <= length (concat (dict_values a)))%nat.
Proof.
  unfold dict_values. induction a as [| [serial test_list] a [IH1 IH2]];
    cbn [make_tasks]; [split; [constructor | reflexivity] |].
  cbn [List.map snd concat]. rewrite length_app.
  destruct test_list as [| t ts]; [split; [exact IH1 | cbn; lia] |].
  destruct (Manager.get_client serial m) as [client |] eqn:Hc.
  - split.
    + constructor; [| exact IH1]. cbn. now exists serial, client.
    + cbn [List.map snd concat]. rewrite length_app. lia.
  - split; [exact IH1 | lia].
Qed.

Lemma extend_results_spec (m : Manager.DeviceManager)
    (specs : list (string * list (TestCaseInfo W))) (all : list (res (list TestResult))) :
  Forall2 worker_post specs all ->
  Forall (fun task => on_registered_client m (fst task)) specs ->
  forall results,
    (Forall (fun r => on_registered_client m (device_serial r)) results ->
     Forall (fun r => on_registered_client m (device_serial r))
       (extend_results all results))
    /\ (length (extend_results all results)
        <= length results + length (concat (List.map snd specs)))%nat.
Proof.
  induction 1 as [| spec r specs all Hpost _ IH]; intros Hreg results;
    cbn [extend_results].
  - split; [trivial | lia].
  - inversion Hreg as [| ? ? Hhere Hrest]; subst.
    cbn [List.map concat]. rewrite length_app.
    destruct r as [rs | e].
    + destruct Hpost as [Hlen Hser].
      destruct (IH Hrest (results ++ rs)) as [H1 H2]. split.
      * intros Hall. apply H1. apply Forall_app. split; [exact Hall |].
        eapply List.Forall_impl; [| exact Hser].
        intros r Hr. unfold stamped in Hr. now rewrite Hr.
      * rewrite length_app in H2. lia.
    + destruct (IH Hrest results) as [H1 H2]. split; [exact H1 | lia].
Qed.

(** X26: whatever the order in which the event loop resumes the device
    workers, every result [execute] returns carries the serial of a client
    registered in the device manager, and there are never more results
    than tests assigned by the plan. *)
Theorem execute_results_belong_to_clients :
  forall (env : Manager.Env) (max_workers : Z) (t_start t_end : spec_float)
         (schedule : list nat) (tests : list (TestCaseInfo W))
         (strategy : string) (st st' : State W) (r : ExecutionResult W)
         (p : Planner.ExecutionPlan W),
    execute repr_float body env max_workers t_start t_end schedule tests strategy st
    = Some (Return r, st') ->
    plan r = Some p ->
    Forall (fun res => on_registered_client (device_manager st') (device_serial res))
      (results r)
    /\ (length (results r) <= length (concat (dict_values (Planner.assignments p))))%nat.
Proof.
  intros env max_workers t_start t_end schedule tests strategy st st' r p Hexec Hplan.
  unfold execute in Hexec.
  destruct (Manager.connect_all env (device_manager st) (host st))
    as [[[clients | e] m] h]; [| discriminate Hexec].
  destruct clients as [| c cs].
  { injection Hexec as <- _. discriminate Hplan. }
  destruct (Planner.plan tests (List.map Client.serial (c :: cs)) strategy)
    as [p0 | e]; [| discriminate Hexec].
  destruct (max_workers <? 0); [discriminate Hexec |].
  destruct (make_tasks_spec (Planner.assignments p0) m) as [Hreg Hlen].
  destruct (make_tasks (Planner.assignments p0) m) as [| t ts] eqn:Htasks.
  { injection Hexec as <- <-. cbn in Hplan. injection Hplan as <-.
    cbn [results]. split; [constructor | cbn; lia]. }
  destruct (gather repr_float body max_workers schedule (t :: ts) _)
    as [[all s] |] eqn:Hgather; [| discriminate Hexec].
  injection Hexec as <- <-. cbn in Hplan. injection Hplan as <-.
  cbn [results device_manager].
  apply gather_ok in Hgather.
  destruct (extend_results_spec m (t :: ts) all Hgather Hreg []) as [H1 H2].
  split; [apply H1; constructor | cbn [length] in H2; lia].
Qed.
End Results.

(** Two devices online, every forward and every socket connection
    succeeding; two tests that fail until the world has seen two calls. *)
Definition two_devices : Manager.Env :=
  Manager.mkEnv
    [Manager.mkAdbDevice "A" "device" "Pixel" "";
     Manager.mkAdbDevice "B" "device" "Pixel" ""]
    (fun _ _ _ => true) (fun _ _ => true) (fun _ => Return tt).

Definition ready_state : State nat :=
  mkState (Manager.DeviceManager_new Config.default) (Manager.mkHost [] []) 0%nat [].

(** The loop resumes the two workers in turn. *)
Definition in_turn : list nat :=
  [0; 1; 0; 1; 0; 1; 0; 1; 0; 1; 0; 1; 0; 1; 0; 1]%nat.

Lemma execute_results_belong_to_clients_witness :
  exists r st' p,
    execute Runner.repr_300 atomic two_devices 8 (S754_zero false) (S754_zero false)
      in_turn [Runner.flaky_test; Runner.flaky_test] "round_robin" ready_state
    = Some (Return r, st')
    /\ plan r = Some p
    /\ Forall (fun res => on_registered_client (device_manager st') (device_serial res))
         (results r)
    /\ (length (results r) <= length (concat (dict_values (Planner.assignments p))))%nat
    /\ List.map device_serial (results r) = ["A"; "B"]
    /\ List.map status (results r) = [PASSED; PASSED]
    /\ List.map ev_type (event_bus st')
       = ["execution.started"; "run.started"; "run.started"; "test.started";
          "test.started"; "test.completed"; "test.completed"; "run.completed";
          "run.completed"; "execution.completed"].
Proof.
  eexists _, _, _. split; [vm_compute; reflexivity |]. split; [reflexivity |].
  split; [| split; [| repeat split]].
  - eapply (execute_results_belong_to_clients Runner.repr_300 atomic two_devices 8
              (S754_zero false) (S754_zero false) in_turn
              [Runner.flaky_test; Runner.flaky_test] "round_robin" ready_state);
      [vm_compute; reflexivity | reflexivity].
  - eapply (execute_results_belong_to_clients Runner.repr_300 atomic two_devices 8
              (S754_zero false) (S754_zero false) in_turn
              [Runner.flaky_test; Runner.flaky_test] "round_robin" ready_state);
      [vm_compute; reflexivity | reflexivity].
Defined.

(** With a single permit the second worker waits at the semaphore until
    the first has left it, whatever turns the loop gives it before. *)
Example one_worker_at_a_time :
  match execute Runner.repr_300 atomic two_devices 1 (S754_zero false) (S754_zero false)
          (in_turn ++ in_turn) [Runner.flaky_test; Runner.flaky_test] "round_robin"
          ready_state with
  | Some (Return r, st') =>
      List.map device_serial (results r) = ["A"; "B"]
      /\ List.map ev_type (event_bus st')
         = ["execution.started"; "run.started"; "test.started"; "test.completed";
            "run.completed"; "run.started"; "test.started"; "test.completed";
            "run.completed"; "execution.completed"]
  | _ => False
  end.
Proof. vm_compute. split; reflexivity. Qed.

(** With no permit at all no worker ever enters, and [gather] does not
    return under this schedule. *)
Example no_permit_no_progress :
  execute Runner.repr_300 atomic two_devices 0 (S754_zero false) (S754_zero false)
    (in_turn ++ in_turn) [Runner.flaky_test; Runner.flaky_test] "round_robin" ready_state
  = None.
Proof. vm_compute. reflexivity. Qed.

End ExecutorFacts.


(** ** core/types.py: rectangles *)

Module Geometry.
Import Ocr.

(** [Rect.width], [Rect.height], [Rect.center_x], [Rect.center_y]; [//] is
    floor division. *)
Definition width (r : Rect) : Z := rect_right r - rect_left r.
Definition height (r : Rect) : Z := rect_bottom r - rect_top r.


End Geometry.

(** ** automation/dsl.py: Device.ocr_click

    The loop polls: each round takes a screenshot, searches it and, if
    there is no match at the index yet, reads the clock.  A [poll] is what
    one round observes: the outcome of [self.screenshot()] and the reading
    of [loop.time()] of that round.  [click] is the outcome of sending
    [ui.click] with the coordinates; [message] renders the text of the
    not-found error.  When the observations run out the coroutine is asleep
    between two rounds. *)

Module Dsl.
Import Py Ocr Geometry.





Section OcrClick.
Variable plugin : OcrPlugin.
Variable click : Z -> Z -> res unit.
Variable message : string -> Q -> Q -> string.





End OcrClick.

End Dsl.

(** ** plugins/builtin/ocr.py: the PaddleOCR results

    The engine gives, per detected line of text, a four-corner box and a
    pair of text and confidence; coordinates are floats, here rationals. *)

Module Paddle.
Import Py Ocr.

Record item : Type := mkItem {
  box : list (Q * Q);
  item_text : string;
  item_confidence : Q
}.

(** [min(xs)] and [max(xs)]: the first smallest and the first largest. *)
Definition qmin (xs : list Q) : res Q :=
  match xs with
  | [] => Raise (OtherException "ValueError" "min() arg is an empty sequence")
  | x :: rest => Return (fold_left (fun m y => if Qlt_bool y m then y else m) rest x)
  end.

Definition qmax (xs : list Q) : res Q :=
  match xs with
  | [] => Raise (OtherException "ValueError" "max() arg is an empty sequence")
  | x :: rest => Return (fold_left (fun m y => if Qlt_bool m y then y else m) rest x)
  end.

(** [int(x)] on a coordinate: truncation toward zero. *)
Definition py_int (q : Q) : Z := Z.quot (Qnum q) (Zpos (Qden q)).

(** The body of the inner loop: one item to one result. *)
Definition item_result (i : item) : res OcrResult :=
  let xs := List.map fst (box i) in
  let ys := List.map snd (box i) in
  bind (qmin xs) (fun x0 =>
  bind (qmin ys) (fun y0 =>
  bind (qmax xs) (fun x1 =>
  bind (qmax ys) (fun y1 =>
  Return (mkOcrResult (item_text i)
            (mkRect (py_int x0) (py_int y0)
                    (py_int x1) (py_int y1))
            (item_confidence i)))))).

Fixpoint line_results (line : list item) (results : list OcrResult)
    : res (list OcrResult) :=
  match line with
  | [] => Return results
  | i :: rest => bind (item_result i) (fun r => line_results rest (results ++ [r]))
  end.

(** The outer loop; a line that is [None] or empty is skipped. *)
Fixpoint lines_results (raw : list (option (list item))) (results : list OcrResult)
    : res (list OcrResult) :=
  match raw with
  | [] => Return results
  | None :: rest => lines_results rest results
  | Some line :: rest =>
      bind (line_results line results) (lines_results rest)
  end.

(** The part of [PaddleOcrBackend.recognize] after the engine has run. *)
Definition paddle_results (raw_results : option (list (option (list item))))
    : res (list OcrResult) :=
  match raw_results with
  | None => Return []
  | Some raw => lines_results raw []
  end.

(** All the items of the lines that are not skipped, in order. *)
Definition all_items (raw_results : option (list (option (list item)))) : list item :=
  match raw_results with
  | None => []
  | Some raw => concat (List.map (fun line => default [] line) raw)
  end.

End Paddle.


(** ** Properties of ocr_click and of the PaddleOCR results *)

Module DslFacts.
Import Py Ocr Geometry Dsl.

Section OcrClick.
Variable plugin : OcrPlugin.
Variable click : Z -> Z -> res unit.
Variable message : string -> Q -> Q -> string.



End OcrClick.





End DslFacts.

Module PaddleFacts.
Import Py Ocr Paddle.

Lemma py_int_mono (a b : Q) : (a <= b)%Q -> py_int a <= py_int b.
Proof.
  unfold Qle, py_int. intros Hab.
  rewrite <- (Z.quot_mul_cancel_r (Qnum a) (Zpos (Qden a)) (Zpos (Qden b))) by lia.
  rewrite <- (Z.quot_mul_cancel_r (Qnum b) (Zpos (Qden b)) (Zpos (Qden a))) by lia.
  rewrite (Z.mul_comm (Zpos (Qden b)) (Zpos (Qden a))).
  apply Z.quot_le_mono; [lia | exact Hab].
Qed.

Lemma fold_min_le (rest : list Q) :
  forall m, (fold_left (fun m y => if Qlt_bool y m then y else m) rest m <= m)%Q.
Proof.
  induction rest as [| y rest IH]; intros m; cbn [fold_left]; [apply Qle_refl |].
  eapply Qle_trans; [apply IH |].
  destruct (Qlt_bool y m) eqn:E; [| apply Qle_refl].
  unfold Qlt_bool in E. apply negb_true_iff in E.
  apply Qlt_le_weak, Qnot_le_lt. intros H. apply Qle_bool_iff in H. congruence.
Qed.

Lemma fold_max_ge (rest : list Q) :
  forall m, (m <= fold_left (fun m y => if Qlt_bool m y then y else m) rest m)%Q.
Proof.
  induction rest as [| y rest IH]; intros m; cbn [fold_left]; [apply Qle_refl |].
  eapply Qle_trans; [| apply IH].
  destruct (Qlt_bool m y) eqn:E; [| apply Qle_refl].
  unfold Qlt_bool in E. apply negb_true_iff in E.
  apply Qlt_le_weak, Qnot_le_lt. intros H. apply Qle_bool_iff in H. congruence.
Qed.

Lemma qmin_le_qmax (xs : list Q) (a b : Q) :
  qmin xs = Return a -> qmax xs = Return b -> (a <= b)%Q.
Proof.
  destruct xs as [| x rest]; [discriminate |]. cbn. intros [= <-] [= <-].
  eapply Qle_trans; [apply fold_min_le | apply fold_max_ge].
Qed.

Definition well_formed_rect (r : OcrResult) : Prop :=
  rect_left (bounds r) <= rect_right (bounds r)
  /\ rect_top (bounds r) <= rect_bottom (bounds r).

Lemma item_result_spec (i : item) :
  box i <> [] ->
  exists r,
    item_result i = Return r
    /\ Ocr.text r = item_text i /\ confidence r = item_confidence i
    /\ well_formed_rect r.
Proof.
  intros Hne. unfold item_result.
  destruct (box i) as [| [x y] rest] eqn:Hbox; [congruence |].
  set (xs := List.map fst ((x, y) :: rest)). set (ys := List.map snd ((x, y) :: rest)).
  destruct (qmin xs) as [x0 |] eqn:Hx0; [| discriminate Hx0].
  destruct (qmin ys) as [y0 |] eqn:Hy0; [| discriminate Hy0].
  destruct (qmax xs) as [x1 |] eqn:Hx1; [| discriminate Hx1].
  destruct (qmax ys) as [y1 |] eqn:Hy1; [| discriminate Hy1].
  cbn [bind]. eexists. split; [reflexivity |]. cbn.
  repeat split; apply py_int_mono; eapply qmin_le_qmax; eassumption.
Qed.

Lemma line_results_spec (line : list item) :
  Forall (fun i => box i <> []) line ->
  forall results, exists rs,
    line_results line results = Return (results ++ rs)
    /\ List.map Ocr.text rs = List.map item_text line
    /\ List.map confidence rs = List.map item_confidence line
    /\ Forall well_formed_rect rs.
Proof.
  induction 1 as [| i line Hi _ IH]; intros results.
  - exists []. cbn. rewrite app_nil_r. repeat split. constructor.
  - destruct (item_result_spec i Hi) as (r & Hr & Ht & Hc & Hw).
    destruct (IH (results ++ [r])) as (rs & Hrun & Hts & Hcs & Hws).
    exists (r :: rs). cbn [line_results]. rewrite Hr. cbn [bind]. rewrite Hrun.
    split; [now rewrite <- app_assoc |]. cbn [List.map].
    split; [congruence |]. split; [congruence |]. now constructor.
Qed.

Lemma lines_results_spec (raw : list (option (list item))) :
  Forall (fun i => box i <> []) (all_items (Some raw)) ->
  forall results, exists rs,
    lines_results raw results = Return (results ++ rs)
    /\ List.map Ocr.text rs = List.map item_text (all_items (Some raw))
    /\ List.map confidence rs = List.map item_confidence (all_items (Some raw))
    /\ Forall well_formed_rect rs.
Proof.
  cbn [all_items]. induction raw as [| [line |] raw IH]; intros Hall results.
  - exists []. cbn. rewrite app_nil_r. repeat split. constructor.
  - cbn [List.map concat] in Hall |- *.
    change (default [] (Some line)) with line in Hall |- *.
    apply Forall_app in Hall. destruct Hall as [Hline Hrest].
    destruct (line_results_spec line Hline results) as (rs1 & Hrun1 & Ht1 & Hc1 & Hw1).
    destruct (IH Hrest (results ++ rs1)) as (rs2 & Hrun2 & Ht2 & Hc2 & Hw2).
    exists (rs1 ++ rs2). cbn [lines_results]. rewrite Hrun1. cbn [bind]. rewrite Hrun2.
    split; [now rewrite <- app_assoc |]. rewrite !List.map_app.
    split; [now rewrite Ht1, Ht2 |]. split; [now rewrite Hc1, Hc2 |].
    apply Forall_app. now split.
  - cbn [List.map concat] in Hall |- *.
    change (default [] None) with (@nil item) in Hall |- *.
    cbn [app] in Hall |- *. now apply IH.
Qed.

(** X29: when every detected box has at least one corner, the PaddleOCR
    results come out one per item, in the order of the items, with the
    item's text and confidence, and each rectangle is well formed: its left
    edge is not right of its right edge, nor its top below its bottom. *)
Theorem paddle_results_well_formed :
  forall (raw_results : option (list (option (list item)))),
    Forall (fun i => box i <> []) (all_items raw_results) ->
    exists rs,
      paddle_results raw_results = Return rs
      /\ List.map Ocr.text rs = List.map item_text (all_items raw_results)
      /\ List.map confidence rs = List.map item_confidence (all_items raw_results)
      /\ Forall well_formed_rect rs.
Proof.
  intros [raw |] Hall.
  - destruct (lines_results_spec raw Hall []) as (rs & Hrun & H).
    exists rs. split; [exact Hrun | exact H].
  - exists []. cbn. repeat split. constructor.
Qed.

Definition slanted : item :=
  mkItem [(10 # 1, 21 # 2); (99 # 2, 8 # 1); (50 # 1, 30 # 1); (9 # 1, 61 # 2)] "OK" (97 # 100).

Lemma paddle_results_well_formed_witness :
  exists rs,
    paddle_results (Some [None; Some [slanted]]) = Return rs
    /\ List.map Ocr.text rs = ["OK"]
    /\ List.map confidence rs = [97 # 100]
    /\ Forall well_formed_rect rs.
Proof.
  apply (paddle_results_well_formed (Some [None; Some [slanted]])).
  constructor; [discriminate | constructor].
Defined.

Example paddle_slanted :
  paddle_results (Some [None; Some [slanted]])
  = Return [mkOcrResult "OK" (mkRect 9 8 50 30) (97 # 100)].
Proof. reflexivity. Qed.

End PaddleFacts.


(** * core/events.py: the subscriptions of EventBus

    Handlers are compared by identity ([list.remove]), so a handler is its
    identity here.  [_handlers] is a [defaultdict(list)]: reading a missing
    key with [[ ]] creates it with an empty list, reading with [.get] does
    not. *)

Module EventBus.
Import Py Events.

Abbreviation handler := nat.

Record bus : Type := mkBus {
  _handlers : gmap string (list handler);
  _wildcard_handlers : list handler
}.

(** [EventBus()] *)
Definition new_bus : bus := mkBus ∅ [].

(** [list.remove(x)]: the first element equal to [x] is removed; [None]
    when there is none, where Python raises ValueError. *)
Fixpoint list_remove (x : handler) (l : list handler) : option (list handler) :=
  match l with
  | [] => None
  | y :: rest =>
      if Nat.eqb y x then Some rest
      else match list_remove x rest with
           | Some rest' => Some (y :: rest')
           | None => None
           end
  end.

Definition not_in_list : exn := OtherException "ValueError" "list.remove(x): x not in list".

(** [self._handlers[event_type]] on the defaultdict. *)
Definition item (b : bus) (event_type : string) : list handler :=
  default [] (_handlers b !! event_type).

(** [on]: the handler is appended to the list of its type. *)
Definition on (b : bus) (event_type : string) (h : handler) : bus :=
  mkBus (<[event_type := item b event_type ++ [h]]> (_handlers b))
        (_wildcard_handlers b).

(** The function [on] returns, called on the bus as it is by then. *)
Definition unsubscribe (b : bus) (event_type : string) (h : handler) : res unit * bus :=
  match list_remove h (item b event_type) with
  | Some rest => (Return tt, mkBus (<[event_type := rest]> (_handlers b))
                                   (_wildcard_handlers b))
  | None => (Raise not_in_list,
             mkBus (<[event_type := item b event_type]> (_handlers b))
                   (_wildcard_handlers b))
  end.

(** [on_all] and the function it returns. *)
Definition on_all (b : bus) (h : handler) : bus :=
  mkBus (_handlers b) (_wildcard_handlers b ++ [h]).

Definition unsubscribe_all (b : bus) (h : handler) : res unit * bus :=
  match list_remove h (_wildcard_handlers b) with
  | Some rest => (Return tt, mkBus (_handlers b) rest)
  | None => (Raise not_in_list, b)
  end.

(** The handlers [emit] calls for an event, in the order it starts them:
    those of the event's type, then the wildcard ones. *)
Definition recipients (b : bus) (e : Event) : list handler :=
  default [] (_handlers b !! ev_type e) ++ _wildcard_handlers b.

(** [clear]: the test on [event_type] is Python truthiness, so the empty
    string is treated like [None]. *)
Definition clear (b : bus) (event_type : option string) : bus :=
  match event_type with
  | Some (String c s) => mkBus (delete (String c s) (_handlers b)) (_wildcard_handlers b)
  | _ => mkBus ∅ []
  end.

End EventBus.

Module EventBusFacts.
Import Py Events EventBus.

Lemma list_remove_last (h : handler) (l : list handler) :
  ~ In h l -> list_remove h (l ++ [h]) = Some l.
Proof.
  induction l as [| y l IH]; intros Hnot; cbn.
  - now rewrite Nat.eqb_refl.
  - destruct (Nat.eqb_spec y h) as [-> | _]; [exfalso; apply Hnot; now left |].
    rewrite IH; [reflexivity |]. intros Hin. apply Hnot. now right.
Qed.

Lemma list_remove_absent (h : handler) (l : list handler) :
  ~ In h l -> list_remove h l = None.
Proof.
  induction l as [| y l IH]; intros Hnot; cbn; [reflexivity |].
  destruct (Nat.eqb_spec y h) as [-> | _]; [exfalso; apply Hnot; now left |].
  rewrite IH; [reflexivity |]. intros Hin. apply Hnot. now right.
Qed.

Lemma item_insert (m : gmap string (list handler)) (w : list handler)
    (event_type : string) (l : list handler) :
  item (mkBus (<[event_type := l]> m) w) event_type = l.
Proof.
  unfold item. cbn. now rewrite lookup_insert_eq.
Qed.

Lemma recipients_insert_item (b : bus) (event_type : string) (e : Event) :
  recipients (mkBus (<[event_type := item b event_type]> (_handlers b))
                    (_wildcard_handlers b)) e
  = recipients b e.
Proof.
  unfold recipients, item. cbn.
  destruct (decide (event_type = ev_type e)) as [-> | Hne].
  - now rewrite lookup_insert_eq.
  - now rewrite lookup_insert_ne.
Qed.

(** X30: unsubscribing undoes subscribing.  A handler that was not yet
    subscribed to a type is, once subscribed, called for events of that type
    after the earlier handlers of the type and before the wildcard
    handlers; calling the function [on] returned succeeds and leaves every
    event with exactly the recipients it had before; calling it once more
    raises ValueError and still changes no event's recipients. *)
Theorem unsubscribe_undoes_subscribe :
  forall (b : bus) (event_type : string) (h : handler),
    ~ In h (item b event_type) ->
    (forall e, ev_type e = event_type ->
       recipients (on b event_type h) e
       = item b event_type ++ [h] ++ _wildcard_handlers b)
    /\ (forall e, ev_type e <> event_type ->
          recipients (on b event_type h) e = recipients b e)
    /\ exists b2 b3,
         unsubscribe (on b event_type h) event_type h = (Return tt, b2)
         /\ (forall e, recipients b2 e = recipients b e)
         /\ unsubscribe b2 event_type h = (Raise not_in_list, b3)
         /\ (forall e, recipients b3 e = recipients b e).
Proof.
  intros b event_type h Hnot. split; [| split].
  - intros e <-. unfold recipients, on. cbn.
    rewrite lookup_insert_eq. cbn. now rewrite <- app_assoc.
  - intros e Hne. unfold recipients, on. cbn. now rewrite lookup_insert_ne.
  - assert (Hb2 : unsubscribe (on b event_type h) event_type h
                  = (Return tt, mkBus (<[event_type := item b event_type]> (_handlers b))
                                      (_wildcard_handlers b))).
    { unfold unsubscribe, on. rewrite item_insert.
      rewrite list_remove_last by exact Hnot. cbn. now rewrite insert_insert_eq. }
    eexists _, _. split; [exact Hb2 |].
    split; [apply recipients_insert_item |].
    split.
    + unfold unsubscribe. rewrite item_insert.
      rewrite list_remove_absent by exact Hnot. reflexivity.
    + intros e. cbn. rewrite insert_insert_eq. apply recipients_insert_item.
Qed.

Definition sample_bus : bus := on_all (on (on new_bus "test.completed" 1) "run.started" 2) 7.
Definition test_completed : Event := mkEvent "test.completed" "runner" [].

Lemma unsubscribe_undoes_subscribe_witness :
  recipients (on sample_bus "test.completed" 3) test_completed = [1; 3; 7]%nat
  /\ exists b2,
       unsubscribe (on sample_bus "test.completed" 3) "test.completed" 3 = (Return tt, b2)
       /\ recipients b2 test_completed = [1; 7]%nat
       /\ fst (unsubscribe b2 "test.completed" 3) = Raise not_in_list.
Proof.
  assert (Hnot : ~ In 3%nat (item sample_bus "test.completed")).
  { vm_compute. intros [H | []]. discriminate H. }
  destruct (unsubscribe_undoes_subscribe sample_bus "test.completed" 3 Hnot)
    as (Hon & _ & b2 & b3 & Hb2 & Hsame & Hb3 & _).
  split.
  - rewrite (Hon test_completed eq_refl). reflexivity.
  - exists b2. split; [exact Hb2 |]. split.
    + rewrite Hsame. reflexivity.
    + now rewrite Hb3.
Defined.

End EventBusFacts.
